(** * Video engagement dashboard: the analyzer and the CSV field coercion

    A shallow embedding of the class [VideoEngagementAnalyzer] and of the
    two copies of [parseCSV]: the one inside [handleFileUpload], which
    returns the rows as the headers shape them ([parseCSV] below), and the
    one of VideoEngagementUI.tsx, which reads the seven fields of
    [EngagementData] off such a row ([VideoEngagementUI.parseCSV]); with the
    properties the specification states about them.

    Modelling conventions.
    - A JavaScript [number] is the type [number] below: [NaN], the two
      infinities, or a finite value, held as an exact rational.  The
      operations [add], [mul] and [div] are exact; [add64], [mul64] and
      [div64] round their result to binary64.  The analyzer is embedded
      over the exact operations, and its sums a second time over the
      operations of the host ([calculateCommunityMetricsWith]), for the
      statement that depends on how sums round.  The sign of zero is not
      modelled.
    - A string is a [string] of 8-bit code units.
    - A plain object used as a dictionary is an [obj]: its own properties in
      creation order.  Reading a property also finds the members every
      object inherits from [Object.prototype] ([lookup]), and an assignment
      to [__proto__] creates no own property ([assign]).  The prototype an
      assignment to [__proto__] installs, and the properties the grouping
      loops write on an inherited member, are not reachable through the
      own properties of any object of the analyzer and are not tracked.
    - An exception is the [Throw] case of [result].
    - [Date.parse] and [Number.prototype.toFixed] depend on the host and on
      the binary representation; they are parameters of the analyzer. *)

From Stdlib Require Import List String Ascii Bool ZArith QArith Qabs Qround Qcanon Qpower Lia.
From Stdlib Require Import Permutation Sorted.
From Stdlib Require PrimFloat SpecFloat FloatOps.
Import ListNotations.

Set Implicit Arguments.
Local Open Scope Z_scope.

(** ** Exceptions *)

Inductive error : Type :=
| RangeError (* Date.prototype.toISOString on an invalid date *)
| TypeError  (* Array.prototype.reduce on an empty array without initial value *).

Inductive result (A : Type) : Type :=
| Ok (a : A)
| Throw (e : error).

Arguments Ok {A} a.
Arguments Throw {A} e.

Definition bind {A B : Type} (r : result A) (k : A -> result B) : result B :=
  match r with
  | Ok a => k a
  | Throw e => Throw e
  end.

Notation "x <- r ;; k" := (bind r (fun x => k))
  (at level 61, r at next level, right associativity).

Definition returns {A : Type} (r : result A) : Prop := exists a, r = Ok a.

(** ** Numbers *)

Inductive number : Type :=
| NaN
| PosInf
| NegInf
| Fin (q : Qc).

Definition ofZ (z : Z) : number := Fin (Q2Qc (inject_Z z)).
Definition ofQ (q : Q) : number := Fin (Q2Qc q).

Definition zero : number := ofZ 0.
Definition one : number := ofZ 1.

Definition isNaN (x : number) : bool :=
  match x with NaN => true | _ => false end.

Definition isFinite (x : number) : bool :=
  match x with Fin _ => true | _ => false end.

Definition Qc_eqb (p q : Qc) : bool :=
  match (p ?= q)%Qc with Eq => true | _ => false end.

Definition Qc_ltb (p q : Qc) : bool :=
  match (p ?= q)%Qc with Lt => true | _ => false end.

(** [x + y] *)
Definition add (x y : number) : number :=
  match x, y with
  | NaN, _ | _, NaN => NaN
  | PosInf, NegInf | NegInf, PosInf => NaN
  | PosInf, _ | _, PosInf => PosInf
  | NegInf, _ | _, NegInf => NegInf
  | Fin p, Fin q => Fin (p + q)%Qc
  end.

Definition neg (x : number) : number :=
  match x with
  | NaN => NaN
  | PosInf => NegInf
  | NegInf => PosInf
  | Fin p => Fin (- p)%Qc
  end.

(** The infinity carrying the sign of the finite value [p] (zero counts as
    positive: the sign of zero is not modelled). *)
Definition inf_signed (p : Qc) : number :=
  if Qc_ltb p 0%Qc then NegInf else PosInf.

(** [x * y] *)
Definition mul (x y : number) : number :=
  match x, y with
  | NaN, _ | _, NaN => NaN
  | Fin p, Fin q => Fin (p * q)%Qc
  | PosInf, PosInf | NegInf, NegInf => PosInf
  | PosInf, NegInf | NegInf, PosInf => NegInf
  | PosInf, Fin q | Fin q, PosInf =>
      if Qc_eqb q 0%Qc then NaN else inf_signed q
  | NegInf, Fin q | Fin q, NegInf =>
      if Qc_eqb q 0%Qc then NaN else neg (inf_signed q)
  end.

(** [x / y] *)
Definition div (x y : number) : number :=
  match x, y with
  | NaN, _ | _, NaN => NaN
  | Fin p, Fin q =>
      if Qc_eqb q 0%Qc
      then (if Qc_eqb p 0%Qc then NaN else inf_signed p)
      else Fin (p / q)%Qc
  | Fin _, (PosInf | NegInf) => zero
  | (PosInf | NegInf), (PosInf | NegInf) => NaN
  | PosInf, Fin q => inf_signed q
  | NegInf, Fin q => neg (inf_signed q)
  end.

(** [x < y]; false as soon as one side is [NaN]. *)
Definition lt (x y : number) : bool :=
  match x, y with
  | NaN, _ | _, NaN => false
  | NegInf, NegInf => false
  | NegInf, _ => true
  | _, NegInf => false
  | PosInf, _ => false
  | Fin _, PosInf => true
  | Fin p, Fin q => Qc_ltb p q
  end.

(** [x > y] *)
Definition gt (x y : number) : bool := lt y x.

(** [x >= y] *)
Definition ge (x y : number) : bool :=
  match x, y with
  | NaN, _ | _, NaN => false
  | _, _ => negb (lt x y)
  end.

(** [x == 0] on numbers. *)
Definition isZero (x : number) : bool :=
  match x with Fin p => Qc_eqb p 0%Qc | _ => false end.

(** ToBoolean on a number: [0] and [NaN] are falsy. *)
Definition truthy (x : number) : bool :=
  match x with
  | NaN => false
  | Fin p => negb (Qc_eqb p 0%Qc)
  | _ => true
  end.

(** [x || 0] *)
Definition orZero (x : number) : number :=
  if truthy x then x else zero.

(** ** Binary64 *)

(** [2^k] *)
Definition pow2 (k : Z) : Q := Qpower (2 # 1) k.

(** For [q > 0]: the [k] with [2^k <= q < 2^(k+1)]. *)
Definition floorLog2 (q : Q) : Z :=
  let k := Z.log2 (Qnum q) - Z.log2 (Zpos (Qden q)) in
  if Qle_bool (pow2 k) q then k else k - 1.

(** The integer nearest to [q], the even one at a tie. *)
Definition roundHalfEven (q : Q) : Z :=
  let f := Qfloor q in
  match Qcompare (q - inject_Z f)%Q (1 # 2) with
  | Lt => f
  | Gt => f + 1
  | Eq => if Z.even f then f else f + 1
  end.

(** The binary64 value nearest to [q], the one with the even significand
    at a tie: 53 bits of significand, units in the last place from
    [2^-1074] to [2^971], an infinity from [2^1024] on. *)
Definition round64 (q : Q) : number :=
  if Qeq_bool q (0 # 1) then zero
  else
    let a := Qabs q in
    let e := Z.max (floorLog2 a - 52) (-1074) in
    let m := roundHalfEven (a / pow2 e)%Q in
    let v := (inject_Z m * pow2 e)%Q in
    if Qle_bool (pow2 1024) v
    then (if Qle_bool (0 # 1) q then PosInf else NegInf)
    else Fin (Q2Qc (if Qle_bool (0 # 1) q then v else (- v)%Q)).

Definition rounded (x : number) : number :=
  match x with
  | Fin q => round64 (this q)
  | _ => x
  end.

(** [x + y], [x * y] and [x / y] in binary64: the exact result, rounded. *)
Definition add64 (x y : number) : number := rounded (add x y).
Definition mul64 (x y : number) : number := rounded (mul x y).
Definition div64 (x y : number) : number := rounded (div x y).

(** The value of a primitive binary64 float, for comparing [round64] with
    the arithmetic of the machine. *)
Definition ofFloat (f : PrimFloat.float) : number :=
  match FloatOps.Prim2SF f with
  | SpecFloat.S754_zero _ => zero
  | SpecFloat.S754_infinity s => if s then NegInf else PosInf
  | SpecFloat.S754_nan => NaN
  | SpecFloat.S754_finite s m e =>
      Fin (Q2Qc (inject_Z (if s then Zneg m else Zpos m) * pow2 e)%Q)
  end.

(** ** Strings and the conversion of a string to a number *)

Definition chars (s : string) : list ascii := list_ascii_of_string s.
Definition text (l : list ascii) : string := string_of_list_ascii l.

Definition code (c : ascii) : Z := Z.of_N (N_of_ascii c).

(** StrWhiteSpaceChar among the code units below 256: TAB, LF, VT, FF, CR,
    SP and NBSP. *)
Definition isWhiteSpace (c : ascii) : bool :=
  let n := code c in
  ((9 <=? n) && (n <=? 13)) || (n =? 32) || (n =? 160).

Fixpoint dropWhile {A : Type} (p : A -> bool) (l : list A) : list A :=
  match l with
  | [] => []
  | x :: r => if p x then dropWhile p r else l
  end.

(** The longest prefix of [l] whose elements satisfy [p], and the rest. *)
Fixpoint span {A : Type} (p : A -> bool) (l : list A) : list A * list A :=
  match l with
  | [] => ([], [])
  | x :: r => if p x then let (pre, rest) := span p r in (x :: pre, rest) else ([], l)
  end.

(** [String.prototype.trim] on the code units. *)
Definition trimChars (l : list ascii) : list ascii :=
  rev (dropWhile isWhiteSpace (rev (dropWhile isWhiteSpace l))).

Definition trim (s : string) : string := text (trimChars (chars s)).

(** The character with the code unit [k]. *)
Definition isChar (k : Z) (c : ascii) : bool := code c =? k.

Definition digitValue (c : ascii) : option Z :=
  let n := code c in
  if (48 <=? n) && (n <=? 57) then Some (n - 48)
  else if (97 <=? n) && (n <=? 102) then Some (n - 87)
  else if (65 <=? n) && (n <=? 70) then Some (n - 55)
  else None.

Definition isDigitIn (radix : Z) (c : ascii) : bool :=
  match digitValue c with
  | Some d => d <? radix
  | None => false
  end.

Definition digitOf (c : ascii) : Z :=
  match digitValue c with Some d => d | None => 0 end.

Definition digitsValue (radix : Z) (ds : list ascii) : Z :=
  fold_left (fun acc c => acc * radix + digitOf c) ds 0.

Definition nonEmpty {A : Type} (l : list A) : bool :=
  match l with [] => false | _ :: _ => true end.

(** A non-empty run of digits in [radix] that is the whole text. *)
Definition allDigits (radix : Z) (l : list ascii) : option Z :=
  if nonEmpty l && forallb (isDigitIn radix) l
  then Some (digitsValue radix l)
  else None.

(** SignedInteger, to the end of the text. *)
Definition parseSignedInteger (l : list ascii) : option Z :=
  match l with
  | [] => None
  | c :: r =>
      if isChar 43 c then allDigits 10 r
      else if isChar 45 c then option_map Z.opp (allDigits 10 r)
      else allDigits 10 l
  end.

Definition isExponentIndicator (c : ascii) : bool := isChar 101 c || isChar 69 c.

(** An optional ExponentPart, to the end of the text: the exponent, 0 when
    the part is absent. *)
Definition parseExponent (l : list ascii) : option Z :=
  match l with
  | [] => Some 0
  | c :: r => if isExponentIndicator c then parseSignedInteger r else None
  end.

(** The value [m * 10^k]. *)
Definition scale10 (m k : Z) : Q :=
  if 0 <=? k then inject_Z (m * 10 ^ k)
  else Qmake m (Z.to_pos (10 ^ (- k))).

(** The text after a leading decimal point, when there is one. *)
Definition afterDot (l : list ascii) : option (list ascii) :=
  match l with
  | c :: r => if isChar 46 c then Some r else None
  | [] => None
  end.

(** StrUnsignedDecimalLiteral other than [Infinity], to the end of the text:
    digits, then an optional point and digits, with a digit on one side of
    the point at least, then an optional exponent. *)
Definition parseUnsignedDecimal (l : list ascii) : option Q :=
  let (ip, r1) := span (isDigitIn 10) l in
  match afterDot r1 with
  | Some r =>
      let (fp, r2) := span (isDigitIn 10) r in
      if nonEmpty ip || nonEmpty fp
      then option_map
             (fun e => scale10 (digitsValue 10 (ip ++ fp)%list) (e - Z.of_nat (List.length fp)))
             (parseExponent r2)
      else None
  | None =>
      if nonEmpty ip
      then option_map (fun e => scale10 (digitsValue 10 ip) e) (parseExponent r1)
      else None
  end.

Definition parseUnsigned (l : list ascii) : number :=
  if list_eq_dec ascii_dec l (chars "Infinity") then PosInf
  else match parseUnsignedDecimal l with
       | Some q => ofQ q
       | None => NaN
       end.

(** StrDecimalLiteral *)
Definition parseDecimal (l : list ascii) : number :=
  match l with
  | [] => NaN
  | c :: r =>
      if isChar 43 c then parseUnsigned r
      else if isChar 45 c then neg (parseUnsigned r)
      else parseUnsigned l
  end.

Definition parseRadix (radix : Z) (l : list ascii) : number :=
  match allDigits radix l with
  | Some v => ofZ v
  | None => NaN
  end.

(** The radix a letter after a leading [0] announces: [b], [o] or [x], in
    either case. *)
Definition radixOf (c : ascii) : option Z :=
  if isChar 120 c || isChar 88 c then Some 16
  else if isChar 111 c || isChar 79 c then Some 8
  else if isChar 98 c || isChar 66 c then Some 2
  else None.

(** StrNumericLiteral: a decimal literal, or an unsigned binary, octal or
    hexadecimal integer literal. *)
Definition parseNumeric (l : list ascii) : number :=
  match l with
  | z :: c :: ds =>
      match (if isChar 48 z then radixOf c else None) with
      | Some radix => parseRadix radix ds
      | None => parseDecimal l
      end
  | _ => parseDecimal l
  end.

(** StringToNumber: white space around the literal is ignored, the empty
    text is [0], a text that is not a StrNumericLiteral is [NaN]. *)
Definition StringToNumber (s : string) : number :=
  match trimChars (chars s) with
  | [] => zero
  | l => parseNumeric l
  end.

(** ** Values of a raw field *)

Inductive value : Type :=
| VUndefined
| VNum (n : number)
| VStr (s : string).

(** [Number(v)] *)
Definition Number (v : value) : number :=
  match v with
  | VUndefined => NaN
  | VNum n => n
  | VStr s => StringToNumber s
  end.

(** Equality test on numbers, for evaluating examples. *)
Definition number_eqb (x y : number) : bool :=
  match x, y with
  | NaN, NaN | PosInf, PosInf | NegInf, NegInf => true
  | Fin p, Fin q => Qc_eqb p q
  | _, _ => false
  end.

(** ** Plain objects used as dictionaries *)

(** The own properties of an object, in creation order. *)
Definition obj (V : Type) : Type := list (string * V).

(** The own property [k] of [o], when it has one. *)
Fixpoint get {V : Type} (o : obj V) (k : string) : option V :=
  match o with
  | [] => None
  | (k', v) :: r => if String.eqb k k' then Some v else get r k
  end.

(** The own property [k] of [o] set to [v]: an existing property keeps its
    place, a new one is created last. *)
Fixpoint set {V : Type} (o : obj V) (k : string) (v : V) : obj V :=
  match o with
  | [] => [(k, v)]
  | (k', v') :: r =>
      if String.eqb k k' then (k', v) :: r else (k', v') :: set r k v
  end.

(** The property names of [Object.prototype], which every object created by
    [{}] inherits: its methods and the accessor [__proto__]. *)
Definition inheritedNames : list string :=
  [ "constructor"; "hasOwnProperty"; "isPrototypeOf"; "propertyIsEnumerable";
    "toLocaleString"; "toString"; "valueOf"; "__proto__";
    "__defineGetter__"; "__defineSetter__"; "__lookupGetter__"; "__lookupSetter__" ]%string.

Definition isInherited (k : string) : bool := existsb (String.eqb k) inheritedNames.

(** What [o[k]] finds: an own property, else a member inherited from
    [Object.prototype] (a function, or the prototype itself for
    [__proto__]), else nothing ([undefined]). *)
Inductive property (V : Type) : Type :=
| Own (v : V)
| Inherited
| Absent.

Arguments Own {V} v.
Arguments Inherited {V}.
Arguments Absent {V}.

(** [o[k]] *)
Definition lookup {V : Type} (o : obj V) (k : string) : property V :=
  match get o k with
  | Some v => Own v
  | None => if isInherited k then Inherited else Absent
  end.

(** [o[k] = v]: the own property [k] is set, except that the name
    [__proto__] reaches the inherited accessor, which creates no own
    property. *)
Definition assign {V : Type} (o : obj V) (k : string) (v : V) : obj V :=
  if String.eqb k "__proto__" then o else set o k v.

(** An array index: the canonical decimal text of an integer in
    [0, 2^32 - 2]. *)
Definition arrayIndex (k : string) : option Z :=
  match chars k with
  | [] => None
  | c :: r =>
      if (code c =? 48) && negb (Nat.eqb (List.length r) 0) then None
      else match allDigits 10 (c :: r) with
           | Some n => if n <? 2 ^ 32 - 1 then Some n else None
           | None => None
           end
  end.

Fixpoint insertSorted {A : Type} (i : Z) (a : A) (l : list (Z * A)) : list (Z * A) :=
  match l with
  | [] => [(i, a)]
  | (j, b) :: r => if i <=? j then (i, a) :: l else (j, b) :: insertSorted i a r
  end.

Fixpoint integerKeyed {V : Type} (o : obj V) : list (Z * (string * V)) :=
  match o with
  | [] => []
  | (k, v) :: r =>
      match arrayIndex k with
      | Some i => insertSorted i (k, v) (integerKeyed r)
      | None => integerKeyed r
      end
  end.

Definition isStringKey {V : Type} (e : string * V) : bool :=
  match arrayIndex (fst e) with Some _ => false | None => true end.

(** [Object.entries(o)]: array-index keys in ascending numeric order, then
    the other keys in creation order. *)
Definition Object_entries {V : Type} (o : obj V) : list (string * V) :=
  map snd (integerKeyed o) ++ filter isStringKey o.

(** [Object.keys(o)] *)
Definition Object_keys {V : Type} (o : obj V) : list string :=
  map fst (Object_entries o).

(** [arr.reduce(f)] without initial value. *)
Definition reduce1 {A : Type} (f : A -> A -> A) (l : list A) : result A :=
  match l with
  | [] => Throw TypeError
  | x :: r => Ok (fold_left f r x)
  end.

(** [[...new Set(l)]]: the distinct elements in order of first occurrence. *)
Fixpoint distinct (l : list string) : list string :=
  match l with
  | [] => []
  | x :: r => x :: filter (fun y => negb (String.eqb y x)) (distinct r)
  end.

(** ** Dates *)

(** A Date object: its time value in milliseconds since the epoch, or the
    invalid date, whose time value is [NaN]. *)
Inductive Date : Type :=
| InvalidDate
| TimeValue (t : Z).

Definition msPerDay : Z := 86400000.

(** Year, month and day of the month of a day number counted from the epoch
    (proleptic Gregorian calendar). *)
Definition civilFromDays (day : Z) : Z * Z * Z :=
  let z := day + 719468 in
  let era := z / 146097 in
  let doe := z - era * 146097 in
  let yoe := (doe - doe / 1460 + doe / 36524 - doe / 146096) / 365 in
  let doy := doe - (365 * yoe + yoe / 4 - yoe / 100) in
  let mp := (5 * doy + 2) / 153 in
  let d := doy - (153 * mp + 2) / 5 + 1 in
  let m := if mp <? 10 then mp + 3 else mp - 9 in
  let y := yoe + era * 400 in
  (if m <=? 2 then y + 1 else y, m, d).

Definition digitChar (d : Z) : ascii := ascii_of_N (Z.to_N (48 + d)).

(** The last [n] decimal digits of [k], zero padded. *)
Fixpoint padDigits (n : nat) (k : Z) : list ascii :=
  match n with
  | O => []
  | S n' => padDigits n' (k / 10) ++ [digitChar (k mod 10)]
  end.

Definition isoYear (y : Z) : list ascii :=
  if (0 <=? y) && (y <=? 9999) then padDigits 4 y
  else (if y <? 0 then "-"%char else "+"%char) :: padDigits 6 (Z.abs y).

(** The text [YYYY-MM-DDTHH:mm:ss.sssZ] of a time value. *)
Definition isoChars (t : Z) : list ascii :=
  let '(y, m, d) := civilFromDays (t / msPerDay) in
  let ms := t mod msPerDay in
  isoYear y ++ "-"%char :: padDigits 2 m ++ "-"%char :: padDigits 2 d
  ++ "T"%char :: padDigits 2 (ms / 3600000)
  ++ ":"%char :: padDigits 2 (ms / 60000 mod 60)
  ++ ":"%char :: padDigits 2 (ms / 1000 mod 60)
  ++ "."%char :: padDigits 3 (ms mod 1000) ++ ["Z"%char].

(** [d.toISOString()] *)
Definition toISOString (d : Date) : result string :=
  match d with
  | InvalidDate => Throw RangeError
  | TimeValue t => Ok (text (isoChars t))
  end.

(** [s.slice(0, n)] *)
Definition slice0 (n : nat) (s : string) : string := substring 0 n s.

(** [arr.forEach] with a callback that may throw, threading the state the
    callback mutates. *)
Fixpoint forEach {A S : Type} (f : S -> A -> result S) (l : list A) (s : S) : result S :=
  match l with
  | [] => Ok s
  | x :: r => s' <- f s x ;; forEach f r s'
  end.

(** ** Data model *)

(** [EngagementData]: a row as ingested. *)
Record EngagementData : Type := {
  rawTrackingDateFormatted : string;
  rawInvites : value;
  rawClicks : value;
  rawPlays : value;
  rawPlayTimeMin : value;
  rawAutomationStage : string;
  rawCommunity : string
}.

(** [ProcessedData] *)
Record ProcessedData : Type := {
  TrackingDateFormatted : Date;
  Invites : number;
  Clicks : number;
  Plays : number;
  PlayTimeMin : number;
  AutomationStage : string;
  Community : string
}.

Module StageMetrics.
Record t : Type := {
  invites : number;
  clicks : number;
  plays : number;
  playTime : number;
  count : number;
  avgPlayTime : option number   (* [avgPlayTime?: number] *)
}.
End StageMetrics.

Record CommunityMetrics : Type := {
  totalInvites : number;
  totalClicks : number;
  totalPlays : number;
  totalPlayTime : number;
  clickRate : number;
  playRate : number;
  avgPlayTime : number;
  stageBreakdown : obj StageMetrics.t
}.

Record Strategy : Type := {
  focus : string;
  actions : list string
}.

Record CommunityInsight : Type := {
  metrics : CommunityMetrics;
  insights : list string
}.

Record AnalysisResult : Type := {
  communityInsights : obj CommunityInsight;
  followUpStrategies : obj (list Strategy);
  monthlyTrends : obj StageMetrics.t;
  analysisDate : string
}.

(** The fields of a [VideoEngagementAnalyzer] instance. *)
Record VideoEngagementAnalyzer : Type := {
  rawData : list EngagementData;
  processedData : list ProcessedData
}.

(** ** The CSV field coercion of [parseCSV] *)

(** [isNaN(Number(values[i])) ? values[i] : Number(values[i])], where
    [values[i]] is [undefined] past the end of a short line. *)
Definition coerceField (v : option string) : value :=
  match v with
  | None => VUndefined
  | Some s => if isNaN (Number (VStr s)) then VStr s else VNum (Number (VStr s))
  end.

(** The strip step of a field: [trim], then every double quote (code unit
    34) removed. *)
Definition strip (s : string) : string :=
  text (filter (fun c => negb (code c =? 34)) (trimChars (chars s))).

(** [l.split(sep)] on code units, for the one-character separator with the
    code unit [sep]. *)
Fixpoint splitChars (sep : Z) (l : list ascii) : list (list ascii) :=
  match l with
  | [] => [[]]
  | c :: r =>
      if isChar sep c then [] :: splitChars sep r
      else match splitChars sep r with
           | w :: ws => (c :: w) :: ws
           | [] => [[c]]
           end
  end.

Definition split (sep : Z) (s : string) : list string :=
  map text (splitChars sep (chars s)).

(** The row [headers.reduce(...)] builds for a line, in both copies of
    [parseCSV]: the fields of the line, split at the commas and stripped, are
    stored under the header of the same position, coerced. *)
Definition parseLine (headers : list string) (line : string) : obj value :=
  let values := map strip (split 44 line) in
  fold_left
    (fun obj ih => assign obj (snd ih) (coerceField (nth_error values (fst ih))))
    (combine (seq 0 (List.length headers)) headers) [].

(** [parseCSV] inside [handleFileUpload]: the first line holds the headers,
    every later line that is not blank is a row, returned as the headers
    shape it ([return row as EngagementData]). *)
Definition parseCSV (contents : string) : list (obj value) :=
  let lines := split 10 contents in
  let headers := map strip (split 44 (hd EmptyString lines)) in
  map (parseLine headers)
      (filter (fun line => nonEmpty (chars (trim line))) (tl lines)).

(** [parseCSV] of VideoEngagementUI.tsx: the same reading of the text; the
    row of a line is then rebuilt with the seven fields of [EngagementData],
    each read off the row the headers shape. *)
Module VideoEngagementUI.

Record Row : Type := {
  trackingDateFormatted : value;
  invites : value;
  clicks : value;
  plays : value;
  playTimeMin : value;
  automationStage : value;
  community : value
}.

(** [row[k]] as a field value: the own property, [undefined] when there is
    none.  ([Object.prototype] has none of the seven names read below, so the
    inherited case does not arise for them.) *)
Definition field (row : obj value) (k : string) : value :=
  match lookup row k with
  | Own v => v
  | Inherited | Absent => VUndefined
  end.

Definition typed (row : obj value) : Row :=
  {| trackingDateFormatted := field row "Tracking Date Formatted";
     invites := field row "Invites";
     clicks := field row "Clicks";
     plays := field row "Plays";
     playTimeMin := field row "Play Time (Min)";
     automationStage := field row "Automation Stage";
     community := field row "Community" |}.

Definition parseCSV (contents : string) : list Row :=
  let lines := split 10 contents in
  let headers := map strip (split 44 (hd EmptyString lines)) in
  map (fun line => typed (parseLine headers line))
      (filter (fun line => nonEmpty (chars (trim line))) (tl lines)).

End VideoEngagementUI.

(** ** The analyzer *)

Definition newMetrics : StageMetrics.t :=
  {| StageMetrics.invites := zero;
     StageMetrics.clicks := zero;
     StageMetrics.plays := zero;
     StageMetrics.playTime := zero;
     StageMetrics.count := zero;
     StageMetrics.avgPlayTime := None |}.

(** The five updates [stage.invites += row['Invites']; ...; stage.count++]. *)
Definition accumulate (stage : StageMetrics.t) (row : ProcessedData) : StageMetrics.t :=
  {| StageMetrics.invites := add (StageMetrics.invites stage) (Invites row);
     StageMetrics.clicks := add (StageMetrics.clicks stage) (Clicks row);
     StageMetrics.plays := add (StageMetrics.plays stage) (Plays row);
     StageMetrics.playTime := add (StageMetrics.playTime stage) (PlayTimeMin row);
     StageMetrics.count := add (StageMetrics.count stage) one;
     StageMetrics.avgPlayTime := StageMetrics.avgPlayTime stage |}.

(** The body of the grouping loops: [if (!stages[key]) stages[key] = {...}],
    then the five updates on [stages[key]].  An own bucket is updated in
    place.  When [key] names an inherited member, [stages[key]] is that
    member: it is truthy, so no bucket is created, and the updates write
    on the member ([undefined + x] is [NaN]), not on [stages]. *)
Definition addRow (key : string) (stages : obj StageMetrics.t) (row : ProcessedData)
  : obj StageMetrics.t :=
  let stages :=
    match lookup stages key with
    | Absent => assign stages key newMetrics
    | Own _ | Inherited => stages
    end in
  match lookup stages key with
  | Own stage => set stages key (accumulate stage row)
  | Inherited | Absent => stages
  end.

(** [d.avgPlayTime = d.plays ? d.playTime / d.plays : 0] *)
Definition setAverage (d : StageMetrics.t) : StageMetrics.t :=
  {| StageMetrics.invites := StageMetrics.invites d;
     StageMetrics.clicks := StageMetrics.clicks d;
     StageMetrics.plays := StageMetrics.plays d;
     StageMetrics.playTime := StageMetrics.playTime d;
     StageMetrics.count := StageMetrics.count d;
     StageMetrics.avgPlayTime :=
       Some (if truthy (StageMetrics.plays d)
             then div (StageMetrics.playTime d) (StageMetrics.plays d)
             else zero) |}.

(** [Object.keys(o).forEach(k => { const d = o[k]; d.avgPlayTime = ... })]:
    every [k] is an own key, so [o[k]] is the own property. *)
Definition averageAll (o : obj StageMetrics.t) : obj StageMetrics.t :=
  fold_left
    (fun o k => match get o k with
                | Some d => set o k (setAverage d)
                | None => o
                end)
    (Object_keys o) o.

Definition calculateStageBreakdown (data : list ProcessedData) : obj StageMetrics.t :=
  let stages :=
    fold_left (fun stages row => addRow (AutomationStage row) stages row) data [] in
  averageAll stages.

(** [data.reduce((sum, row) => sum + f(row), 0)] *)
Definition sumOf {A : Type} (f : A -> number) (data : list A) : number :=
  fold_left (fun sum row => add sum (f row)) data zero.

Definition calculateCommunityMetrics (communityData : list ProcessedData) : CommunityMetrics :=
  let totalInvites := sumOf Invites communityData in
  let totalClicks := sumOf Clicks communityData in
  let totalPlays := sumOf Plays communityData in
  let totalPlayTime := sumOf PlayTimeMin communityData in
  let stageBreakdown := calculateStageBreakdown communityData in
  {| totalInvites := totalInvites;
     totalClicks := totalClicks;
     totalPlays := totalPlays;
     totalPlayTime := totalPlayTime;
     clickRate :=
       if truthy totalInvites then mul (div totalClicks totalInvites) (ofZ 100) else zero;
     playRate :=
       if truthy totalClicks then mul (div totalPlays totalClicks) (ofZ 100) else zero;
     avgPlayTime :=
       if truthy totalPlays then div totalPlayTime totalPlays else zero;
     stageBreakdown := stageBreakdown |}.

(** ** The metrics over the arithmetic of the host

    [calculateCommunityMetrics] and [calculateStageBreakdown] once more,
    over the operations [plus], [times] and [over] that stand for [+],
    [*] and [/]. *)

Section Host.

Variables plus times over : number -> number -> number.

Definition accumulateWith (stage : StageMetrics.t) (row : ProcessedData) : StageMetrics.t :=
  {| StageMetrics.invites := plus (StageMetrics.invites stage) (Invites row);
     StageMetrics.clicks := plus (StageMetrics.clicks stage) (Clicks row);
     StageMetrics.plays := plus (StageMetrics.plays stage) (Plays row);
     StageMetrics.playTime := plus (StageMetrics.playTime stage) (PlayTimeMin row);
     StageMetrics.count := plus (StageMetrics.count stage) one;
     StageMetrics.avgPlayTime := StageMetrics.avgPlayTime stage |}.

Definition addRowWith (key : string) (stages : obj StageMetrics.t) (row : ProcessedData)
  : obj StageMetrics.t :=
  let stages :=
    match lookup stages key with
    | Absent => assign stages key newMetrics
    | Own _ | Inherited => stages
    end in
  match lookup stages key with
  | Own stage => set stages key (accumulateWith stage row)
  | Inherited | Absent => stages
  end.

Definition setAverageWith (d : StageMetrics.t) : StageMetrics.t :=
  {| StageMetrics.invites := StageMetrics.invites d;
     StageMetrics.clicks := StageMetrics.clicks d;
     StageMetrics.plays := StageMetrics.plays d;
     StageMetrics.playTime := StageMetrics.playTime d;
     StageMetrics.count := StageMetrics.count d;
     StageMetrics.avgPlayTime :=
       Some (if truthy (StageMetrics.plays d)
             then over (StageMetrics.playTime d) (StageMetrics.plays d)
             else zero) |}.

Definition averageAllWith (o : obj StageMetrics.t) : obj StageMetrics.t :=
  fold_left
    (fun o k => match get o k with
                | Some d => set o k (setAverageWith d)
                | None => o
                end)
    (Object_keys o) o.

Definition calculateStageBreakdownWith (data : list ProcessedData) : obj StageMetrics.t :=
  let stages :=
    fold_left (fun stages row => addRowWith (AutomationStage row) stages row) data [] in
  averageAllWith stages.

Definition sumOfWith {A : Type} (f : A -> number) (data : list A) : number :=
  fold_left (fun sum row => plus sum (f row)) data zero.

Definition calculateCommunityMetricsWith (communityData : list ProcessedData)
  : CommunityMetrics :=
  let totalInvites := sumOfWith Invites communityData in
  let totalClicks := sumOfWith Clicks communityData in
  let totalPlays := sumOfWith Plays communityData in
  let totalPlayTime := sumOfWith PlayTimeMin communityData in
  let stageBreakdown := calculateStageBreakdownWith communityData in
  {| totalInvites := totalInvites;
     totalClicks := totalClicks;
     totalPlays := totalPlays;
     totalPlayTime := totalPlayTime;
     clickRate :=
       if truthy totalInvites then times (over totalClicks totalInvites) (ofZ 100) else zero;
     playRate :=
       if truthy totalClicks then times (over totalPlays totalClicks) (ofZ 100) else zero;
     avgPlayTime :=
       if truthy totalPlays then over totalPlayTime totalPlays else zero;
     stageBreakdown := stageBreakdown |}.

End Host.

Definition improveInitialEngagement : Strategy :=
  {| focus := "Improve Initial Engagement";
     actions := [ "A/B test video thumbnail images";
                  "Optimize video titles for clarity and impact";
                  "Send invites during peak engagement hours";
                  "Include personalized preview content in invitations" ] |}%string.

Definition increasePlayRate : Strategy :=
  {| focus := "Increase Play Rate";
     actions := [ "Add social proof elements to landing pages";
                  "Include video duration in preview";
                  "Create stage-specific video content";
                  "Implement one-click play functionality" ] |}%string.

Definition extendWatchTime : Strategy :=
  {| focus := "Extend Watch Time";
     actions := [ "Add chapter markers for longer videos";
                  "Include interactive elements at key dropoff points";
                  "Create shorter, more focused video content";
                  "Add compelling calls-to-action throughout" ] |}%string.

(** [a.push(x)] under a condition. *)
Definition pushIf {A : Type} (c : bool) (x : A) (a : list A) : list A :=
  if c then a ++ [x] else a.

Definition generateStrategies (metrics : CommunityMetrics) : list Strategy :=
  let strategies := [] in
  let strategies := pushIf (lt (clickRate metrics) (ofZ 40)) improveInitialEngagement strategies in
  let strategies := pushIf (lt (playRate metrics) (ofZ 70)) increasePlayRate strategies in
  let strategies := pushIf (lt (avgPlayTime metrics) (ofZ 3)) extendWatchTime strategies in
  strategies.

Section Analyzer.

(** [new Date(text)]: the date [Date.parse] reads in [text], the invalid
    date when it reads none.  Outside the ISO format the reading is left to
    the host. *)
Variable Date_parse : string -> Date.

(** [x.toFixed(1)], which reads the binary representation of [x]. *)
Variable toFixed1 : number -> string.

(** The callback of [data.map] in [preprocessData]. *)
Definition preprocessRow (row : EngagementData) : ProcessedData :=
  {| TrackingDateFormatted := Date_parse (rawTrackingDateFormatted row);
     Invites := orZero (Number (rawInvites row));
     Clicks := orZero (Number (rawClicks row));
     Plays := orZero (Number (rawPlays row));
     PlayTimeMin := orZero (Number (rawPlayTimeMin row));
     AutomationStage := rawAutomationStage row;
     Community := rawCommunity row |}.

Definition preprocessData (data : list EngagementData) : list ProcessedData :=
  map preprocessRow data.

(** [new VideoEngagementAnalyzer(data)] *)
Definition newAnalyzer (data : list EngagementData) : VideoEngagementAnalyzer :=
  {| rawData := data; processedData := preprocessData data |}.

Definition strongMessage (rate : number) : string :=
  "Strong initial engagement with " ++ toFixed1 rate ++ "% click rate".

Definition opportunityMessage (rate : number) : string :=
  "Opportunity to improve initial engagement (" ++ toFixed1 rate ++ "% click rate)".

Definition watchTimeMessage (minutes : number) : string :=
  "Excellent average watch time of " ++ toFixed1 minutes ++ " minutes".

Definition strongestMessage (stage : string) : string :=
  "Strongest performance in " ++ stage ++ " stage".

Definition betterStage (best current : string * StageMetrics.t) : string * StageMetrics.t :=
  if gt (StageMetrics.plays (snd current)) (StageMetrics.plays (snd best))
  then current else best.

Definition generateInsights (metrics : CommunityMetrics) : result (list string) :=
  let insights := [] in
  let insights :=
    if gt (clickRate metrics) (ofZ 50)
    then insights ++ [strongMessage (clickRate metrics)]
    else if lt (clickRate metrics) (ofZ 30)
         then insights ++ [opportunityMessage (clickRate metrics)]
         else insights in
  let insights :=
    pushIf (gt (avgPlayTime metrics) (ofZ 5)) (watchTimeMessage (avgPlayTime metrics)) insights in
  let stages := Object_entries (stageBreakdown metrics) in
  bestStage <- reduce1 betterStage stages ;;
  Ok (insights ++ [strongestMessage (fst bestStage)]).

Definition calculateMonthlyTrends (this : VideoEngagementAnalyzer)
  : result (obj StageMetrics.t) :=
  monthlyData <-
    forEach (fun monthlyData row =>
               iso <- toISOString (TrackingDateFormatted row) ;;
               let monthKey := slice0 7 iso in
               Ok (addRow monthKey monthlyData row))
            (processedData this) [] ;;
  Ok (averageAll monthlyData).

(** [analyze()], run when the clock reads the time value [now]. *)
Definition analyze (now : Z) (this : VideoEngagementAnalyzer) : result AnalysisResult :=
  let communities := distinct (map Community (processedData this)) in
  trends <- calculateMonthlyTrends this ;;
  today <- toISOString (TimeValue now) ;;
  let analysis :=
    {| communityInsights := [];
       followUpStrategies := [];
       monthlyTrends := trends;
       analysisDate := slice0 10 today |} in
  forEach (fun analysis community =>
             let communityData :=
               filter (fun row => String.eqb (Community row) community)
                      (processedData this) in
             let metrics := calculateCommunityMetrics communityData in
             insights <- generateInsights metrics ;;
             Ok {| communityInsights :=
                     assign (communityInsights analysis) community
                            {| metrics := metrics; insights := insights |};
                   followUpStrategies :=
                     assign (followUpStrategies analysis) community
                            (generateStrategies metrics);
                   monthlyTrends := monthlyTrends analysis;
                   analysisDate := analysisDate analysis |})
          communities analysis.

End Analyzer.

(** ** Instances of the two parameters, for evaluating examples *)

Definition isLeapYear (y : Z) : bool :=
  ((y mod 4 =? 0) && negb (y mod 100 =? 0)) || (y mod 400 =? 0).

Definition daysInMonth (y m : Z) : Z :=
  if m =? 2 then (if isLeapYear y then 29 else 28)
  else if (m =? 4) || (m =? 6) || (m =? 9) || (m =? 11) then 30 else 31.

(** The day number of a calendar date, counted from the epoch. *)
Definition daysFromCivil (y m d : Z) : Z :=
  let y := if m <=? 2 then y - 1 else y in
  let era := y / 400 in
  let yoe := y - era * 400 in
  let mp := if 2 <? m then m - 3 else m + 9 in
  let doy := (153 * mp + 2) / 5 + d - 1 in
  let doe := yoe * 365 + yoe / 4 - yoe / 100 + doy in
  era * 146097 + doe - 719468.

(** A reading of [new Date(text)] that knows the date-only ISO form
    [YYYY-MM-DD] of a calendar date, at midnight UTC, and nothing else. *)
Definition Date_parse_iso (s : string) : Date :=
  match chars s with
  | [y1; y2; y3; y4; "-"%char; m1; m2; "-"%char; d1; d2] =>
      match allDigits 10 [y1; y2; y3; y4], allDigits 10 [m1; m2], allDigits 10 [d1; d2] with
      | Some y, Some m, Some d =>
          if (1 <=? m) && (m <=? 12) && (1 <=? d) && (d <=? daysInMonth y m)
          then TimeValue (daysFromCivil y m d * msPerDay)
          else InvalidDate
      | _, _, _ => InvalidDate
      end
  | _ => InvalidDate
  end.

Fixpoint dropZeros (l : list ascii) : list ascii :=
  match l with
  | c :: (_ :: _) as r => if code c =? 48 then dropZeros r else l
  | _ => l
  end.

(** [x.toFixed(1)] read on the exact value: the nearest multiple of one
    tenth, the larger one at a tie, for magnitudes below 10^21. *)
Definition toFixed1_exact (x : number) : string :=
  match x with
  | NaN => "NaN"
  | PosInf => "Infinity"
  | NegInf => "-Infinity"
  | Fin q =>
      let a := Qabs (this q) in
      let n := Qfloor (a * inject_Z 10 + (1 # 2)) in
      ((if Qc_ltb q 0%Qc then "-" else "")
       ++ text (dropZeros (padDigits (S (Z.to_nat (Z.log2 (n / 10)))) (n / 10)))
       ++ "." ++ text [digitChar (n mod 10)])%string
  end.

(** ** Vocabulary of the statements *)

(** What [Number(raw) || 0] makes of the source value [raw]: the number
    [Number(raw)], and [0] in its place when it is [NaN], that is, when the
    coercion fails or the source value is absent. *)
Definition coerced (raw : value) (x : number) : Prop :=
  x = (if isNaN (Number raw) then zero else Number raw).

(** The integer part of a finite number. *)
Definition toZ (x : number) : Z :=
  match x with
  | Fin q => Qfloor (this q)
  | _ => 0
  end.

(** A count: an integer that is not negative. *)
Definition isCount (x : number) : Prop := 0 <= toZ x /\ x = ofZ (toZ x).

(** The sum of the integer parts of [f] over [l]. *)
Definition totalOf {A : Type} (f : A -> number) (l : list A) : Z :=
  fold_right (fun x acc => toZ (f x) + acc) 0 l.

(** The values of [f] over [l] are counts whose total is below [2^53]: every
    sum of some of them is an integer that binary64 holds exactly. *)
Definition safeCounts {A : Type} (f : A -> number) (l : list A) : Prop :=
  Forall (fun x => isCount (f x)) l /\ totalOf f l < 2 ^ 53.

(** An addition that is exact on counts whose sum is below [2^53], as the
    addition of binary64 is ([add64]). *)
Definition exactOnCounts (plus : number -> number -> number) : Prop :=
  forall a b, 0 <= a -> 0 <= b -> a + b < 2 ^ 53 -> plus (ofZ a) (ofZ b) = ofZ (a + b).

(** The primitive float [m * 2^e]. *)
Definition binary64 (m : positive) (e : Z) : PrimFloat.float :=
  FloatOps.SF2Prim (SpecFloat.S754_finite false m e).

(** Pairs of binary64 values: 0.1 and 0.2, 0.1 and 1.1, 1e308 twice (the sum
    overflows), the largest value and 1e292 (the sum rounds to an infinity
    at the tie), the smallest subnormal twice, 1e-320 and the smallest
    subnormal, 2^53 and 1, 2^53 and 3 (ties), 1 and 3, 123456789.123 and
    1e-17, 2.5e-308 and 7. *)
Definition binary64Samples : list (PrimFloat.float * PrimFloat.float) :=
  [ (binary64 7205759403792794 (-56), binary64 7205759403792794 (-55));
    (binary64 7205759403792794 (-56), binary64 4953959590107546 (-52));
    (binary64 5010420900022432 971, binary64 5010420900022432 971);
    (binary64 9007199254740991 971, binary64 4512985939662074 918);
    (binary64 1 (-1074), binary64 1 (-1074));
    (binary64 2024 (-1074), binary64 1 (-1074));
    (binary64 4503599627370496 1, binary64 4503599627370496 (-52));
    (binary64 4503599627370496 1, binary64 6755399441055744 (-51));
    (binary64 4503599627370496 (-52), binary64 6755399441055744 (-51));
    (binary64 8285044871132086 (-26), binary64 6490371073168535 (-109));
    (binary64 5060056332682765 (-1074), binary64 7881299347898368 (-50)) ].

(** A processed row of community A. *)
Definition processedRow (stage : string) (i c p t : number) : ProcessedData :=
  {| TrackingDateFormatted := TimeValue 0; Invites := i; Clicks := c;
     Plays := p; PlayTimeMin := t;
     AutomationStage := stage; Community := "A" |}.

(** Three rows of two stages whose play times are the binary64 values
    nearest to 0.1, 0.1 and 1.1. *)
Definition fractionalPlayTimes : list ProcessedData :=
  [ processedRow "intro" (ofZ 10) (ofZ 5) (ofZ 1) (round64 (1 # 10));
    processedRow "follow-up" (ofZ 10) (ofZ 5) (ofZ 1) (round64 (1 # 10));
    processedRow "intro" (ofZ 10) (ofZ 5) (ofZ 1) (round64 (11 # 10)) ]%string.

(** Two stages; the plays of the first, an infinite count and a negative
    infinite one, add up to [NaN]. *)
Definition nanPlays : list ProcessedData :=
  [ processedRow "intro" (ofZ 10) (ofZ 0) PosInf (ofZ 1);
    processedRow "intro" (ofZ 10) (ofZ 0) NegInf (ofZ 1);
    processedRow "follow-up" (ofZ 10) (ofZ 0) (ofZ 5) (ofZ 1) ]%string.

(** A row whose stage is named like a member of [Object.prototype]. *)
Definition inheritedStage : list ProcessedData :=
  [ processedRow "constructor" (ofZ 100) (ofZ 60) (ofZ 40) (ofZ 200) ]%string.

(** Every community of the input has a record whose stage names no member
    inherited from [Object.prototype]. *)
Definition stagedCommunities (data : list EngagementData) : Prop :=
  forall row, In row data ->
    exists row', In row' data
                 /\ rawCommunity row' = rawCommunity row
                 /\ isInherited (rawAutomationStage row') = false.

(** A number the specification's invariant accepts: finite and not
    negative. *)
Definition finiteNonNegative (x : number) : bool :=
  isFinite x && negb (lt x zero).

Definition exampleRow (date : string) (i c p t : value) (stage community : string)
  : EngagementData :=
  {| rawTrackingDateFormatted := date;
     rawInvites := i; rawClicks := c; rawPlays := p; rawPlayTimeMin := t;
     rawAutomationStage := stage; rawCommunity := community |}.

(** Three rows of community A in two stages, every field a count. *)
Definition countRows : list EngagementData :=
  [ exampleRow "2024-01-01" (VNum (ofZ 100)) (VNum (ofZ 60)) (VNum (ofZ 40))
               (VNum (ofZ 200)) "intro" "A";
    exampleRow "2024-01-02" (VNum (ofZ 50)) (VNum (ofZ 20)) (VNum (ofZ 10))
               (VNum (ofZ 30)) "follow-up" "A";
    exampleRow "2024-02-01" (VNum (ofZ 70)) (VNum (ofZ 35)) (VNum (ofZ 5))
               (VNum (ofZ 15)) "intro" "A" ]%string.

(** The strategies of [l] that carry the focus label [label]. *)
Definition withFocus (label : string) (l : list Strategy) : list Strategy :=
  filter (fun s => String.eqb (focus s) label) l.

Definition ruleOutput (c : bool) (s : Strategy) : list Strategy :=
  if c then [s] else [].

(** A CommunityMetrics value with the given rates and stage breakdown. *)
Definition metricsOf (click play avg : number) (stages : obj StageMetrics.t)
  : CommunityMetrics :=
  {| totalInvites := zero; totalClicks := zero; totalPlays := zero;
     totalPlayTime := zero;
     clickRate := click; playRate := play; avgPlayTime := avg;
     stageBreakdown := stages |}.

(** The sum of [g] over the values of an object. *)
Definition sumValues {V : Type} (g : V -> number) (o : obj V) : number :=
  sumOf (fun e => g (snd e)) o.

(** [f] applied to every value of an object. *)
Definition mapValues {V : Type} (f : V -> V) (o : obj V) : obj V :=
  map (fun e => (fst e, f (snd e))) o.

(** [o[k] = f(o[k])] when [o] has the key [k]. *)
Definition updateAt {V : Type} (f : V -> V) (o : obj V) (k : string) : obj V :=
  match get o k with
  | Some d => set o k (f d)
  | None => o
  end.

Definition inKeys (ks : list string) (k : string) : bool :=
  existsb (String.eqb k) ks.

(** [f] applied to the values under the keys [ks]. *)
Definition updateKeys {V : Type} (f : V -> V) (ks : list string) (o : obj V) : obj V :=
  map (fun e => if inKeys ks (fst e) then (fst e, f (snd e)) else e) o.

(** [Object.values(o)] *)
Definition Object_values {V : Type} (o : obj V) : list V := map snd (Object_entries o).

(** The guard [den ? ratio : 0]: the ratio unless the denominator is [0] or
    [NaN]. *)
Definition guarded (den ratio : number) : number :=
  if isZero den || isNaN den then zero else ratio.

Definition strongPrefix : string := "Strong initial engagement".
Definition opportunityPrefix : string := "Opportunity to improve initial engagement".
Definition watchTimePrefix : string := "Excellent average watch time".
Definition strongestPrefix : string := "Strongest performance in ".

(** [l] holds a message of the kind that starts with [kind]. *)
Definition emits (kind : string) (l : list string) : Prop :=
  exists s, In s l /\ prefix kind s = true.

(** The number of messages of [l] of the kind that starts with [kind]. *)
Definition countKind (kind : string) (l : list string) : nat :=
  List.length (filter (prefix kind) l).

(** What the click-rate rule pushes. *)
Definition clickInsight (toFixed1 : number -> string) (m : CommunityMetrics) : list string :=
  if gt (clickRate m) (ofZ 50) then [strongMessage toFixed1 (clickRate m)]
  else if lt (clickRate m) (ofZ 30) then [opportunityMessage toFixed1 (clickRate m)]
  else [].

(** What the watch-time rule pushes. *)
Definition watchInsight (toFixed1 : number -> string) (m : CommunityMetrics) : list string :=
  if gt (avgPlayTime m) (ofZ 5) then [watchTimeMessage toFixed1 (avgPlayTime m)] else [].

(** The stage [reduce] keeps: it sits somewhere in the list, no stage has
    strictly more plays, and no stage iterated earlier has as many. *)
Definition playsOf (e : string * StageMetrics.t) : number := StageMetrics.plays (snd e).

Definition isBest (l : list (string * StageMetrics.t)) (best : string * StageMetrics.t) : Prop :=
  exists earlier later,
    l = earlier ++ best :: later
    /\ (forall e, In e l -> gt (playsOf e) (playsOf best) = false)
    /\ (forall e, In e earlier -> ge (playsOf e) (playsOf best) = false).

(** Two stages tie on plays: the earlier one in iteration order is named,
    and iteration puts the array-index key ["1"] before the key ["intro"]
    that was created first. *)
Definition tiedStages : list ProcessedData :=
  [ {| TrackingDateFormatted := TimeValue 0; Invites := ofZ 10; Clicks := ofZ 5;
       Plays := ofZ 4; PlayTimeMin := ofZ 8;
       AutomationStage := "intro"; Community := "A" |};
    {| TrackingDateFormatted := TimeValue 0; Invites := ofZ 10; Clicks := ofZ 5;
       Plays := ofZ 4; PlayTimeMin := ofZ 8;
       AutomationStage := "1"; Community := "A" |} ]%string.

(** The body of the loop of [calculateMonthlyTrends]. *)
Definition monthStep (monthlyData : obj StageMetrics.t) (row : ProcessedData)
  : result (obj StageMetrics.t) :=
  iso <- toISOString (TrackingDateFormatted row) ;;
  Ok (addRow (slice0 7 iso) monthlyData row).

(** The scenario of the specification: one row of community A. *)
Definition scenarioRows : list EngagementData :=
  [exampleRow "2024-01-01" (VNum (ofZ 100)) (VNum (ofZ 60)) (VNum (ofZ 40))
              (VNum (ofZ 200)) "S1" "A"].

(** A small CSV file: a header line, a full row, a blank line, and a short
    row with an empty field and a field that is not numeric. *)
Definition newline : string := String (ascii_of_N 10) EmptyString.

Definition exampleCSV : string :=
  ("Tracking Date Formatted,Invites,Clicks,Plays,Play Time (Min),Automation Stage,Community"
   ++ newline ++ "2024-01-01,100,60,40,200,S1,A"
   ++ newline ++ "   "
   ++ newline ++ "2024-01-02,,x,5"
   ++ newline)%string.

(** *** The texts that are numbers

    The grammar of StringNumericLiteral, on code units. *)

(** DecimalDigits, and the digits of the other radices: a non-empty run of
    digits. *)
Definition digits (radix : Z) (l : list ascii) : Prop :=
  l <> [] /\ Forall (fun c => isDigitIn radix c = true) l.

Definition optional (P : list ascii -> Prop) (l : list ascii) : Prop :=
  l = [] \/ P l.

Inductive SignedInteger : list ascii -> Prop :=
| SI_digits ds : digits 10 ds -> SignedInteger ds
| SI_plus ds : digits 10 ds -> SignedInteger ("+"%char :: ds)
| SI_minus ds : digits 10 ds -> SignedInteger ("-"%char :: ds).

Inductive ExponentPart : list ascii -> Prop :=
| EP_lower si : SignedInteger si -> ExponentPart ("e"%char :: si)
| EP_upper si : SignedInteger si -> ExponentPart ("E"%char :: si).

Inductive StrUnsignedDecimalLiteral : list ascii -> Prop :=
| UDL_Infinity : StrUnsignedDecimalLiteral (chars "Infinity")
| UDL_point ip fp ep :
    digits 10 ip -> optional (digits 10) fp -> optional ExponentPart ep ->
    StrUnsignedDecimalLiteral (ip ++ "."%char :: fp ++ ep)
| UDL_fraction fp ep :
    digits 10 fp -> optional ExponentPart ep ->
    StrUnsignedDecimalLiteral ("."%char :: fp ++ ep)
| UDL_integer ip ep :
    digits 10 ip -> optional ExponentPart ep ->
    StrUnsignedDecimalLiteral (ip ++ ep).

Inductive StrDecimalLiteral : list ascii -> Prop :=
| DL_unsigned l : StrUnsignedDecimalLiteral l -> StrDecimalLiteral l
| DL_plus l : StrUnsignedDecimalLiteral l -> StrDecimalLiteral ("+"%char :: l)
| DL_minus l : StrUnsignedDecimalLiteral l -> StrDecimalLiteral ("-"%char :: l).

Inductive NonDecimalIntegerLiteral : list ascii -> Prop :=
| NDL_binary c ds :
    c = "b"%char \/ c = "B"%char -> digits 2 ds ->
    NonDecimalIntegerLiteral ("0"%char :: c :: ds)
| NDL_octal c ds :
    c = "o"%char \/ c = "O"%char -> digits 8 ds ->
    NonDecimalIntegerLiteral ("0"%char :: c :: ds)
| NDL_hex c ds :
    c = "x"%char \/ c = "X"%char -> digits 16 ds ->
    NonDecimalIntegerLiteral ("0"%char :: c :: ds).

Inductive StrNumericLiteral : list ascii -> Prop :=
| NL_decimal l : StrDecimalLiteral l -> StrNumericLiteral l
| NL_nonDecimal l : NonDecimalIntegerLiteral l -> StrNumericLiteral l.

Definition whiteSpace (l : list ascii) : Prop :=
  Forall (fun c => isWhiteSpace c = true) l.

Definition noWhiteSpace (l : list ascii) : Prop :=
  Forall (fun c => isWhiteSpace c = false) l.

(** StringNumericLiteral: white space, or a numeric literal with white space
    around it. *)
Definition StringNumericLiteral (l : list ascii) : Prop :=
  exists ws1 body ws2,
    l = ws1 ++ body ++ ws2
    /\ whiteSpace ws1 /\ whiteSpace ws2
    /\ optional StrNumericLiteral body.

(** The text [s] parses fully as a number: all of it is a numeric text. *)
Definition parsesAsNumber (s : string) : Prop := StringNumericLiteral (chars s).

(** *** Vocabulary of the further properties *)

(** The rows of one stage, in their order. *)
Definition rowsOf (stage : string) (data : list ProcessedData) : list ProcessedData :=
  filter (fun row => String.eqb (AutomationStage row) stage) data.

(** The bucket a run of rows accumulates into, from a fresh bucket. *)
Definition bucketOf (rows : list ProcessedData) : StageMetrics.t :=
  fold_left accumulate rows newMetrics.

(** The grouping loop [data.forEach(row => ...)] under the key [key]. *)
Definition groupRows (key : ProcessedData -> string) (data : list ProcessedData)
    (o : obj StageMetrics.t) : obj StageMetrics.t :=
  fold_left (fun stages row => addRow (key row) stages row) data o.

(** The rows the grouping loop puts in a bucket: those whose key names no
    member inherited from [Object.prototype]. *)
Definition bucketed (key : ProcessedData -> string) (data : list ProcessedData)
  : list ProcessedData :=
  filter (fun row => negb (isInherited (key row))) data.

(** The bucket the loop body starts from: the one under the key, or a fresh
    one. *)
Definition bucketAt (o : obj StageMetrics.t) (k : string) : StageMetrics.t :=
  match get o k with Some b => b | None => newMetrics end.

Definition keysOf {V : Type} (o : obj V) : list string := map fst o.

Definition ofNat (n : nat) : number := ofZ (Z.of_nat n).

(** The month key of a row: the first seven characters of the ISO text of
    its date (the empty text stands for the invalid date, which has none). *)
Definition monthKeyOf (row : ProcessedData) : string :=
  match TrackingDateFormatted row with
  | TimeValue t => slice0 7 (text (isoChars t))
  | InvalidDate => EmptyString
  end.

(** The rows of one month, in their order. *)
Definition rowsOfMonth (key : string) (data : list ProcessedData) : list ProcessedData :=
  filter (fun row => String.eqb (monthKeyOf row) key) data.

(** A name of which an assignment makes an own property: any but
    [__proto__]. *)
Definition ownName (k : string) : bool := negb (String.eqb k "__proto__").

(** The rows of one community, in their order: the [filter] of [analyze]. *)
Definition rowsOfCommunity (community : string) (data : list ProcessedData)
  : list ProcessedData :=
  filter (fun row => String.eqb (Community row) community) data.

(** The body of the loop of [analyze] over the communities. *)
Definition communityStep (toFixed1 : number -> string) (data : list ProcessedData)
    (analysis : AnalysisResult) (community : string) : result AnalysisResult :=
  let metrics := calculateCommunityMetrics (rowsOfCommunity community data) in
  insights <- generateInsights toFixed1 metrics ;;
  Ok {| communityInsights :=
          assign (communityInsights analysis) community
                 {| metrics := metrics; insights := insights |};
        followUpStrategies :=
          assign (followUpStrategies analysis) community (generateStrategies metrics);
        monthlyTrends := monthlyTrends analysis;
        analysisDate := analysisDate analysis |}.

(** The headers [parseCSV] reads off the first line of the text. *)
Definition headersOf (contents : string) : list string :=
  map strip (split 44 (hd EmptyString (split 10 contents))).

(** The last position of [h] in [headers], counting from [i]. *)
Fixpoint lastIndexFrom (i : nat) (h : string) (headers : list string) : option nat :=
  match headers with
  | [] => None
  | x :: r =>
      match lastIndexFrom (S i) h r with
      | Some j => Some j
      | None => if String.eqb x h then Some i else None
      end
  end.

(** What a row holds under the header [h]: the coerced field at the last
    position of [h] among the headers, [undefined] when the line is too
    short, nothing when [h] is no header. *)
Definition stored (headers : list string) (line : string) (h : string) : option value :=
  match lastIndexFrom 0 h headers with
  | Some j => Some (coerceField (nth_error (map strip (split 44 line)) j))
  | None => None
  end.

(** The text holds the code unit [k]. *)
Definition hasChar (k : Z) (s : string) : bool := existsb (isChar k) (chars s).

(** The number of code units [k] in the text. *)
Definition countChar (k : Z) (s : string) : nat :=
  List.length (filter (isChar k) (chars s)).

(** What a field of a parsed row can hold: [undefined], a number that is
    not [NaN], or a text that is not the text of a number and holds no
    comma and no double quote. *)
Definition fieldValue (v : value) : Prop :=
  match v with
  | VUndefined => True
  | VNum n => isNaN n = false
  | VStr s =>
      isNaN (StringToNumber s) = true /\ hasChar 44 s = false /\ hasChar 34 s = false
  end.

(** The text of a field before its coercion. *)
Definition fieldText (v : option string) : value :=
  match v with
  | None => VUndefined
  | Some s => VStr s
  end.

(** A property name that is not an array index. *)
Definition isNameKey (k : string) : bool :=
  match arrayIndex k with Some _ => false | None => true end.

(** * Properties *)

(** ** Numbers *)

Lemma Qc_eqb_eq (p q : Qc) : Qc_eqb p q = true <-> p = q.
Proof.
  unfold Qc_eqb. rewrite (Qceq_alt p q).
  destruct (p ?= q)%Qc; split; intros H; try reflexivity; discriminate H.
Qed.

Lemma Qc_ltb_lt (p q : Qc) : Qc_ltb p q = true <-> (p < q)%Qc.
Proof.
  unfold Qc_ltb. rewrite (Qclt_alt p q).
  destruct (p ?= q)%Qc; split; intros H; try reflexivity; discriminate H.
Qed.

Lemma zero_Fin : zero = Fin 0%Qc.
Proof. reflexivity. Qed.

Lemma add_comm (x y : number) : add x y = add y x.
Proof.
  destruct x, y; simpl; try reflexivity.
  f_equal. apply Qcplus_comm.
Qed.

Lemma add_assoc (x y z : number) : add x (add y z) = add (add x y) z.
Proof.
  destruct x, y, z; simpl; try reflexivity.
  f_equal. apply Qcplus_assoc.
Qed.

Lemma add_zero_r (x : number) : add x zero = x.
Proof.
  destruct x; try reflexivity.
  rewrite zero_Fin. simpl. f_equal. apply Qcplus_0_r.
Qed.

Lemma add_zero_l (x : number) : add zero x = x.
Proof. rewrite add_comm. apply add_zero_r. Qed.

Lemma orZero_not_NaN (x : number) : isNaN (orZero x) = false.
Proof.
  unfold orZero. destruct x; reflexivity || (simpl; destruct (Qc_eqb q 0); reflexivity).
Qed.

Lemma orZero_truthy (x : number) : truthy x = true -> orZero x = x.
Proof. unfold orZero. intros ->. reflexivity. Qed.

Lemma orZero_falsy (x : number) : truthy x = false -> orZero x = zero.
Proof. unfold orZero. intros ->. reflexivity. Qed.

Lemma lt_irrefl (x : number) : lt x x = false.
Proof.
  destruct x; try reflexivity. simpl.
  destruct (Qc_ltb q q) eqn:E; [| reflexivity].
  apply Qc_ltb_lt in E. exfalso. exact (Qclt_not_eq _ _ E eq_refl).
Qed.

Lemma lt_trans (x y z : number) : lt x y = true -> lt y z = true -> lt x z = true.
Proof.
  destruct x, y, z; simpl; intros H1 H2; try reflexivity; try discriminate.
  apply Qc_ltb_lt. apply Qc_ltb_lt in H1, H2. exact (Qclt_trans _ _ _ H1 H2).
Qed.

Lemma Qc_ltb_false (p q : Qc) : Qc_ltb p q = false <-> (q <= p)%Qc.
Proof.
  split; intros H.
  - destruct (Qclt_le_dec p q) as [Hlt | Hle]; [| exact Hle].
    apply Qc_ltb_lt in Hlt. rewrite Hlt in H. discriminate H.
  - destruct (Qc_ltb p q) eqn:E; [| reflexivity].
    apply Qc_ltb_lt in E. exfalso. exact (Qcle_not_lt _ _ H E).
Qed.

(** When [c] is strictly above [b] and [e] is not, [c] is not below [e]. *)
Lemma lt_false_above (b e c : number) :
  lt b e = false -> lt b c = true -> lt c e = false.
Proof.
  destruct b, e, c; simpl; intros H1 H2; try reflexivity; try discriminate.
  apply Qc_ltb_false. apply Qc_ltb_false in H1. apply Qc_ltb_lt in H2.
  apply Qclt_le_weak. exact (Qcle_lt_trans _ _ _ H1 H2).
Qed.

(** When [c] is strictly above [b] and [e] is not, [e >= c] fails. *)
Lemma ge_false_above (b e c : number) :
  lt b e = false -> lt b c = true -> ge e c = false.
Proof.
  destruct b, e, c; simpl; intros H1 H2; try reflexivity; try discriminate.
  apply negb_false_iff. apply Qc_ltb_lt.
  apply Qc_ltb_false in H1. apply Qc_ltb_lt in H2.
  exact (Qcle_lt_trans _ _ _ H1 H2).
Qed.

#[global] Arguments add : simpl never.
#[global] Arguments mul : simpl never.
#[global] Arguments div : simpl never.
#[global] Arguments zero : simpl never.
#[global] Arguments one : simpl never.
#[global] Arguments ofZ : simpl never.

(** ** Preprocessing *)

Lemma orZero_coerced (raw : value) : coerced raw (orZero (Number raw)).
Proof.
  unfold coerced, orZero. destruct (Number raw) as [| | | q]; try reflexivity.
  cbn [truthy isNaN]. destruct (Qc_eqb q 0%Qc) eqn:E; [| reflexivity].
  apply Qc_eqb_eq in E. subst q. reflexivity.
Qed.

(** C3, as stated, fails: a negative count and an infinite play time pass
    preprocessing unchanged. *)
Lemma preprocessData_negative_or_infinite :
  exists p,
    preprocessData Date_parse_iso
      [exampleRow "2024-01-01" (VStr "-5") (VNum (ofZ 1)) (VNum (ofZ 1)) (VStr "Infinity")
                  "S1" "A"] = [p]
    /\ lt (Invites p) zero = true
    /\ finiteNonNegative (Invites p) = false
    /\ PlayTimeMin p = PosInf
    /\ finiteNonNegative (PlayTimeMin p) = false.
Proof.
  eexists. split; [reflexivity |]. repeat split; vm_compute; reflexivity.
Qed.

(** C3, amended: every ProcessedRecord produced by [preprocessData] has its
    four numeric fields different from [NaN] (and they are numbers, never
    [undefined]); each is the coerced source value [Number(raw)], with zero
    in its place when the coercion fails or the source value is absent.
    Negative and infinite values are kept. *)
Theorem preprocessData_numeric_fields (Date_parse : string -> Date)
    (data : list EngagementData) :
  Forall2
    (fun row p =>
       (coerced (rawInvites row) (Invites p) /\
        coerced (rawClicks row) (Clicks p) /\
        coerced (rawPlays row) (Plays p) /\
        coerced (rawPlayTimeMin row) (PlayTimeMin p))
       /\ isNaN (Invites p) = false
       /\ isNaN (Clicks p) = false
       /\ isNaN (Plays p) = false
       /\ isNaN (PlayTimeMin p) = false)
    data (preprocessData Date_parse data)
  /\ (forall x, coerced VUndefined x -> x = zero)
  /\ (forall raw x, isNaN (Number raw) = true -> coerced raw x -> x = zero)
  /\ (forall raw x, isNaN (Number raw) = false -> coerced raw x -> x = Number raw).
Proof.
  split; [| split; [| split]].
  - induction data as [| row data IH]; simpl; constructor; [| exact IH].
    split; [repeat split; apply orZero_coerced |].
    repeat split; apply orZero_not_NaN.
  - intros x H. exact H.
  - intros raw x E H. unfold coerced in H. rewrite E in H. exact H.
  - intros raw x E H. unfold coerced in H. rewrite E in H. exact H.
Qed.

(** C9: preprocessing keeps the length and the order of the records, and the
    Community and Automation Stage of every record. *)
Theorem preprocessData_frame (Date_parse : string -> Date) (data : list EngagementData) :
  List.length (preprocessData Date_parse data) = List.length data /\
  map Community (preprocessData Date_parse data) = map rawCommunity data /\
  map AutomationStage (preprocessData Date_parse data) = map rawAutomationStage data /\
  forall i row,
    nth_error data i = Some row ->
    exists p,
      nth_error (preprocessData Date_parse data) i = Some p /\
      Community p = rawCommunity row /\
      AutomationStage p = rawAutomationStage row.
Proof.
  unfold preprocessData. split; [apply length_map |].
  split; [rewrite map_map; reflexivity |].
  split; [rewrite map_map; reflexivity |].
  intros i row H. exists (preprocessRow Date_parse row).
  split; [| split; reflexivity].
  rewrite nth_error_map, H. reflexivity.
Qed.

(** ** Strategy generation *)

Lemma generateStrategies_eq (m : CommunityMetrics) :
  generateStrategies m =
  ruleOutput (lt (clickRate m) (ofZ 40)) improveInitialEngagement
  ++ ruleOutput (lt (playRate m) (ofZ 70)) increasePlayRate
  ++ ruleOutput (lt (avgPlayTime m) (ofZ 3)) extendWatchTime.
Proof.
  unfold generateStrategies, pushIf, ruleOutput.
  destruct (lt (clickRate m) (ofZ 40)), (lt (playRate m) (ofZ 70)),
    (lt (avgPlayTime m) (ofZ 3)); reflexivity.
Qed.

(** Decides whether a concrete list of strategies holds one with a given
    focus label. *)
Ltac focus_iff :=
  split;
  [ intros [s [Hin Hf]]; simpl in Hin;
    repeat (destruct Hin as [<- | Hin];
            [ try reflexivity; try (vm_compute in Hf; discriminate Hf) |]);
    destruct Hin
  | intros H; try discriminate H;
    first [ exists improveInitialEngagement; split; [simpl; tauto | reflexivity]
          | exists increasePlayRate; split; [simpl; tauto | reflexivity]
          | exists extendWatchTime; split; [simpl; tauto | reflexivity] ] ].

(** C6: each of the three rules fires exactly under its strict threshold
    test and contributes its one fixed strategy (focus label and four
    actions); the output lists the fired rules in the fixed order, and is
    empty when no rule fires. *)
Theorem generateStrategies_rules (m : CommunityMetrics) :
  let c1 := lt (clickRate m) (ofZ 40) in
  let c2 := lt (playRate m) (ofZ 70) in
  let c3 := lt (avgPlayTime m) (ofZ 3) in
  let l := generateStrategies m in
  l = ruleOutput c1 improveInitialEngagement
      ++ ruleOutput c2 increasePlayRate
      ++ ruleOutput c3 extendWatchTime
  /\ withFocus "Improve Initial Engagement" l = ruleOutput c1 improveInitialEngagement
  /\ withFocus "Increase Play Rate" l = ruleOutput c2 increasePlayRate
  /\ withFocus "Extend Watch Time" l = ruleOutput c3 extendWatchTime
  /\ ((exists s, In s l /\ focus s = "Improve Initial Engagement"%string) <-> c1 = true)
  /\ ((exists s, In s l /\ focus s = "Increase Play Rate"%string) <-> c2 = true)
  /\ ((exists s, In s l /\ focus s = "Extend Watch Time"%string) <-> c3 = true)
  /\ Forall (fun s => List.length (actions s) = 4%nat) l
  /\ (c1 = false /\ c2 = false /\ c3 = false <-> l = []).
Proof.
  cbv zeta. rewrite generateStrategies_eq.
  destruct (lt (clickRate m) (ofZ 40)), (lt (playRate m) (ofZ 70)),
    (lt (avgPlayTime m) (ofZ 3)); cbn [ruleOutput app];
    repeat (split; [reflexivity |]);
    (split; [focus_iff |]); (split; [focus_iff |]); (split; [focus_iff |]);
    (split; [repeat constructor |]);
    (split; [intros [H1 [H2 H3]]; reflexivity || discriminate
            | intros H; discriminate H || (repeat split; reflexivity)]).
Qed.

(** The boundary of the watch-time rule: [avgPlayTime = 3] does not fire it,
    [avgPlayTime = 2.999] does. *)
Example generateStrategies_boundary :
  generateStrategies (metricsOf (ofZ 40) (ofZ 70) (ofZ 3) []) = [] /\
  generateStrategies (metricsOf (ofZ 40) (ofZ 70) (ofQ (2999 # 1000)) []) = [extendWatchTime] /\
  generateStrategies (metricsOf (ofZ 0) (ofZ 0) (ofZ 0) [])
  = [improveInitialEngagement; increasePlayRate; extendWatchTime].
Proof. repeat split; reflexivity. Qed.

(** ** Objects *)

Section ObjectLemmas.

Context {V : Type}.
Implicit Types (o : obj V) (k : string) (v : V).

Lemma get_None_keys o k : get o k = None <-> ~ In k (map fst o).
Proof.
  induction o as [| [k' v'] r IH]; simpl.
  - split; [intros _ [] | reflexivity].
  - destruct (String.eqb_spec k k') as [-> | Hne].
    + split; [discriminate | intros H; exfalso; apply H; left; reflexivity].
    + rewrite IH. split.
      * intros H [E | Hin]; [apply Hne; symmetry; exact E | exact (H Hin)].
      * intros H Hin. apply H. right. exact Hin.
Qed.

Lemma get_set_same o k v : get (set o k v) k = Some v.
Proof.
  induction o as [| [k' v'] r IH]; simpl.
  - rewrite String.eqb_refl. reflexivity.
  - destruct (String.eqb_spec k k') as [-> | Hne]; simpl.
    + rewrite String.eqb_refl. reflexivity.
    + destruct (String.eqb_spec k k') as [E | _]; [contradiction | exact IH].
Qed.

Lemma set_new o k v : get o k = None -> set o k v = o ++ [(k, v)].
Proof.
  induction o as [| [k' v'] r IH]; simpl; [reflexivity |].
  destruct (String.eqb k k'); [discriminate |].
  intros H. rewrite (IH H). reflexivity.
Qed.

Lemma set_keys_present o k v v0 :
  get o k = Some v0 -> map fst (set o k v) = map fst o.
Proof.
  induction o as [| [k' v'] r IH]; simpl; [discriminate |].
  destruct (String.eqb k k'); [reflexivity |].
  intros H. simpl. rewrite (IH H). reflexivity.
Qed.

Lemma set_not_nil o k v : set o k v <> [].
Proof.
  destruct o as [| [k' v'] r]; simpl; [discriminate |].
  destruct (String.eqb k k'); discriminate.
Qed.

Lemma set_NoDup o k v : NoDup (map fst o) -> NoDup (map fst (set o k v)).
Proof.
  intros H. destruct (get o k) as [v0 |] eqn:E.
  - rewrite set_keys_present with (v0 := v0) by exact E. exact H.
  - rewrite set_new by exact E. rewrite map_app. simpl.
    apply NoDup_app; [exact H | repeat constructor; intros [] |].
    intros a Ha [<- | []]. apply get_None_keys in E. exact (E Ha).
Qed.

Lemma insertSorted_perm {A : Type} (i : Z) (a : A) (l : list (Z * A)) :
  Permutation (insertSorted i a l) ((i, a) :: l).
Proof.
  induction l as [| [j b] r IH]; simpl; [apply Permutation_refl |].
  destruct (i <=? j); [apply Permutation_refl |].
  eapply perm_trans; [apply perm_skip; exact IH | apply perm_swap].
Qed.

Lemma integerKeyed_perm o :
  Permutation (map snd (integerKeyed o)) (filter (fun e => negb (isStringKey e)) o).
Proof.
  induction o as [| [k v] r IH]; simpl; [apply Permutation_refl |].
  unfold isStringKey at 1. simpl.
  destruct (arrayIndex k) as [i |]; simpl; [| exact IH].
  eapply perm_trans.
  - apply Permutation_map. apply insertSorted_perm.
  - simpl. apply perm_skip. exact IH.
Qed.

Lemma filter_partition_perm {A : Type} (p : A -> bool) (l : list A) :
  Permutation (filter (fun x => negb (p x)) l ++ filter p l) l.
Proof.
  induction l as [| x r IH]; simpl; [apply Permutation_refl |].
  destruct (p x); simpl.
  - apply Permutation_sym. apply Permutation_cons_app. apply Permutation_sym. exact IH.
  - apply perm_skip. exact IH.
Qed.

Lemma insertSorted_sorted {A : Type} (i : Z) (a : A) (l : list (Z * A)) :
  Sorted (fun x y => fst x <= fst y) l ->
  Sorted (fun x y => fst x <= fst y) (insertSorted i a l).
Proof.
  induction l as [| [j b] r IH]; intros H; simpl.
  - repeat constructor.
  - destruct (Z.leb_spec i j) as [Hle | Hgt].
    + constructor; [exact H | constructor; exact Hle].
    + apply Sorted_inv in H as [Hr Hhd]. constructor; [exact (IH Hr) |].
      destruct r as [| [j' b'] r']; simpl.
      * constructor. simpl. lia.
      * destruct (Z.leb_spec i j'); constructor; simpl; [lia |].
        apply HdRel_inv in Hhd. exact Hhd.
Qed.

(** [Object.entries] lists the array-index keys in ascending order. *)
Lemma integerKeyed_sorted o : Sorted (fun x y => fst x <= fst y) (integerKeyed o).
Proof.
  induction o as [| [k v] r IH]; simpl; [constructor |].
  destruct (arrayIndex k); [apply insertSorted_sorted |]; exact IH.
Qed.

(** [Object.entries] lists every own property once. *)
Lemma Object_entries_perm o : Permutation (Object_entries o) o.
Proof.
  unfold Object_entries.
  eapply perm_trans; [| apply (filter_partition_perm isStringKey)].
  apply Permutation_app_tail. apply integerKeyed_perm.
Qed.

Lemma Object_entries_not_nil o : o <> [] -> Object_entries o <> [].
Proof.
  intros H E. apply H. apply Permutation_nil.
  rewrite <- E. apply Object_entries_perm.
Qed.

Lemma Object_keys_perm o : Permutation (Object_keys o) (map fst o).
Proof. unfold Object_keys. apply Permutation_map. apply Object_entries_perm. Qed.

End ObjectLemmas.

(** ** Sums *)

Lemma sumOf_from {A : Type} (f : A -> number) (l : list A) (a : number) :
  fold_left (fun sum row => add sum (f row)) l a = add a (sumOf f l).
Proof.
  unfold sumOf. revert a. induction l as [| x r IH]; intros a; cbn [fold_left].
  - symmetry. apply add_zero_r.
  - rewrite (IH (add a (f x))), (IH (add zero (f x))), add_zero_l.
    symmetry. apply add_assoc.
Qed.

Lemma sumOf_cons {A : Type} (f : A -> number) (x : A) (l : list A) :
  sumOf f (x :: l) = add (f x) (sumOf f l).
Proof.
  unfold sumOf at 1. cbn [fold_left]. rewrite sumOf_from, add_zero_l. reflexivity.
Qed.

Lemma sumOf_app {A : Type} (f : A -> number) (l1 l2 : list A) :
  sumOf f (l1 ++ l2) = add (sumOf f l1) (sumOf f l2).
Proof.
  induction l1 as [| x r IH]; simpl.
  - symmetry. apply add_zero_l.
  - rewrite !sumOf_cons, IH. apply add_assoc.
Qed.

Lemma sumOf_perm {A : Type} (f : A -> number) (l l' : list A) :
  Permutation l l' -> sumOf f l = sumOf f l'.
Proof.
  induction 1 as [| x l l' _ IH | x y l | l l' l'' _ IH1 _ IH2].
  - reflexivity.
  - rewrite !sumOf_cons, IH. reflexivity.
  - rewrite !sumOf_cons, !add_assoc, (add_comm (f y) (f x)). reflexivity.
  - rewrite IH1. exact IH2.
Qed.

Lemma sumOf_map {A B : Type} (f : B -> number) (g : A -> B) (l : list A) :
  sumOf f (map g l) = sumOf (fun x => f (g x)) l.
Proof.
  induction l as [| x r IH]; [reflexivity |].
  simpl. rewrite !sumOf_cons, IH. reflexivity.
Qed.

Section ObjectSums.

Context {V : Type} (g : V -> number).

Lemma sumValues_set_new (o : obj V) k v :
  get o k = None -> sumValues g (set o k v) = add (sumValues g o) (g v).
Proof.
  intros H. unfold sumValues. rewrite set_new by exact H.
  rewrite sumOf_app, sumOf_cons. simpl. unfold sumOf at 2. simpl.
  rewrite add_zero_r. reflexivity.
Qed.

Lemma sumValues_set_present (o : obj V) k v v0 x :
  get o k = Some v0 -> g v = add (g v0) x ->
  sumValues g (set o k v) = add (sumValues g o) x.
Proof.
  unfold sumValues. intros H Hg. induction o as [| [k' v'] r IH]; simpl in *; [discriminate |].
  destruct (String.eqb k k').
  - injection H as ->. rewrite !sumOf_cons. simpl. rewrite Hg.
    rewrite <- !add_assoc. f_equal. apply add_comm.
  - rewrite !sumOf_cons, (IH H). simpl. apply add_assoc.
Qed.

Lemma sumValues_entries (o : obj V) :
  sumOf g (map snd (Object_entries o)) = sumValues g o.
Proof.
  rewrite sumOf_map. apply sumOf_perm. apply Object_entries_perm.
Qed.

End ObjectSums.

(** ** Updating every bucket *)

Section UpdateAll.

Context {V : Type} (f : V -> V).

Lemma inKeys_In ks k : inKeys ks k = true <-> In k ks.
Proof.
  unfold inKeys. rewrite existsb_exists. split.
  - intros [x [Hin E]]. apply String.eqb_eq in E. subst x. exact Hin.
  - intros Hin. exists k. split; [exact Hin | apply String.eqb_refl].
Qed.

Lemma updateKeys_keys ks o : map fst (updateKeys f ks o) = map fst o.
Proof.
  unfold updateKeys. rewrite map_map. apply map_ext.
  intros e. destruct (inKeys ks (fst e)); reflexivity.
Qed.

Lemma updateKeys_absent k o : ~ In k (map fst o) -> updateKeys f [k] o = o.
Proof.
  induction o as [| [k' v'] r IH]; simpl; [reflexivity |].
  intros H. rewrite IH by (intros Hin; apply H; right; exact Hin).
  destruct (String.eqb_spec k' k) as [E | _]; [| reflexivity].
  exfalso. apply H. left. exact E.
Qed.

Lemma updateAt_updateKeys o k :
  NoDup (map fst o) -> updateAt f o k = updateKeys f [k] o.
Proof.
  unfold updateAt. induction o as [| [k' v'] r IH]; simpl; [reflexivity |].
  intros H. apply NoDup_cons_iff in H as [Hk' Hr].
  destruct (String.eqb_spec k k') as [-> | Hne].
  - simpl. rewrite String.eqb_refl. simpl. f_equal.
    symmetry. apply updateKeys_absent. exact Hk'.
  - destruct (String.eqb_spec k' k) as [E | _]; [exfalso; apply Hne; symmetry; exact E |].
    simpl. specialize (IH Hr). destruct (get r k) as [d |].
    + simpl. destruct (String.eqb_spec k k') as [E | _]; [contradiction |].
      f_equal. exact IH.
    + f_equal. exact IH.
Qed.

Lemma fold_updateAt ks : forall o,
  NoDup (map fst o) -> NoDup ks -> fold_left (updateAt f) ks o = updateKeys f ks o.
Proof.
  induction ks as [| k ks IH]; intros o Ho Hks; simpl.
  - unfold updateKeys. simpl. symmetry. rewrite <- (map_id o) at 2.
    apply map_ext. intros e. reflexivity.
  - apply NoDup_cons_iff in Hks as [Hk Hks].
    rewrite updateAt_updateKeys by exact Ho.
    rewrite IH; [| rewrite updateKeys_keys; exact Ho | exact Hks].
    unfold updateKeys. rewrite map_map. apply map_ext. intros [k' v']. simpl.
    destruct (String.eqb_spec k' k) as [-> | Hne]; simpl.
    + destruct (inKeys ks k) eqn:E; [| reflexivity].
      apply inKeys_In in E. contradiction.
    + reflexivity.
Qed.

Lemma updateKeys_all ks o :
  (forall k, In k (map fst o) -> In k ks) -> updateKeys f ks o = mapValues f o.
Proof.
  intros H. unfold updateKeys, mapValues. apply map_ext_in.
  intros e He. replace (inKeys ks (fst e)) with true; [reflexivity |].
  symmetry. apply inKeys_In. apply H. apply in_map. exact He.
Qed.

(** Updating the bucket of every key of [Object.keys(o)] in place updates
    every value of [o], and keeps the keys where they are. *)
Lemma fold_updateAt_all o :
  NoDup (map fst o) -> fold_left (updateAt f) (Object_keys o) o = mapValues f o.
Proof.
  intros H. rewrite fold_updateAt.
  - apply updateKeys_all. intros k Hk.
    apply (Permutation_in k (Permutation_sym (Object_keys_perm o))). exact Hk.
  - exact H.
  - apply (Permutation_NoDup (Permutation_sym (Object_keys_perm o))). exact H.
Qed.

End UpdateAll.

Lemma averageAll_mapValues (o : obj StageMetrics.t) :
  NoDup (map fst o) -> averageAll o = mapValues setAverage o.
Proof.
  intros H. unfold averageAll.
  change (fold_left (updateAt setAverage) (Object_keys o) o = mapValues setAverage o).
  apply fold_updateAt_all. exact H.
Qed.

(** ** Grouping rows into buckets *)

Lemma isInherited_not_proto (k : string) :
  isInherited k = false -> String.eqb k "__proto__" = false.
Proof.
  intros H. destruct (String.eqb_spec k "__proto__") as [E | _]; [| reflexivity].
  subst k. vm_compute in H. discriminate H.
Qed.

Lemma assign_set {V : Type} (o : obj V) (k : string) (v : V) :
  isInherited k = false -> assign o k v = set o k v.
Proof. intros H. unfold assign. rewrite (isInherited_not_proto _ H). reflexivity. Qed.

Lemma lookup_present {V : Type} (o : obj V) (k : string) (v : V) :
  get o k = Some v -> lookup o k = Own v.
Proof. intros H. unfold lookup. rewrite H. reflexivity. Qed.

Lemma lookup_absent {V : Type} (o : obj V) (k : string) :
  isInherited k = false -> get o k = None -> lookup o k = Absent.
Proof. intros Hi H. unfold lookup. rewrite H, Hi. reflexivity. Qed.

Lemma lookup_inherited {V : Type} (o : obj V) (k : string) :
  isInherited k = true -> get o k = None -> lookup o k = Inherited.
Proof. intros Hi H. unfold lookup. rewrite H, Hi. reflexivity. Qed.

Lemma addRow_present key (o : obj StageMetrics.t) row stage :
  get o key = Some stage -> addRow key o row = set o key (accumulate stage row).
Proof.
  unfold addRow. intros H. rewrite (lookup_present _ _ H). cbv beta iota zeta.
  rewrite (lookup_present _ _ H). reflexivity.
Qed.

Lemma addRow_new key (o : obj StageMetrics.t) row :
  isInherited key = false -> get o key = None ->
  addRow key o row = set (set o key newMetrics) key (accumulate newMetrics row).
Proof.
  unfold addRow. intros Hi H. rewrite (lookup_absent _ _ Hi H). cbv beta iota zeta.
  rewrite assign_set by exact Hi.
  rewrite (lookup_present _ _ (get_set_same o key newMetrics)).
  reflexivity.
Qed.

(** A row whose key names an inherited member leaves the buckets as they
    are. *)
Lemma addRow_inherited key (o : obj StageMetrics.t) row :
  isInherited key = true -> get o key = None -> addRow key o row = o.
Proof.
  unfold addRow. intros Hi H. rewrite (lookup_inherited _ _ Hi H). cbv beta iota zeta.
  rewrite (lookup_inherited _ _ Hi H). reflexivity.
Qed.

Lemma addRow_NoDup key (o : obj StageMetrics.t) row :
  NoDup (map fst o) -> NoDup (map fst (addRow key o row)).
Proof.
  intros H. destruct (get o key) as [stage |] eqn:E.
  - rewrite addRow_present with (stage := stage) by exact E. apply set_NoDup. exact H.
  - destruct (isInherited key) eqn:Hi.
    + rewrite addRow_inherited by assumption. exact H.
    + rewrite addRow_new by assumption. apply set_NoDup. apply set_NoDup. exact H.
Qed.

Lemma addRow_not_nil key (o : obj StageMetrics.t) row :
  isInherited key = false \/ o <> [] -> addRow key o row <> [].
Proof.
  intros H. destruct (get o key) as [stage |] eqn:E.
  - rewrite addRow_present with (stage := stage) by exact E. apply set_not_nil.
  - destruct (isInherited key) eqn:Hi.
    + rewrite addRow_inherited by assumption.
      destruct H as [H | H]; [discriminate H | exact H].
    + rewrite addRow_new by assumption. apply set_not_nil.
Qed.

(** The keys of the buckets never name an inherited member. *)
Lemma addRow_keys key (o : obj StageMetrics.t) row :
  Forall (fun k => isInherited k = false) (keysOf o) ->
  Forall (fun k => isInherited k = false) (keysOf (addRow key o row)).
Proof.
  intros H. unfold keysOf in *. destruct (get o key) as [stage |] eqn:E.
  - rewrite addRow_present with (stage := stage) by exact E.
    rewrite set_keys_present with (v0 := stage) by exact E. exact H.
  - destruct (isInherited key) eqn:Hi.
    + rewrite addRow_inherited by assumption. exact H.
    + rewrite addRow_new by assumption.
      rewrite set_keys_present with (v0 := newMetrics) by apply get_set_same.
      rewrite set_new by exact E. rewrite map_app. apply Forall_app. split; [exact H |].
      constructor; [exact Hi | constructor].
Qed.

Lemma get_inherited (o : obj StageMetrics.t) (k : string) :
  Forall (fun k => isInherited k = false) (keysOf o) -> isInherited k = true ->
  get o k = None.
Proof.
  intros H Hi. apply get_None_keys. intros Hin.
  rewrite Forall_forall in H. rewrite (H k Hin) in Hi. discriminate Hi.
Qed.

Lemma bucketed_Forall (key : ProcessedData -> string) (data : list ProcessedData) :
  Forall (fun row => isInherited (key row) = false) (bucketed key data).
Proof.
  apply Forall_forall. intros row H. apply filter_In in H as [_ H].
  apply negb_true_iff in H. exact H.
Qed.

Lemma bucketed_all (key : ProcessedData -> string) (data : list ProcessedData) :
  Forall (fun row => isInherited (key row) = false) data -> bucketed key data = data.
Proof.
  unfold bucketed. induction 1 as [| row data Hrow _ IH]; cbn [filter]; [reflexivity |].
  rewrite Hrow. cbn [negb]. rewrite IH. reflexivity.
Qed.

(** The grouping loop sees only the rows whose key names no inherited
    member. *)
Lemma groupRows_bucketed (key : ProcessedData -> string) (data : list ProcessedData) :
  forall o,
    Forall (fun k => isInherited k = false) (keysOf o) ->
    groupRows key data o = groupRows key (bucketed key data) o.
Proof.
  unfold groupRows, bucketed.
  induction data as [| row data IH]; intros o Ho; cbn [fold_left filter]; [reflexivity |].
  destruct (isInherited (key row)) eqn:Hi; cbn [negb fold_left].
  - rewrite addRow_inherited; [apply IH; exact Ho | exact Hi |].
    apply get_inherited; assumption.
  - apply IH. apply addRow_keys. exact Ho.
Qed.

Section FieldSums.

(** A bucket field [g] that the loop body increases by the row field [h]. *)
Variables (g : StageMetrics.t -> number) (h : ProcessedData -> number).
Hypothesis g_new : g newMetrics = zero.
Hypothesis g_accumulate : forall stage row, g (accumulate stage row) = add (g stage) (h row).
Hypothesis g_average : forall stage, g (setAverage stage) = g stage.

Lemma sumValues_addRow key (o : obj StageMetrics.t) row :
  isInherited key = false ->
  sumValues g (addRow key o row) = add (sumValues g o) (h row).
Proof.
  intros Hi. destruct (get o key) as [stage |] eqn:E.
  - rewrite addRow_present with (stage := stage) by exact E.
    apply sumValues_set_present with (v0 := stage); [exact E | apply g_accumulate].
  - rewrite addRow_new by assumption.
    rewrite sumValues_set_present with (v0 := newMetrics) (x := h row).
    + rewrite sumValues_set_new by exact E. rewrite g_new, add_zero_r. reflexivity.
    + apply get_set_same.
    + apply g_accumulate.
Qed.

Lemma sumValues_grouped (key : ProcessedData -> string) data : forall o,
  Forall (fun row => isInherited (key row) = false) data ->
  sumValues g (groupRows key data o) = add (sumValues g o) (sumOf h data).
Proof.
  unfold groupRows.
  induction data as [| row data IH]; intros o H; cbn [fold_left].
  - unfold sumOf. cbn [fold_left]. symmetry. apply add_zero_r.
  - inversion H as [| ? ? Hrow Hdata]; subst.
    rewrite IH by exact Hdata. rewrite sumValues_addRow by exact Hrow.
    rewrite sumOf_cons. symmetry. apply add_assoc.
Qed.

Lemma sumValues_mapValues_setAverage (o : obj StageMetrics.t) :
  sumValues g (mapValues setAverage o) = sumValues g o.
Proof.
  unfold sumValues, mapValues. rewrite sumOf_map.
  induction o as [| e r IH]; [reflexivity |].
  rewrite !sumOf_cons, IH. cbn [snd]. rewrite g_average. reflexivity.
Qed.

End FieldSums.

Lemma grouped_NoDup (key : ProcessedData -> string) data : forall o,
  NoDup (map fst o) -> NoDup (map fst (groupRows key data o)).
Proof.
  unfold groupRows.
  induction data as [| row data IH]; intros o H; cbn [fold_left]; [exact H |].
  apply IH. apply addRow_NoDup. exact H.
Qed.

Lemma grouped_not_nil (key : ProcessedData -> string) data : forall o,
  Exists (fun row => isInherited (key row) = false) data \/ o <> [] ->
  groupRows key data o <> [].
Proof.
  unfold groupRows.
  induction data as [| row data IH]; intros o H; cbn [fold_left].
  - destruct H as [H | H]; [inversion H | exact H].
  - apply IH. destruct H as [H | H].
    + inversion H as [? ? Hrow | ? ? Hdata]; subst.
      * right. apply addRow_not_nil. left. exact Hrow.
      * left. exact Hdata.
    + right. apply addRow_not_nil. right. exact H.
Qed.

(** The stage breakdown is the grouped buckets, each with its average. *)
Lemma calculateStageBreakdown_eq data :
  calculateStageBreakdown data
  = mapValues setAverage (groupRows AutomationStage data []).
Proof.
  unfold calculateStageBreakdown. apply averageAll_mapValues.
  apply (grouped_NoDup AutomationStage). constructor.
Qed.

Lemma calculateStageBreakdown_bucketed data :
  calculateStageBreakdown data
  = mapValues setAverage (groupRows AutomationStage (bucketed AutomationStage data) []).
Proof.
  rewrite calculateStageBreakdown_eq, groupRows_bucketed; [reflexivity | constructor].
Qed.

Lemma calculateStageBreakdown_not_nil data :
  Exists (fun row => isInherited (AutomationStage row) = false) data ->
  calculateStageBreakdown data <> [].
Proof.
  intros H E. rewrite calculateStageBreakdown_eq in E.
  apply map_eq_nil in E. revert E. apply grouped_not_nil. left. exact H.
Qed.

(** Data whose stages all name inherited members leave the breakdown
    empty. *)
Lemma calculateStageBreakdown_nil data :
  Forall (fun row => isInherited (AutomationStage row) = true) data ->
  calculateStageBreakdown data = [].
Proof.
  intros H. rewrite calculateStageBreakdown_bucketed.
  replace (bucketed AutomationStage data) with (@nil ProcessedData); [reflexivity |].
  unfold bucketed. induction H as [| row data Hrow _ IH]; cbn [filter]; [reflexivity |].
  rewrite Hrow. exact IH.
Qed.

Lemma calculateStageBreakdown_sum
    (g : StageMetrics.t -> number) (h : ProcessedData -> number) data :
  g newMetrics = zero ->
  (forall stage row, g (accumulate stage row) = add (g stage) (h row)) ->
  (forall stage, g (setAverage stage) = g stage) ->
  sumOf g (map snd (Object_entries (calculateStageBreakdown data)))
  = sumOf h (bucketed AutomationStage data).
Proof.
  intros Hn Ha Hv. rewrite sumValues_entries, calculateStageBreakdown_bucketed.
  rewrite sumValues_mapValues_setAverage by exact Hv.
  rewrite sumValues_grouped with (h := h); try assumption; [apply add_zero_l |].
  apply bucketed_Forall.
Qed.

(** ** Binary64 on counts *)

Lemma ofZ_add (a b : Z) : add (ofZ a) (ofZ b) = ofZ (a + b).
Proof.
  unfold add, ofZ. f_equal. unfold Qcplus. apply Q2Qc_eq_iff.
  cbn [this Q2Qc]. rewrite !Qred_correct. rewrite inject_Z_plus. reflexivity.
Qed.

Lemma pow2_Z (k : Z) : 0 <= k -> (pow2 k == inject_Z (2 ^ k))%Q.
Proof. intros H. unfold pow2. rewrite Zpower_Qpower by exact H. reflexivity. Qed.

Lemma pow2_opp (k : Z) : (pow2 k * pow2 (- k) == 1)%Q.
Proof.
  unfold pow2. rewrite Qpower_opp. apply Qmult_inv_r.
  apply Qpower_not_0. discriminate.
Qed.

Lemma roundHalfEven_comp (p q : Q) : (p == q)%Q -> roundHalfEven p = roundHalfEven q.
Proof.
  intros H. unfold roundHalfEven. rewrite (Qfloor_comp _ _ H).
  assert (E : ((p - inject_Z (Qfloor q)) ?= (1 # 2))%Q
              = ((q - inject_Z (Qfloor q)) ?= (1 # 2))%Q).
  { apply Qcompare_comp; [rewrite H; reflexivity | reflexivity]. }
  rewrite E. reflexivity.
Qed.

Lemma roundHalfEven_Z (z : Z) : roundHalfEven (inject_Z z) = z.
Proof.
  unfold roundHalfEven. rewrite Qfloor_Z.
  assert (E : ((inject_Z z - inject_Z z) ?= (1 # 2))%Q = Lt).
  { rewrite (Qcompare_comp (inject_Z z - inject_Z z)%Q (0 # 1) (Qplus_opp_r _)
               (1 # 2) (1 # 2) (Qeq_refl _)).
    reflexivity. }
  rewrite E. reflexivity.
Qed.

Lemma floorLog2_Z (z : Z) : 0 < z -> floorLog2 (inject_Z z) = Z.log2 z.
Proof.
  intros H. unfold floorLog2.
  change (Qnum (inject_Z z)) with z. change (Z.log2 (Z.pos (Qden (inject_Z z)))) with 0.
  rewrite Z.sub_0_r.
  assert (L : Qle_bool (pow2 (Z.log2 z)) (inject_Z z) = true).
  { apply Qle_bool_iff. rewrite pow2_Z by apply Z.log2_nonneg.
    rewrite <- Zle_Qle. apply Z.log2_spec. exact H. }
  rewrite L. reflexivity.
Qed.

(** Binary64 holds every integer from 0 to [2^53 - 1] exactly. *)
Lemma round64_Z (z : Z) : 0 <= z < 2 ^ 53 -> round64 (inject_Z z) = ofZ z.
Proof.
  intros [H0 H1]. destruct (Z.eq_dec z 0) as [-> | Hz]; [reflexivity |].
  assert (Hpos : 0 < z) by lia.
  unfold round64.
  assert (E0 : Qeq_bool (inject_Z z) (0 # 1) = false).
  { destruct (Qeq_bool (inject_Z z) (0 # 1)) eqn:E; [| reflexivity].
    apply Qeq_bool_iff in E. unfold Qeq in E. cbn in E. lia. }
  rewrite E0.
  assert (Ea : Qabs (inject_Z z) = inject_Z z).
  { unfold inject_Z, Qabs. rewrite Z.abs_eq by exact H0. reflexivity. }
  rewrite Ea, floorLog2_Z by exact Hpos.
  assert (HL : 0 <= Z.log2 z <= 52).
  { split; [apply Z.log2_nonneg |].
    assert (Z.log2 z < 53) by (apply Z.log2_lt_pow2; [exact Hpos | exact H1]). lia. }
  rewrite Z.max_l by lia.
  set (e := Z.log2 z - 52).
  assert (Hm : (inject_Z z / pow2 e == inject_Z (z * 2 ^ (- e)))%Q).
  { rewrite inject_Z_mult, <- pow2_Z by (unfold e; lia).
    unfold Qdiv. apply Qmult_comp; [reflexivity |].
    rewrite <- (Qmult_1_l (/ pow2 e)), <- (pow2_opp (- e)), Z.opp_involutive.
    rewrite <- Qmult_assoc, Qmult_inv_r; [apply Qmult_1_r |].
    unfold pow2. apply Qpower_not_0. discriminate. }
  rewrite (roundHalfEven_comp Hm), roundHalfEven_Z.
  assert (Hv : (inject_Z (z * 2 ^ (- e)) * pow2 e == inject_Z z)%Q).
  { rewrite inject_Z_mult, <- pow2_Z by (unfold e; lia).
    rewrite <- Qmult_assoc, (Qmult_comm (pow2 (- e))), pow2_opp. apply Qmult_1_r. }
  assert (Ho : Qle_bool (pow2 1024) (inject_Z (z * 2 ^ (- e)) * pow2 e) = false).
  { destruct (Qle_bool (pow2 1024) (inject_Z (z * 2 ^ (- e)) * pow2 e)) eqn:E;
      [| reflexivity].
    apply Qle_bool_iff in E. rewrite Hv, pow2_Z in E by lia.
    rewrite <- Zle_Qle in E.
    assert (2 ^ 53 < 2 ^ 1024) by (apply Z.pow_lt_mono_r; lia). lia. }
  rewrite Ho.
  assert (Hs : Qle_bool (0 # 1) (inject_Z z) = true).
  { apply Qle_bool_iff. change (0 # 1) with (inject_Z 0). rewrite <- Zle_Qle. exact H0. }
  rewrite Hs. unfold ofZ. f_equal. apply Q2Qc_eq_iff. exact Hv.
Qed.

Lemma this_ofZ (z : Z) : this (Q2Qc (inject_Z z)) = inject_Z z.
Proof. cbn [this Q2Qc]. apply Qred_identity. cbn. apply Z.gcd_1_r. Qed.

(** The addition of binary64 is exact on counts whose sum is below
    [2^53]. *)
Lemma add64_counts : exactOnCounts add64.
Proof.
  intros a b Ha Hb H. unfold add64. rewrite ofZ_add. unfold ofZ, rounded.
  rewrite this_ofZ. apply round64_Z. lia.
Qed.

Lemma add_counts : exactOnCounts add.
Proof. intros a b _ _ _. apply ofZ_add. Qed.

(** [round64] computes what the floating-point unit computes: sums,
    products and quotients of the sample pairs, among them overflows,
    subnormal results and ties. *)
Example round64_binary64 :
  forallb
    (fun p =>
       number_eqb (add64 (ofFloat (fst p)) (ofFloat (snd p)))
                  (ofFloat (PrimFloat.add (fst p) (snd p)))
       && number_eqb (mul64 (ofFloat (fst p)) (ofFloat (snd p)))
                     (ofFloat (PrimFloat.mul (fst p) (snd p)))
       && number_eqb (div64 (ofFloat (fst p)) (ofFloat (snd p)))
                     (ofFloat (PrimFloat.div (fst p) (snd p))))
    binary64Samples = true.
Proof. vm_compute. reflexivity. Qed.

Lemma toZ_ofZ (z : Z) : toZ (ofZ z) = z.
Proof. unfold toZ, ofZ. rewrite this_ofZ. apply Qfloor_Z. Qed.

Lemma isCount_ofZ (z : Z) : 0 <= z -> isCount (ofZ z).
Proof. intros H. unfold isCount. rewrite toZ_ofZ. split; [exact H | reflexivity]. Qed.

Lemma totalOf_nonneg {A : Type} (f : A -> number) (l : list A) :
  Forall (fun x => isCount (f x)) l -> 0 <= totalOf f l.
Proof.
  induction 1 as [| x l [Hx _] _ IH]; cbn [totalOf fold_right]; [lia |].
  fold (totalOf f l). lia.
Qed.

Lemma totalOf_In_le {A : Type} (f : A -> number) (l : list A) (x : A) :
  Forall (fun x => isCount (f x)) l -> In x l -> toZ (f x) <= totalOf f l.
Proof.
  induction 1 as [| y l [Hy _] Hl IH]; intros Hin; [destruct Hin |].
  cbn [totalOf fold_right]. fold (totalOf f l).
  pose proof (@totalOf_nonneg _ f _ Hl). destruct Hin as [-> | Hin]; [lia |].
  specialize (IH Hin). lia.
Qed.

Lemma totalOf_perm {A : Type} (f : A -> number) (l l' : list A) :
  Permutation l l' -> totalOf f l = totalOf f l'.
Proof.
  unfold totalOf. induction 1; cbn [fold_right]; lia.
Qed.

Lemma totalOf_app {A : Type} (f : A -> number) (l1 l2 : list A) :
  totalOf f (l1 ++ l2) = totalOf f l1 + totalOf f l2.
Proof.
  unfold totalOf. induction l1 as [| x l1 IH]; cbn [app fold_right]; [reflexivity |].
  rewrite IH. lia.
Qed.

Section ObjectTotals.

Context {V : Type} (g : V -> number).

Lemma totalOf_set_new (o : obj V) k v :
  get o k = None ->
  totalOf (fun e => g (snd e)) (set o k v) = totalOf (fun e => g (snd e)) o + toZ (g v).
Proof.
  intros H. rewrite set_new by exact H. rewrite totalOf_app.
  cbn [totalOf fold_right snd]. lia.
Qed.

Lemma totalOf_set_present (o : obj V) k v v0 :
  get o k = Some v0 ->
  totalOf (fun e => g (snd e)) (set o k v)
  = totalOf (fun e => g (snd e)) o - toZ (g v0) + toZ (g v).
Proof.
  induction o as [| [k' v'] r IH]; cbn [get set]; [discriminate |].
  destruct (String.eqb k k'); intros H; cbn [totalOf fold_right snd];
    fold (totalOf (fun e => g (snd e)) r).
  - injection H as ->. lia.
  - fold (totalOf (fun e => g (snd e)) (set r k v)). rewrite (IH H). lia.
Qed.

Lemma Forall_set (P : V -> Prop) (o : obj V) k v :
  Forall (fun e => P (snd e)) o -> P v -> Forall (fun e => P (snd e)) (set o k v).
Proof.
  intros H Hv. induction H as [| [k' v'] r He Hr IH]; cbn [set].
  - constructor; [exact Hv | constructor].
  - destruct (String.eqb k k'); constructor; assumption.
Qed.

Lemma get_In (o : obj V) k v : get o k = Some v -> In (k, v) o.
Proof.
  induction o as [| [k' v'] r IH]; cbn [get]; [discriminate |].
  destruct (String.eqb_spec k k') as [-> | _].
  - intros H. injection H as ->. left. reflexivity.
  - intros H. right. exact (IH H).
Qed.

End ObjectTotals.

(** ** The sums over the arithmetic of the host *)

Lemma Host_exact (communityData : list ProcessedData) :
  calculateCommunityMetricsWith add mul div communityData
  = calculateCommunityMetrics communityData.
Proof. reflexivity. Qed.

Section HostSums.

Variables plus over : number -> number -> number.
Hypothesis plus_counts : exactOnCounts plus.

Lemma fold_plus_counts {A : Type} (f : A -> number) (l : list A) : forall a,
  0 <= a -> Forall (fun x => isCount (f x)) l -> a + totalOf f l < 2 ^ 53 ->
  fold_left (fun sum row => plus sum (f row)) l (ofZ a) = ofZ (a + totalOf f l).
Proof.
  induction l as [| x l IH]; intros a Ha Hl Hb; cbn [fold_left totalOf fold_right].
  - rewrite Z.add_0_r. reflexivity.
  - fold (totalOf f l) in *. inversion Hl as [| ? ? [Hx Ex] Hl']; subst.
    pose proof (@totalOf_nonneg _ f _ Hl') as Hn.
    cbn [totalOf fold_right] in Hb. fold (totalOf f l) in Hb.
    remember (toZ (f x)) as z eqn:Ez. rewrite Ex, plus_counts by lia.
    rewrite IH by (try assumption; lia). f_equal. lia.
Qed.

Lemma sumOfWith_counts {A : Type} (f : A -> number) (l : list A) :
  safeCounts f l -> sumOfWith plus f l = ofZ (totalOf f l).
Proof.
  intros [Hl Hb]. unfold sumOfWith. change zero with (ofZ 0).
  rewrite fold_plus_counts by (try assumption; lia). reflexivity.
Qed.

Lemma sumOfWith_map {A B : Type} (f : B -> number) (m : A -> B) (l : list A) :
  sumOfWith plus f (map m l) = sumOfWith plus (fun x => f (m x)) l.
Proof.
  unfold sumOfWith. generalize zero. induction l as [| x l IH]; intros a; [reflexivity |].
  cbn [map fold_left]. apply IH.
Qed.

Lemma addRowWith_present key (o : obj StageMetrics.t) row stage :
  get o key = Some stage ->
  addRowWith plus key o row = set o key (accumulateWith plus stage row).
Proof.
  unfold addRowWith. intros H. rewrite (lookup_present _ _ H). cbv beta iota zeta.
  rewrite (lookup_present _ _ H). reflexivity.
Qed.

Lemma addRowWith_new key (o : obj StageMetrics.t) row :
  isInherited key = false -> get o key = None ->
  addRowWith plus key o row
  = set (set o key newMetrics) key (accumulateWith plus newMetrics row).
Proof.
  unfold addRowWith. intros Hi H. rewrite (lookup_absent _ _ Hi H). cbv beta iota zeta.
  rewrite assign_set by exact Hi.
  rewrite (lookup_present _ _ (get_set_same o key newMetrics)). reflexivity.
Qed.

Lemma addRowWith_NoDup key (o : obj StageMetrics.t) row :
  isInherited key = false ->
  NoDup (map fst o) -> NoDup (map fst (addRowWith plus key o row)).
Proof.
  intros Hi H. destruct (get o key) as [stage |] eqn:E.
  - rewrite addRowWith_present with (stage := stage) by exact E. apply set_NoDup. exact H.
  - rewrite addRowWith_new by assumption. apply set_NoDup. apply set_NoDup. exact H.
Qed.

Lemma averageAllWith_mapValues (o : obj StageMetrics.t) :
  NoDup (map fst o) -> averageAllWith over o = mapValues (setAverageWith over) o.
Proof.
  intros H. unfold averageAllWith.
  change (fold_left (updateAt (setAverageWith over)) (Object_keys o) o
          = mapValues (setAverageWith over) o).
  apply fold_updateAt_all. exact H.
Qed.

Section Field.

(** A bucket field [g] that the loop body increases by the row field [h]. *)
Variables (g : StageMetrics.t -> number) (h : ProcessedData -> number).
Hypothesis g_new : g newMetrics = zero.
Hypothesis g_accumulate :
  forall stage row, g (accumulateWith plus stage row) = plus (g stage) (h row).
Hypothesis g_average : forall stage, g (setAverageWith over stage) = g stage.

(** The loop body keeps every bucket a count, and adds the count of the row
    to their total. *)
Lemma addRowWith_counts key (o : obj StageMetrics.t) row :
  isInherited key = false ->
  Forall (fun e => isCount (g (snd e))) o ->
  isCount (h row) ->
  totalOf (fun e => g (snd e)) o + toZ (h row) < 2 ^ 53 ->
  Forall (fun e => isCount (g (snd e))) (addRowWith plus key o row)
  /\ totalOf (fun e => g (snd e)) (addRowWith plus key o row)
     = totalOf (fun e => g (snd e)) o + toZ (h row).
Proof.
  intros Hi Ho [Hz Ez] Hb.
  pose proof (@totalOf_nonneg _ (fun e => g (snd e)) _ Ho) as Hn.
  destruct (get o key) as [stage |] eqn:E.
  - rewrite addRowWith_present with (stage := stage) by exact E.
    pose proof (get_In _ _ E) as Hin.
    pose proof (@totalOf_In_le _ (fun e => g (snd e)) _ _ Ho Hin) as Hle. cbn [snd] in Hle.
    rewrite Forall_forall in Ho. destruct (Ho _ Hin) as [Hs Es]. cbn [snd] in Hs, Es.
    assert (Eg : g (accumulateWith plus stage row) = ofZ (toZ (g stage) + toZ (h row))).
    { rewrite g_accumulate. remember (toZ (g stage)) as s eqn:Hs'.
      remember (toZ (h row)) as z eqn:Hz'. rewrite Es, Ez. apply plus_counts; lia. }
    split.
    + apply (@Forall_set _ (fun v => isCount (g v))); [apply Forall_forall; exact Ho |].
      rewrite Eg. apply isCount_ofZ. lia.
    + rewrite totalOf_set_present with (v0 := stage) by exact E.
      rewrite Eg, toZ_ofZ. lia.
  - rewrite addRowWith_new by assumption.
    assert (Eg : g (accumulateWith plus newMetrics row) = ofZ (toZ (h row))).
    { rewrite g_accumulate, g_new. remember (toZ (h row)) as z eqn:Hz'. rewrite Ez.
      change zero with (ofZ 0). rewrite plus_counts by lia. reflexivity. }
    split.
    + apply (@Forall_set _ (fun v => isCount (g v)));
        [apply (@Forall_set _ (fun v => isCount (g v))); [exact Ho |] |].
      * rewrite g_new. apply isCount_ofZ. lia.
      * rewrite Eg. apply isCount_ofZ. exact Hz.
    + rewrite totalOf_set_present with (v0 := newMetrics) by apply get_set_same.
      rewrite totalOf_set_new by exact E.
      rewrite Eg, g_new, toZ_ofZ. change zero with (ofZ 0). rewrite toZ_ofZ. lia.
Qed.

Lemma groupWith_counts (key : ProcessedData -> string) data : forall o,
  Forall (fun row => isInherited (key row) = false) data ->
  NoDup (map fst o) ->
  Forall (fun e => isCount (g (snd e))) o ->
  Forall (fun row => isCount (h row)) data ->
  totalOf (fun e => g (snd e)) o + totalOf h data < 2 ^ 53 ->
  let stages := fold_left (fun stages row => addRowWith plus (key row) stages row) data o in
  NoDup (map fst stages)
  /\ Forall (fun e => isCount (g (snd e))) stages
  /\ totalOf (fun e => g (snd e)) stages = totalOf (fun e => g (snd e)) o + totalOf h data.
Proof.
  induction data as [| row data IH]; intros o Hk Hnd Ho Hd Hb; cbn [fold_left].
  - cbn [totalOf fold_right]. repeat split; try assumption. lia.
  - inversion Hk as [| ? ? Hrow Hk']; subst. inversion Hd as [| ? ? Hc Hd']; subst.
    cbn [totalOf fold_right] in Hb |- *. fold (totalOf h data) in Hb |- *.
    pose proof (@totalOf_nonneg _ h _ Hd') as Hn.
    destruct (@addRowWith_counts (key row) o row Hrow Ho Hc) as [Ho' Et]; [lia |].
    destruct (IH (addRowWith plus (key row) o row)) as [N [F T]]; try assumption.
    + apply addRowWith_NoDup; assumption.
    + rewrite Et. lia.
    + repeat split; try assumption. rewrite T, Et. lia.
Qed.

Lemma totalOf_mapValues (o : obj StageMetrics.t) :
  totalOf (fun e => g (snd e)) (mapValues (setAverageWith over) o)
  = totalOf (fun e => g (snd e)) o.
Proof.
  unfold totalOf, mapValues. induction o as [| e r IH]; [reflexivity |].
  cbn [map fold_right snd]. rewrite g_average, IH. reflexivity.
Qed.

(** Over counts the stages add up to the total, whatever the grouping. *)
Lemma stage_sum_counts (data : list ProcessedData) :
  Forall (fun row => isInherited (AutomationStage row) = false) data ->
  safeCounts h data ->
  sumOfWith plus g (Object_values (calculateStageBreakdownWith plus over data))
  = sumOfWith plus h data.
Proof.
  intros Hk [Hd Hb]. rewrite (@sumOfWith_counts _ h data (conj Hd Hb)).
  unfold calculateStageBreakdownWith.
  destruct (@groupWith_counts AutomationStage data []) as [N [F T]];
    try assumption; try constructor.
  cbv zeta in N, F, T. rewrite averageAllWith_mapValues by exact N.
  unfold Object_values. rewrite sumOfWith_map.
  set (stages := fold_left
                   (fun stages row => addRowWith plus (AutomationStage row) stages row)
                   data []) in *.
  assert (Fm : Forall (fun e => isCount (g (snd e)))
                      (mapValues (setAverageWith over) stages)).
  { unfold mapValues. apply Forall_forall. intros e He.
    apply in_map_iff in He as [e0 [<- He0]]. cbn [snd]. rewrite g_average.
    rewrite Forall_forall in F. exact (F _ He0). }
  assert (Tm : totalOf (fun e => g (snd e)) (mapValues (setAverageWith over) stages)
               = totalOf h data).
  { rewrite totalOf_mapValues, T. reflexivity. }
  pose proof (Object_entries_perm (mapValues (setAverageWith over) stages)) as P.
  rewrite sumOfWith_counts.
  - rewrite (@totalOf_perm _ (fun e => g (snd e)) _ _ P), Tm. reflexivity.
  - split.
    + apply (Permutation_Forall (Permutation_sym P)). exact Fm.
    + rewrite (@totalOf_perm _ (fun e => g (snd e)) _ _ P), Tm. exact Hb.
Qed.

End Field.

End HostSums.

(** ** Community metrics *)

(** C7, as stated, fails in two ways.  The rows of a stage named like a
    member of [Object.prototype] enter the totals and no stage: here the
    stage breakdown is empty, the stages add up to 0 and the total is 100.
    And sums of fractions round differently in a different order: with the
    play times 0.1 and 1.1 in one stage and 0.1 in another, the stages add
    up to 1.3000000000000003 and the total is 1.3. *)
Lemma stage_sums_differ_from_totals :
  let m := calculateCommunityMetricsWith add64 mul64 div64 inheritedStage in
  let m' := calculateCommunityMetricsWith add64 mul64 div64 fractionalPlayTimes in
  stageBreakdown m = []
  /\ sumOfWith add64 StageMetrics.invites (Object_values (stageBreakdown m)) = zero
  /\ number_eqb (totalInvites m) (ofZ 100) = true
  /\ number_eqb (sumOfWith add64 StageMetrics.playTime (Object_values (stageBreakdown m')))
                (ofQ (5854679515581646 # 4503599627370496)) = true
  /\ number_eqb (totalPlayTime m') (ofQ (5854679515581645 # 4503599627370496)) = true
  /\ lt (totalPlayTime m')
        (sumOfWith add64 StageMetrics.playTime (Object_values (stageBreakdown m'))) = true.
Proof. cbv zeta. repeat split; vm_compute; reflexivity. Qed.

(** C7, amended: for every community whose Automation Stages name no
    inherited member, and for each of the four quantities whose values in the
    community are counts with a total below [2^53], the per-stage values add
    up, over the stages of the breakdown, to the total of the community.
    The addition is that of the host, of which only exactness on such
    counts is asked, as holds of binary64 ([add64_counts]). *)
Theorem stage_sums_equal_totals (plus times over : number -> number -> number)
    (Date_parse : string -> Date) (data : list EngagementData) (community : string) :
  exactOnCounts plus ->
  let communityData :=
    filter (fun row => String.eqb (Community row) community)
           (preprocessData Date_parse data) in
  Forall (fun row => isInherited (AutomationStage row) = false) communityData ->
  let m := calculateCommunityMetricsWith plus times over communityData in
  let stages := Object_values (stageBreakdown m) in
  (safeCounts Invites communityData ->
   sumOfWith plus StageMetrics.invites stages = totalInvites m) /\
  (safeCounts Clicks communityData ->
   sumOfWith plus StageMetrics.clicks stages = totalClicks m) /\
  (safeCounts Plays communityData ->
   sumOfWith plus StageMetrics.plays stages = totalPlays m) /\
  (safeCounts PlayTimeMin communityData ->
   sumOfWith plus StageMetrics.playTime stages = totalPlayTime m).
Proof.
  intros Hp communityData Hk m stages. subst m stages.
  cbn [stageBreakdown totalInvites totalClicks totalPlays totalPlayTime
       calculateCommunityMetricsWith].
  split; [| split; [| split]]; intros Hc.
  - apply (@stage_sum_counts plus over Hp StageMetrics.invites Invites);
      solve [reflexivity | assumption].
  - apply (@stage_sum_counts plus over Hp StageMetrics.clicks Clicks);
      solve [reflexivity | assumption].
  - apply (@stage_sum_counts plus over Hp StageMetrics.plays Plays);
      solve [reflexivity | assumption].
  - apply (@stage_sum_counts plus over Hp StageMetrics.playTime PlayTimeMin);
      solve [reflexivity | assumption].
Qed.

Lemma stage_sums_equal_totals_witness :
  exactOnCounts add64
  /\ sumOfWith add64 StageMetrics.invites
       (Object_values
          (stageBreakdown
             (calculateCommunityMetricsWith add64 mul64 div64
                (filter (fun row => String.eqb (Community row) "A")
                        (preprocessData Date_parse_iso countRows)))))
     = totalInvites
         (calculateCommunityMetricsWith add64 mul64 div64
            (filter (fun row => String.eqb (Community row) "A")
                    (preprocessData Date_parse_iso countRows))).
Proof.
  split; [exact add64_counts |].
  refine (proj1 (@stage_sums_equal_totals add64 mul64 div64 Date_parse_iso countRows
                   "A"%string add64_counts _) _).
  - repeat constructor.
  - split.
    + repeat constructor; vm_compute; intros H; discriminate H.
    + vm_compute. reflexivity.
Defined.

Lemma truthy_guard (den ratio : number) :
  (if truthy den then ratio else zero) = guarded den ratio.
Proof.
  unfold guarded. destruct den as [| | | q]; try reflexivity.
  simpl. destruct (Qc_eqb q 0); reflexivity.
Qed.

Lemma mapValues_In {V : Type} (f : V -> V) (o : obj V) k v :
  In (k, v) (mapValues f o) -> exists v0, In (k, v0) o /\ v = f v0.
Proof.
  unfold mapValues. intros H. apply in_map_iff in H as [[k0 v0] [E Hin]].
  simpl in E. injection E as E1 E2. subst k v.
  exists v0. split; [exact Hin | reflexivity].
Qed.

(** C1, as stated, fails: when the invites of a community sum to [NaN] the
    denominator is not [0], yet the click rate is [0] and not the ratio
    (which is [NaN]). *)
Lemma clickRate_NaN_denominator :
  let m :=
    calculateCommunityMetrics
      (preprocessData Date_parse_iso
         [exampleRow "2024-01-01" (VStr "Infinity") (VNum (ofZ 1)) (VNum (ofZ 1))
                     (VNum (ofZ 1)) "S1" "A";
          exampleRow "2024-01-02" (VStr "-Infinity") (VNum (ofZ 1)) (VNum (ofZ 1))
                     (VNum (ofZ 1)) "S1" "A"]) in
  totalInvites m = NaN
  /\ isZero (totalInvites m) = false
  /\ clickRate m = zero
  /\ mul (div (totalClicks m) (totalInvites m)) (ofZ 100) = NaN.
Proof. cbv zeta. repeat split; vm_compute; reflexivity. Qed.

(** C1, amended: for every record sequence, each derived rate is exactly 0
    when its denominator is 0 or [NaN], and is the defined ratio otherwise:
    [clickRate = totalClicks / totalInvites * 100],
    [playRate = totalPlays / totalClicks * 100],
    [avgPlayTime = totalPlayTime / totalPlays], and likewise the average
    play time of every stage of the breakdown.  A zero denominator never
    yields [NaN] (and nothing here throws: the functions are total). *)
Theorem rates_guarded (communityData : list ProcessedData) :
  let m := calculateCommunityMetrics communityData in
  clickRate m
    = guarded (totalInvites m) (mul (div (totalClicks m) (totalInvites m)) (ofZ 100))
  /\ playRate m
    = guarded (totalClicks m) (mul (div (totalPlays m) (totalClicks m)) (ofZ 100))
  /\ avgPlayTime m
    = guarded (totalPlays m) (div (totalPlayTime m) (totalPlays m))
  /\ Forall
       (fun d => StageMetrics.avgPlayTime d
                 = Some (guarded (StageMetrics.plays d)
                           (div (StageMetrics.playTime d) (StageMetrics.plays d))))
       (Object_values (calculateStageBreakdown communityData))
  /\ (isZero (totalInvites m) = true -> clickRate m = zero)
  /\ (isZero (totalClicks m) = true -> playRate m = zero)
  /\ (isZero (totalPlays m) = true -> avgPlayTime m = zero).
Proof.
  cbv zeta.
  cbn [clickRate playRate avgPlayTime totalInvites totalClicks totalPlays totalPlayTime
         calculateCommunityMetrics].
  rewrite !truthy_guard.
  repeat split; try reflexivity.
  - apply Forall_forall. intros d Hd. unfold Object_values in Hd.
    apply in_map_iff in Hd as [[k d'] [E Hin]]. simpl in E. subst d'.
    apply (Permutation_in _ (Object_entries_perm _)) in Hin.
    rewrite calculateStageBreakdown_eq in Hin.
    apply mapValues_In in Hin as [d0 [_ ->]].
    unfold setAverage. cbn [StageMetrics.avgPlayTime StageMetrics.plays StageMetrics.playTime].
    rewrite truthy_guard. reflexivity.
  - unfold guarded. intros ->. reflexivity.
  - unfold guarded. intros ->. reflexivity.
  - unfold guarded. intros ->. reflexivity.
Qed.

(** ** Insight generation *)

Section Insights.

Variable toFixed1 : number -> string.

Lemma generateInsights_eq (m : CommunityMetrics) :
  generateInsights toFixed1 m =
  (bestStage <- reduce1 betterStage (Object_entries (stageBreakdown m)) ;;
   Ok (clickInsight toFixed1 m ++ watchInsight toFixed1 m ++ [strongestMessage (fst bestStage)])).
Proof.
  unfold generateInsights, clickInsight, watchInsight, pushIf.
  destruct (reduce1 _ _) as [best | e]; [| reflexivity]. cbn [bind].
  destruct (gt (clickRate m) (ofZ 50)), (lt (clickRate m) (ofZ 30)),
    (gt (avgPlayTime m) (ofZ 5)); reflexivity.
Qed.

Lemma prefix_strong x :
  prefix strongPrefix (strongMessage toFixed1 x) = true
  /\ prefix opportunityPrefix (strongMessage toFixed1 x) = false
  /\ prefix watchTimePrefix (strongMessage toFixed1 x) = false
  /\ prefix strongestPrefix (strongMessage toFixed1 x) = false.
Proof. repeat split; reflexivity. Qed.

Lemma prefix_opportunity x :
  prefix strongPrefix (opportunityMessage toFixed1 x) = false
  /\ prefix opportunityPrefix (opportunityMessage toFixed1 x) = true
  /\ prefix watchTimePrefix (opportunityMessage toFixed1 x) = false
  /\ prefix strongestPrefix (opportunityMessage toFixed1 x) = false.
Proof. repeat split; reflexivity. Qed.

Lemma prefix_watchTime x :
  prefix strongPrefix (watchTimeMessage toFixed1 x) = false
  /\ prefix opportunityPrefix (watchTimeMessage toFixed1 x) = false
  /\ prefix watchTimePrefix (watchTimeMessage toFixed1 x) = true
  /\ prefix strongestPrefix (watchTimeMessage toFixed1 x) = false.
Proof. repeat split; reflexivity. Qed.

Lemma prefix_strongest stage :
  prefix strongPrefix (strongestMessage stage) = false
  /\ prefix opportunityPrefix (strongestMessage stage) = false
  /\ prefix watchTimePrefix (strongestMessage stage) = false
  /\ prefix strongestPrefix (strongestMessage stage) = true.
Proof. repeat split; try reflexivity. destruct stage; reflexivity. Qed.

End Insights.

Lemma emits_app kind (a b : list string) :
  emits kind (a ++ b) <-> emits kind a \/ emits kind b.
Proof.
  unfold emits. split.
  - intros [s [Hin Hp]]. apply in_app_or in Hin as [Hin | Hin];
      [left | right]; exists s; split; assumption.
  - intros [[s [Hin Hp]] | [s [Hin Hp]]]; exists s; split; try assumption;
      apply in_or_app; [left | right]; assumption.
Qed.

Lemma emits_single kind (s : string) : emits kind [s] <-> prefix kind s = true.
Proof.
  unfold emits. split.
  - intros [s' [[<- | []] Hp]]. exact Hp.
  - intros Hp. exists s. split; [left; reflexivity | exact Hp].
Qed.

Lemma emits_nil kind : ~ emits kind [].
Proof. intros [s [[] _]]. Qed.

Lemma lt_30_not_gt_50 (x : number) : lt x (ofZ 30) = true -> gt x (ofZ 50) = false.
Proof.
  intros H. unfold gt. destruct (lt (ofZ 50) x) eqn:E; [| reflexivity].
  pose proof (lt_trans _ _ _ E H) as F. vm_compute in F. discriminate F.
Qed.

Lemma ge_true_not_lt (x y : number) : ge x y = true -> lt x y = false.
Proof.
  destruct x, y; simpl; intros H; try discriminate H; try reflexivity.
  apply negb_true_iff. exact H.
Qed.

Lemma fold_betterStage l : forall earlier best later,
  (forall e, In e (earlier ++ best :: later) -> gt (playsOf e) (playsOf best) = false) ->
  (forall e, In e earlier -> ge (playsOf e) (playsOf best) = false) ->
  isBest (earlier ++ best :: later ++ l) (fold_left betterStage l best).
Proof.
  induction l as [| c l IH]; intros earlier best later Hmax Hfirst; cbn [fold_left].
  - rewrite app_nil_r. exists earlier, later. repeat split; assumption.
  - unfold betterStage at 2. fold (playsOf c) (playsOf best).
    destruct (gt (playsOf c) (playsOf best)) eqn:E.
    + replace (earlier ++ best :: later ++ c :: l)
        with ((earlier ++ best :: later) ++ c :: [] ++ l)
        by (rewrite <- app_assoc; reflexivity).
      apply IH.
      * intros e He. apply in_app_or in He as [He | [<- | []]].
        -- unfold gt in *. apply lt_false_above with (b := playsOf best);
             [apply Hmax; exact He | exact E].
        -- apply lt_irrefl.
      * intros e He. unfold gt in *.
        apply ge_false_above with (b := playsOf best); [apply Hmax; exact He | exact E].
    + replace (earlier ++ best :: later ++ c :: l)
        with (earlier ++ best :: (later ++ [c]) ++ l)
        by (rewrite <- app_assoc; reflexivity).
      apply IH; [| exact Hfirst].
      intros e He. rewrite app_comm_cons, app_assoc in He.
      apply in_app_or in He as [He | [<- | []]]; [apply Hmax; exact He | exact E].
Qed.

Lemma reduce1_betterStage (l : list (string * StageMetrics.t)) :
  l <> [] -> exists best, reduce1 betterStage l = Ok best /\ isBest l best.
Proof.
  destruct l as [| x r]; [contradiction |]. intros _.
  exists (fold_left betterStage r x). split; [reflexivity |].
  apply (fold_betterStage r [] x []).
  - intros e [<- | []]. apply lt_irrefl.
  - intros e [].
Qed.

(** C5, as stated, fails on the metrics of a community whose rows all have a
    stage named like a member of [Object.prototype]: the stage breakdown is
    empty, the click rate is 60, above 50, yet no message is emitted,
    because the reduction over the stages throws. *)
Lemma generateInsights_empty_breakdown :
  let m := calculateCommunityMetrics inheritedStage in
  stageBreakdown m = []
  /\ number_eqb (clickRate m) (ofZ 60) = true
  /\ gt (clickRate m) (ofZ 50) = true
  /\ generateInsights toFixed1_exact m = Throw TypeError.
Proof. cbv zeta. repeat split; vm_compute; reflexivity. Qed.

(** C5, amended: for every CommunityMetrics value with a non-empty stage
    breakdown, [generateInsights] returns its messages in rule order (click
    rate, watch time, strongest stage); the strong-initial-engagement
    message is among them iff [clickRate > 50], the opportunity message iff
    [clickRate < 30], neither when [clickRate] lies in [30, 50], and the
    excellent-watch-time message iff [avgPlayTime > 5]. *)
Theorem generateInsights_rules (toFixed1 : number -> string) (m : CommunityMetrics) :
  stageBreakdown m <> [] ->
  exists l stage,
    generateInsights toFixed1 m = Ok l
    /\ l = clickInsight toFixed1 m ++ watchInsight toFixed1 m ++ [strongestMessage stage]
    /\ (emits strongPrefix l <-> gt (clickRate m) (ofZ 50) = true)
    /\ (emits opportunityPrefix l <-> lt (clickRate m) (ofZ 30) = true)
    /\ (ge (clickRate m) (ofZ 30) = true /\ ge (ofZ 50) (clickRate m) = true ->
        ~ emits strongPrefix l /\ ~ emits opportunityPrefix l)
    /\ (emits watchTimePrefix l <-> gt (avgPlayTime m) (ofZ 5) = true).
Proof.
  intros Hne. rewrite generateInsights_eq.
  destruct (reduce1_betterStage (Object_entries_not_nil Hne)) as [best [-> _]].
  cbn [bind]. eexists. exists (fst best). split; [reflexivity |]. split; [reflexivity |].
  assert (Hclick :
    (emits strongPrefix (clickInsight toFixed1 m) <-> gt (clickRate m) (ofZ 50) = true)
    /\ (emits opportunityPrefix (clickInsight toFixed1 m) <-> lt (clickRate m) (ofZ 30) = true)
    /\ ~ emits watchTimePrefix (clickInsight toFixed1 m)).
  { unfold clickInsight.
    destruct (gt (clickRate m) (ofZ 50)) eqn:E1; [| destruct (lt (clickRate m) (ofZ 30)) eqn:E2].
    - destruct (lt (clickRate m) (ofZ 30)) eqn:E2;
        [apply lt_30_not_gt_50 in E2; rewrite E2 in E1; discriminate E1 |].
      rewrite !emits_single.
      destruct (prefix_strong toFixed1 (clickRate m)) as [-> [-> [-> _]]].
      repeat split; intros; try reflexivity; try discriminate.
    - rewrite !emits_single.
      destruct (prefix_opportunity toFixed1 (clickRate m)) as [-> [-> [-> _]]].
      repeat split; intros; try reflexivity; try discriminate.
    - repeat split; intros H; try discriminate H; exfalso; exact (emits_nil H). }
  assert (Hwatch :
    ~ emits strongPrefix (watchInsight toFixed1 m)
    /\ ~ emits opportunityPrefix (watchInsight toFixed1 m)
    /\ (emits watchTimePrefix (watchInsight toFixed1 m) <-> gt (avgPlayTime m) (ofZ 5) = true)).
  { unfold watchInsight. destruct (gt (avgPlayTime m) (ofZ 5)).
    - rewrite !emits_single.
      destruct (prefix_watchTime toFixed1 (avgPlayTime m)) as [-> [-> [-> _]]].
      repeat split; intros; try reflexivity; try discriminate.
    - repeat split; intros H; try discriminate H; exfalso; exact (emits_nil H). }
  assert (Hlast :
    ~ emits strongPrefix [strongestMessage (fst best)]
    /\ ~ emits opportunityPrefix [strongestMessage (fst best)]
    /\ ~ emits watchTimePrefix [strongestMessage (fst best)]).
  { rewrite !emits_single.
    destruct (prefix_strongest (fst best)) as [-> [-> [-> _]]].
    repeat split; discriminate. }
  destruct Hclick as [C1 [C2 C3]], Hwatch as [W1 [W2 W3]], Hlast as [L1 [L2 L3]].
  rewrite !emits_app.
  split; [tauto |]. split; [tauto |]. split; [| tauto].
  intros [G1 G2]. apply ge_true_not_lt in G1, G2. unfold gt in *.
  rewrite G2 in C1. rewrite G1 in C2.
  split; intros [H | [H | H]]; try tauto;
    [apply C1 in H | apply C2 in H]; discriminate H.
Qed.

Lemma generateInsights_rules_witness :
  stageBreakdown (metricsOf (ofZ 60) (ofZ 80) (ofZ 6) [("S1"%string, newMetrics)]) <> []
  /\ exists l stage,
       generateInsights toFixed1_exact
         (metricsOf (ofZ 60) (ofZ 80) (ofZ 6) [("S1"%string, newMetrics)]) = Ok l
       /\ l = ["Strong initial engagement with 60.0% click rate";
               "Excellent average watch time of 6.0 minutes"]%string
              ++ [strongestMessage stage].
Proof.
  assert (H : stageBreakdown (metricsOf (ofZ 60) (ofZ 80) (ofZ 6) [("S1"%string, newMetrics)])
              <> []) by discriminate.
  split; [exact H |].
  destruct (@generateInsights_rules toFixed1_exact _ H) as [l [stage [E [El _]]]].
  exists l, stage. split; [exact E |]. exact El.
Defined.

Lemma countKind_app kind (a b : list string) :
  countKind kind (a ++ b) = (countKind kind a + countKind kind b)%nat.
Proof. unfold countKind. rewrite filter_app, length_app. reflexivity. Qed.

Lemma countKind_strongest_rules (toFixed1 : number -> string) (m : CommunityMetrics) :
  countKind strongestPrefix (clickInsight toFixed1 m) = 0%nat
  /\ countKind strongestPrefix (watchInsight toFixed1 m) = 0%nat.
Proof.
  unfold clickInsight, watchInsight, countKind.
  destruct (gt (clickRate m) (ofZ 50)), (lt (clickRate m) (ofZ 30)),
    (gt (avgPlayTime m) (ofZ 5)); split; reflexivity.
Qed.

Lemma ge_of_not_gt (x y : number) :
  isNaN x = false -> isNaN y = false -> gt y x = false -> ge x y = true.
Proof.
  unfold gt. destruct x, y; cbn [isNaN ge]; intros Hx Hy H;
    try discriminate Hx; try discriminate Hy; rewrite H; reflexivity.
Qed.

Lemma lt_of_not_ge (x y : number) :
  isNaN x = false -> isNaN y = false -> ge x y = false -> lt x y = true.
Proof.
  destruct x, y; cbn [isNaN ge]; intros Hx Hy H;
    try discriminate Hx; try discriminate Hy; apply negb_false_iff in H; exact H.
Qed.

(** C4, as stated, fails in two ways.  When the plays of the stage iterated
    first add up to [NaN] (an infinite and a negative infinite count), no
    comparison displaces it: the message names that stage, although the
    other stage has 5 plays.  And a community whose rows all have a stage
    named like a member of [Object.prototype] has an empty breakdown, on
    which the reduction throws: no message is emitted. *)
Lemma generateInsights_strongest_fails :
  let m := calculateCommunityMetrics nanPlays in
  map (fun e => (fst e, playsOf e)) (Object_entries (stageBreakdown m))
  = [("intro"%string, NaN); ("follow-up"%string, ofZ 5)]
  /\ generateInsights toFixed1_exact m
     = Ok [ "Opportunity to improve initial engagement (0.0% click rate)";
            "Strongest performance in intro stage" ]%string
  /\ generateInsights toFixed1_exact (calculateCommunityMetrics inheritedStage)
     = Throw TypeError.
Proof. cbv zeta. repeat split; vm_compute; reflexivity. Qed.

(** C4, amended: for a community with at least one record whose stage names
    no inherited member, [generateInsights] returns, and its messages end
    with the one strongest-performance message, so the sequence of insights
    is not empty; when no stage of the breakdown has [NaN] plays, the stage
    it names has the maximal plays of the breakdown, and is the earliest
    such stage in the iteration order of [Object.entries] (every stage
    iterated before it has strictly fewer plays). *)
Theorem generateInsights_strongest (toFixed1 : number -> string)
    (communityData : list ProcessedData) :
  Exists (fun row => isInherited (AutomationStage row) = false) communityData ->
  let m := calculateCommunityMetrics communityData in
  exists l earlier best later,
    generateInsights toFixed1 m = Ok l
    /\ Object_entries (stageBreakdown m) = earlier ++ best :: later
    /\ l = clickInsight toFixed1 m ++ watchInsight toFixed1 m
           ++ [strongestMessage (fst best)]
    /\ countKind strongestPrefix l = 1%nat
    /\ l <> []
    /\ (Forall (fun e => isNaN (playsOf e) = false) (Object_entries (stageBreakdown m)) ->
        (forall e, In e (Object_entries (stageBreakdown m)) ->
                   ge (playsOf best) (playsOf e) = true)
        /\ (forall e, In e earlier -> lt (playsOf e) (playsOf best) = true)).
Proof.
  intros Hne m.
  assert (Hs : stageBreakdown m <> []) by (apply calculateStageBreakdown_not_nil; exact Hne).
  destruct (reduce1_betterStage (Object_entries_not_nil Hs))
    as [best [E [earlier [later [Hl [Hmax Hfirst]]]]]].
  exists (clickInsight toFixed1 m ++ watchInsight toFixed1 m ++ [strongestMessage (fst best)]),
    earlier, best, later.
  split; [rewrite generateInsights_eq, E; reflexivity |].
  split; [exact Hl |]. split; [reflexivity |]. split; [| split].
  - rewrite !countKind_app.
    destruct (countKind_strongest_rules toFixed1 m) as [-> ->].
    unfold countKind. cbn [filter].
    destruct (prefix_strongest (fst best)) as [_ [_ [_ ->]]]. reflexivity.
  - intros H. apply app_eq_nil in H as [_ H]. apply app_eq_nil in H as [_ H]. discriminate H.
  - intros Hnan. rewrite Forall_forall in Hnan.
    assert (Hb : isNaN (playsOf best) = false).
    { apply Hnan. rewrite Hl. apply in_or_app. right. left. reflexivity. }
    split.
    + intros e He. apply ge_of_not_gt; [exact Hb | apply Hnan; exact He | apply Hmax; exact He].
    + intros e He. apply lt_of_not_ge; [| exact Hb | apply Hfirst; exact He].
      apply Hnan. rewrite Hl. apply in_or_app. left. exact He.
Qed.

Lemma generateInsights_strongest_witness :
  Exists (fun row => isInherited (AutomationStage row) = false) tiedStages
  /\ exists l earlier best later,
       generateInsights toFixed1_exact (calculateCommunityMetrics tiedStages) = Ok l
       /\ Object_entries (stageBreakdown (calculateCommunityMetrics tiedStages))
          = earlier ++ best :: later
       /\ l <> [].
Proof.
  assert (H : Exists (fun row => isInherited (AutomationStage row) = false) tiedStages)
    by (left; reflexivity).
  split; [exact H |].
  destruct (@generateInsights_strongest toFixed1_exact _ H)
    as [l [earlier [best [later [E [El [_ [_ [Hl _]]]]]]]]].
  exists l, earlier, best, later. split; [exact E |]. split; [exact El | exact Hl].
Defined.

Example generateInsights_tie :
  generateInsights toFixed1_exact (calculateCommunityMetrics tiedStages)
  = Ok [ "Strongest performance in 1 stage" ]%string.
Proof. vm_compute. reflexivity. Qed.

(** The boundaries of the click-rate rule: 30 and 50 fire neither message,
    29.9 fires the opportunity message and 50.1 the strong one. *)
Example generateInsights_boundaries :
  map (fun rate =>
         generateInsights toFixed1_exact
           (metricsOf rate (ofZ 0) (ofZ 0) [("S"%string, newMetrics)]))
      [ofZ 30; ofZ 50; ofQ (299 # 10); ofQ (501 # 10)]
  = [ Ok ["Strongest performance in S stage"];
      Ok ["Strongest performance in S stage"];
      Ok ["Opportunity to improve initial engagement (29.9% click rate)";
          "Strongest performance in S stage"];
      Ok ["Strong initial engagement with 50.1% click rate";
          "Strongest performance in S stage"] ]%string.
Proof. vm_compute. reflexivity. Qed.

(** ** Monthly trends and the report *)

Lemma forEach_returns {A S : Type} (f : S -> A -> result S) (l : list A) : forall s,
  (forall s x, In x l -> returns (f s x)) -> returns (forEach f l s).
Proof.
  induction l as [| x r IH]; intros s H; cbn [forEach].
  - exists s. reflexivity.
  - destruct (H s x (or_introl eq_refl)) as [s' ->]. cbn [bind].
    apply IH. intros s0 y Hy. apply H. right. exact Hy.
Qed.

Lemma calculateMonthlyTrends_eq (this : VideoEngagementAnalyzer) :
  calculateMonthlyTrends this
  = (monthlyData <- forEach monthStep (processedData this) [] ;;
     Ok (averageAll monthlyData)).
Proof. reflexivity. Qed.

Lemma forEach_monthStep_throws (l : list ProcessedData) : forall s,
  (exists row, In row l /\ TrackingDateFormatted row = InvalidDate) ->
  forEach monthStep l s = Throw RangeError.
Proof.
  induction l as [| x r IH]; intros s [row [Hin Hrow]]; [destruct Hin |].
  cbn [forEach]. unfold monthStep at 1.
  destruct (TrackingDateFormatted x) as [| t] eqn:E; [reflexivity |].
  cbn [toISOString bind]. apply IH. exists row. split; [| exact Hrow].
  destruct Hin as [-> | Hin]; [| exact Hin].
  rewrite Hrow in E. discriminate E.
Qed.

Lemma forEach_monthStep_returns (l : list ProcessedData) (s : obj StageMetrics.t) :
  (forall row, In row l -> TrackingDateFormatted row <> InvalidDate) ->
  returns (forEach monthStep l s).
Proof.
  intros H. apply forEach_returns. intros s0 x Hx. unfold monthStep.
  destruct (TrackingDateFormatted x) as [| t] eqn:E; [exfalso; exact (H x Hx E) |].
  eexists. reflexivity.
Qed.

Lemma distinct_In (l : list string) (x : string) : In x (distinct l) -> In x l.
Proof.
  induction l as [| y r IH]; simpl; [intros [] |].
  intros [-> | H]; [left; reflexivity |].
  apply filter_In in H as [H _]. right. exact (IH H).
Qed.

Lemma In_distinct (l : list string) (x : string) : In x l -> In x (distinct l).
Proof.
  induction l as [| y r IH]; simpl; [intros [] |].
  destruct (String.eqb_spec x y) as [-> | Hne]; [left; reflexivity |].
  intros [E | H]; [exfalso; apply Hne; symmetry; exact E |].
  right. apply filter_In. split; [exact (IH H) |].
  apply negb_true_iff. apply String.eqb_neq. exact Hne.
Qed.

Lemma distinct_NoDup (l : list string) : NoDup (distinct l).
Proof.
  induction l as [| y r IH]; simpl; constructor.
  - intros H. apply filter_In in H as [_ H].
    rewrite String.eqb_refl in H. discriminate H.
  - apply NoDup_filter. exact IH.
Qed.

Lemma communityData_not_nil (pd : list ProcessedData) (community : string) :
  In community (distinct (map Community pd)) ->
  filter (fun row => String.eqb (Community row) community) pd <> [].
Proof.
  intros H. apply distinct_In in H. apply in_map_iff in H as [row [E Hin]].
  intros Hnil.
  assert (Hf : In row (filter (fun row => String.eqb (Community row) community) pd)).
  { apply filter_In. split; [exact Hin |]. rewrite E. apply String.eqb_refl. }
  rewrite Hnil in Hf. destruct Hf.
Qed.

Lemma generateInsights_returns (toFixed1 : number -> string) (d : list ProcessedData) :
  Exists (fun row => isInherited (AutomationStage row) = false) d ->
  returns (generateInsights toFixed1 (calculateCommunityMetrics d)).
Proof.
  intros H. rewrite generateInsights_eq.
  assert (Hs : stageBreakdown (calculateCommunityMetrics d) <> [])
    by (apply calculateStageBreakdown_not_nil; exact H).
  destruct (reduce1_betterStage (Object_entries_not_nil Hs)) as [best [-> _]].
  eexists. reflexivity.
Qed.

Lemma communityData_staged (Date_parse : string -> Date) (data : list EngagementData)
    (community : string) :
  stagedCommunities data ->
  In community (distinct (map Community (preprocessData Date_parse data))) ->
  Exists (fun row => isInherited (AutomationStage row) = false)
         (filter (fun row => String.eqb (Community row) community)
                 (preprocessData Date_parse data)).
Proof.
  intros H Hc. apply distinct_In, in_map_iff in Hc as [p [Ep Hp]].
  apply in_map_iff in Hp as [row [<- Hrow]].
  destruct (H row Hrow) as [row' [Hin [Ec Es]]].
  apply Exists_exists. exists (preprocessRow Date_parse row'). split; [| exact Es].
  apply filter_In. split; [apply in_map; exact Hin |].
  cbn [Community preprocessRow] in *. rewrite Ec, Ep. apply String.eqb_refl.
Qed.

Lemma preprocessData_invalid (Date_parse : string -> Date) (data : list EngagementData) :
  (exists row, In row data /\ Date_parse (rawTrackingDateFormatted row) = InvalidDate) ->
  exists p, In p (preprocessData Date_parse data) /\ TrackingDateFormatted p = InvalidDate.
Proof.
  intros [row [Hin E]]. exists (preprocessRow Date_parse row).
  split; [apply in_map; exact Hin | exact E].
Qed.

Lemma preprocessData_valid (Date_parse : string -> Date) (data : list EngagementData) :
  (forall row, In row data -> Date_parse (rawTrackingDateFormatted row) <> InvalidDate) ->
  forall p, In p (preprocessData Date_parse data) -> TrackingDateFormatted p <> InvalidDate.
Proof.
  intros H p Hp. apply in_map_iff in Hp as [row [<- Hin]]. exact (H row Hin).
Qed.

(** C2, as stated, fails: a tracking date that does not parse makes the
    monthly-key extraction throw, and [analyze] with it.  The analyzer also
    throws on a row whose dates parse, when the only stage of a community
    is named like a member of [Object.prototype]. *)
Lemma analyze_unparsable_date_throws :
  let this :=
    newAnalyzer Date_parse_iso
      [exampleRow "not a date" (VNum (ofZ 100)) (VNum (ofZ 60)) (VNum (ofZ 40))
                  (VNum (ofZ 200)) "S1" "A"] in
  let that :=
    newAnalyzer Date_parse_iso
      [exampleRow "2024-01-01" (VNum (ofZ 100)) (VNum (ofZ 60)) (VNum (ofZ 40))
                  (VNum (ofZ 200)) "constructor" "A"] in
  map TrackingDateFormatted (processedData this) = [InvalidDate]
  /\ calculateMonthlyTrends this = Throw RangeError
  /\ analyze toFixed1_exact 1793620800000 this = Throw RangeError
  /\ map TrackingDateFormatted (processedData that) = [TimeValue 1704067200000]
  /\ analyze toFixed1_exact 1793620800000 that = Throw TypeError.
Proof. cbv zeta. repeat split; vm_compute; reflexivity. Qed.

(** C2, amended: for every input containing a record whose tracking-date
    text does not parse as a date, the monthly-key extraction of
    [calculateMonthlyTrends] raises a RangeError and [analyze] throws it;
    for every input whose tracking dates all parse,
    [calculateMonthlyTrends] returns, and [analyze] returns when every
    community has a record whose stage names no inherited member. *)
Theorem analyze_throws_iff_unparsable_date (Date_parse : string -> Date)
    (toFixed1 : number -> string) (now : Z) (data : list EngagementData) :
  ((exists row, In row data /\ Date_parse (rawTrackingDateFormatted row) = InvalidDate) ->
   calculateMonthlyTrends (newAnalyzer Date_parse data) = Throw RangeError
   /\ analyze toFixed1 now (newAnalyzer Date_parse data) = Throw RangeError)
  /\
  ((forall row, In row data -> Date_parse (rawTrackingDateFormatted row) <> InvalidDate) ->
   returns (calculateMonthlyTrends (newAnalyzer Date_parse data))
   /\ (stagedCommunities data ->
       returns (analyze toFixed1 now (newAnalyzer Date_parse data)))).
Proof.
  split.
  - intros H. apply preprocessData_invalid in H.
    assert (E : calculateMonthlyTrends (newAnalyzer Date_parse data) = Throw RangeError).
    { rewrite calculateMonthlyTrends_eq. cbn [processedData newAnalyzer].
      rewrite forEach_monthStep_throws by exact H. reflexivity. }
    split; [exact E |]. unfold analyze. rewrite E. reflexivity.
  - intros H. pose proof (preprocessData_valid _ _ H) as Hp.
    assert (E : returns (calculateMonthlyTrends (newAnalyzer Date_parse data))).
    { rewrite calculateMonthlyTrends_eq. cbn [processedData newAnalyzer].
      destruct (@forEach_monthStep_returns _ [] Hp) as [s ->]. eexists. reflexivity. }
    split; [exact E |]. intros Hs. destruct E as [trends E].
    unfold analyze. rewrite E. cbn [bind toISOString].
    apply forEach_returns. intros s community Hc.
    cbn [processedData newAnalyzer] in *.
    destruct (@generateInsights_returns toFixed1 _
                (@communityData_staged Date_parse data community Hs Hc)) as [l ->].
    eexists. reflexivity.
Qed.

Lemma analyze_throws_iff_unparsable_date_witness :
  (exists row,
      In row [exampleRow "2024-01-15" (VNum (ofZ 10)) (VNum (ofZ 5)) (VNum (ofZ 2))
                         (VNum (ofZ 7)) "S1" "A";
              exampleRow "15/01/2024" (VNum (ofZ 10)) (VNum (ofZ 5)) (VNum (ofZ 2))
                         (VNum (ofZ 7)) "S1" "A"]
      /\ Date_parse_iso (rawTrackingDateFormatted row) = InvalidDate)
  /\ analyze toFixed1_exact 0
       (newAnalyzer Date_parse_iso
          [exampleRow "2024-01-15" (VNum (ofZ 10)) (VNum (ofZ 5)) (VNum (ofZ 2))
                      (VNum (ofZ 7)) "S1" "A";
           exampleRow "15/01/2024" (VNum (ofZ 10)) (VNum (ofZ 5)) (VNum (ofZ 2))
                      (VNum (ofZ 7)) "S1" "A"]) = Throw RangeError
  /\ returns (analyze toFixed1_exact 0 (newAnalyzer Date_parse_iso countRows)).
Proof.
  assert (H : exists row,
      In row [exampleRow "2024-01-15" (VNum (ofZ 10)) (VNum (ofZ 5)) (VNum (ofZ 2))
                         (VNum (ofZ 7)) "S1" "A";
              exampleRow "15/01/2024" (VNum (ofZ 10)) (VNum (ofZ 5)) (VNum (ofZ 2))
                         (VNum (ofZ 7)) "S1" "A"]
      /\ Date_parse_iso (rawTrackingDateFormatted row) = InvalidDate).
  { eexists. split; [right; left; reflexivity | reflexivity]. }
  split; [exact H |]. split.
  - exact (proj2 (proj1 (analyze_throws_iff_unparsable_date Date_parse_iso toFixed1_exact 0 _)
                    H)).
  - refine (proj2 (proj2 (analyze_throws_iff_unparsable_date Date_parse_iso toFixed1_exact 0
                            countRows) _) _).
    + intros row [<- | [<- | [<- | []]]]; discriminate.
    + intros row Hrow. exists row. split; [exact Hrow |]. split; [reflexivity |].
      destruct Hrow as [<- | [<- | [<- | []]]]; reflexivity.
Defined.

Lemma length_text (l : list ascii) : String.length (text l) = List.length l.
Proof. induction l as [| c r IH]; simpl; [reflexivity | rewrite IH; reflexivity]. Qed.

Lemma length_substring0 (n : nat) : forall s,
  String.length (substring 0 n s) = Nat.min n (String.length s).
Proof.
  induction n as [| n IH]; intros [| c s]; simpl; try reflexivity.
  rewrite IH. reflexivity.
Qed.

Lemma length_padDigits (n : nat) : forall k, List.length (padDigits n k) = n.
Proof.
  induction n as [| n IH]; intros k; simpl; [reflexivity |].
  rewrite length_app, IH. simpl. lia.
Qed.

Lemma length_isoChars (t : Z) : (24 <= List.length (isoChars t))%nat.
Proof.
  unfold isoChars. destruct (civilFromDays (t / msPerDay)) as [[y m] d].
  repeat (rewrite length_app || rewrite length_padDigits || cbn [List.length]).
  unfold isoYear. destruct ((0 <=? y) && (y <=? 9999));
    cbn [List.length]; rewrite length_padDigits; lia.
Qed.

(** C10: on the empty record sequence [analyze] returns, with no community
    insight, no strategy and no monthly trend, and with the analysis date:
    the first ten characters of the ISO text of the current time. *)
Theorem analyze_empty (Date_parse : string -> Date) (toFixed1 : number -> string) (now : Z) :
  analyze toFixed1 now (newAnalyzer Date_parse [])
  = Ok {| communityInsights := [];
          followUpStrategies := [];
          monthlyTrends := [];
          analysisDate := slice0 10 (text (isoChars now)) |}
  /\ String.length (slice0 10 (text (isoChars now))) = 10%nat.
Proof.
  split; [reflexivity |].
  unfold slice0. rewrite length_substring0, length_text.
  pose proof (length_isoChars now). lia.
Qed.

Example analyze_empty_date :
  analyze toFixed1_exact 1793620800123 (newAnalyzer Date_parse_iso [])
  = Ok {| communityInsights := []; followUpStrategies := []; monthlyTrends := [];
          analysisDate := "2026-11-02" |}.
Proof. reflexivity. Qed.

(** Rows of one month share a bucket; the next month opens a new one. *)
Example calculateMonthlyTrends_keys :
  option_map (map fst)
    (match calculateMonthlyTrends
             (newAnalyzer Date_parse_iso
                [exampleRow "2024-01-15" (VNum (ofZ 1)) (VNum (ofZ 1)) (VNum (ofZ 1))
                            (VNum (ofZ 1)) "S1" "A";
                 exampleRow "2024-01-28" (VNum (ofZ 1)) (VNum (ofZ 1)) (VNum (ofZ 1))
                            (VNum (ofZ 1)) "S2" "B";
                 exampleRow "2024-02-01" (VNum (ofZ 1)) (VNum (ofZ 1)) (VNum (ofZ 1))
                            (VNum (ofZ 1)) "S1" "A"]) with
     | Ok trends => Some trends
     | Throw _ => None
     end)
  = Some ["2024-01"; "2024-02"]%string.
Proof. vm_compute. reflexivity. Qed.

(** The scenario of the specification: the metrics of community A, its
    insights (no watch-time insight: 5 is not above 5), its strategies and
    the monthly bucket. *)
Example scenario_metrics :
  let m := calculateCommunityMetrics (preprocessData Date_parse_iso scenarioRows) in
  map (fun x => number_eqb (fst x) (snd x))
      [ (totalInvites m, ofZ 100); (totalClicks m, ofZ 60); (totalPlays m, ofZ 40);
        (totalPlayTime m, ofZ 200); (clickRate m, ofZ 60);
        (playRate m, ofQ (200 # 3)); (avgPlayTime m, ofZ 5) ]
  = [true; true; true; true; true; true; true].
Proof. vm_compute. reflexivity. Qed.

Example scenario_report :
  match analyze toFixed1_exact 1793620800123 (newAnalyzer Date_parse_iso scenarioRows) with
  | Ok r =>
      Some (map (fun e => (fst e, insights (snd e))) (communityInsights r),
            map (fun e => (fst e, map focus (snd e))) (followUpStrategies r),
            map fst (monthlyTrends r),
            analysisDate r)
  | Throw _ => None
  end
  = Some ([("A", ["Strong initial engagement with 60.0% click rate";
                  "Strongest performance in S1 stage"])],
          [("A", ["Increase Play Rate"])],
          ["2024-01"],
          "2026-11-02")%string.
Proof. vm_compute. reflexivity. Qed.

(** ** The texts that are numbers *)

Lemma isChar_true (k : Z) (c : ascii) :
  isChar k c = true -> c = ascii_of_N (Z.to_N k).
Proof.
  unfold isChar, code. intros H. apply Z.eqb_eq in H.
  rewrite <- H, N2Z.id. symmetry. apply ascii_N_embedding.
Qed.

(** Turns the boolean comparisons of the hypotheses into propositions. *)
Ltac zbool :=
  repeat match goal with
    | H : (_ && _) = true |- _ => apply andb_true_iff in H; destruct H
    | H : (_ && _) = false |- _ => apply andb_false_iff in H; destruct H
    | H : (_ || _) = true |- _ => apply orb_true_iff in H; destruct H
    | H : (_ || _) = false |- _ => apply orb_false_iff in H; destruct H
    | H : (_ <=? _) = true |- _ => apply Z.leb_le in H
    | H : (_ <=? _) = false |- _ => apply Z.leb_gt in H
    | H : (_ <? _) = true |- _ => apply Z.ltb_lt in H
    | H : (_ <? _) = false |- _ => apply Z.ltb_ge in H
    | H : (_ =? _) = true |- _ => apply Z.eqb_eq in H
    | H : (_ =? _) = false |- _ => apply Z.eqb_neq in H
    end.

Lemma digit_code (radix : Z) (c : ascii) :
  isDigitIn radix c = true ->
  48 <= code c <= 57 \/ 65 <= code c <= 70 \/ 97 <= code c <= 102.
Proof.
  unfold isDigitIn, digitValue. intros H.
  destruct ((48 <=? code c) && (code c <=? 57)) eqn:E1; [zbool; lia |].
  destruct ((97 <=? code c) && (code c <=? 102)) eqn:E2; [zbool; lia |].
  destruct ((65 <=? code c) && (code c <=? 70)) eqn:E3; [zbool; lia |].
  discriminate H.
Qed.

Lemma isDigitIn_10 (c : ascii) : isDigitIn 10 c = true <-> 48 <= code c <= 57.
Proof.
  unfold isDigitIn, digitValue. split; intros H.
  - destruct ((48 <=? code c) && (code c <=? 57)) eqn:E1; [zbool; lia |].
    destruct ((97 <=? code c) && (code c <=? 102)) eqn:E2; [zbool; lia |].
    destruct ((65 <=? code c) && (code c <=? 70)) eqn:E3; [zbool; lia |].
    discriminate H.
  - replace ((48 <=? code c) && (code c <=? 57)) with true.
    + apply Z.ltb_lt. lia.
    + symmetry. apply andb_true_iff. split; apply Z.leb_le; lia.
Qed.

Lemma digit_not_whiteSpace (radix : Z) (c : ascii) :
  isDigitIn radix c = true -> isWhiteSpace c = false.
Proof.
  intros H. apply digit_code in H. unfold isWhiteSpace.
  destruct (((9 <=? code c) && (code c <=? 13)) || (code c =? 32) || (code c =? 160)) eqn:E;
    [| reflexivity].
  zbool; lia.
Qed.

Lemma digit10_not_isChar (k : Z) (c : ascii) :
  isDigitIn 10 c = true -> k < 48 \/ 57 < k -> isChar k c = false.
Proof.
  intros H Hk. apply isDigitIn_10 in H. unfold isChar.
  apply Z.eqb_neq. lia.
Qed.

(** *** Runs *)

Lemma span_spec {A : Type} (p : A -> bool) (l : list A) : forall pre rest,
  span p l = (pre, rest) ->
  l = pre ++ rest
  /\ Forall (fun x => p x = true) pre
  /\ match rest with [] => True | x :: _ => p x = false end.
Proof.
  induction l as [| x r IH]; intros pre rest H; simpl in H.
  - injection H as <- <-. repeat split. constructor.
  - destruct (p x) eqn:E.
    + destruct (span p r) as [pre' rest'] eqn:Er. injection H as <- <-.
      destruct (IH pre' rest' eq_refl) as [-> [Hpre Hrest]].
      repeat split; [constructor; assumption | exact Hrest].
    + injection H as <- <-. repeat split; [constructor | exact E].
Qed.

Lemma span_app {A : Type} (p : A -> bool) (pre rest : list A) :
  Forall (fun x => p x = true) pre ->
  match rest with [] => True | x :: _ => p x = false end ->
  span p (pre ++ rest) = (pre, rest).
Proof.
  intros Hpre Hrest. induction Hpre as [| x pre Hx _ IH]; simpl.
  - destruct rest as [| y r]; [reflexivity |]. simpl. rewrite Hrest. reflexivity.
  - rewrite Hx, IH. reflexivity.
Qed.

Lemma nonEmpty_true {A : Type} (l : list A) : nonEmpty l = true <-> l <> [].
Proof. destruct l; simpl; split; intros H; try reflexivity; try discriminate; contradiction. Qed.

Lemma forallb_Forall {A : Type} (p : A -> bool) (l : list A) :
  forallb p l = true <-> Forall (fun x => p x = true) l.
Proof. rewrite forallb_forall, Forall_forall. reflexivity. Qed.

Lemma allDigits_digits (radix : Z) (l : list ascii) :
  allDigits radix l <> None <-> digits radix l.
Proof.
  unfold allDigits, digits. rewrite <- nonEmpty_true, <- forallb_Forall, <- andb_true_iff.
  destruct (nonEmpty l && forallb (isDigitIn radix) l); split; intros H;
    try discriminate; try reflexivity; contradiction.
Qed.

Lemma digits_head (radix : Z) (l : list ascii) :
  digits radix l -> exists c r, l = c :: r /\ isDigitIn radix c = true.
Proof.
  intros [Hne Hall]. destruct l as [| c r]; [contradiction |].
  exists c, r. split; [reflexivity | exact (Forall_inv Hall)].
Qed.

Lemma option_map_not_None {A B : Type} (f : A -> B) (o : option A) :
  option_map f o <> None <-> o <> None.
Proof.
  destruct o; simpl; split; intros H; try discriminate; exfalso; apply H; reflexivity.
Qed.

(** *** The parser accepts exactly the grammar *)

Lemma parseSignedInteger_spec (l : list ascii) :
  parseSignedInteger l <> None <-> SignedInteger l.
Proof.
  split.
  - destruct l as [| c r]; [intros H; contradiction |]. cbn [parseSignedInteger].
    destruct (isChar 43 c) eqn:E43; [| destruct (isChar 45 c) eqn:E45].
    + apply isChar_true in E43. subst c. intros H.
      apply SI_plus. apply allDigits_digits. exact H.
    + apply isChar_true in E45. subst c. intros H.
      apply SI_minus. apply allDigits_digits. apply option_map_not_None in H. exact H.
    + intros H. apply SI_digits. apply allDigits_digits. exact H.
  - intros [ds Hd | ds Hd | ds Hd].
    + destruct (digits_head Hd) as [c [r [-> Hc]]]. cbn [parseSignedInteger].
      rewrite !(digit10_not_isChar _ Hc) by lia. apply allDigits_digits. exact Hd.
    + cbn. apply allDigits_digits. exact Hd.
    + cbn. apply option_map_not_None. apply allDigits_digits. exact Hd.
Qed.

Lemma isExponentIndicator_true (c : ascii) :
  isExponentIndicator c = true <-> c = "e"%char \/ c = "E"%char.
Proof.
  unfold isExponentIndicator. rewrite orb_true_iff. split.
  - intros [H | H]; apply isChar_true in H; [left | right]; exact H.
  - intros [-> | ->]; [left | right]; reflexivity.
Qed.

Lemma parseExponent_spec (l : list ascii) :
  parseExponent l <> None <-> optional ExponentPart l.
Proof.
  split.
  - destruct l as [| c r]; [intros _; left; reflexivity |]. cbn [parseExponent].
    destruct (isExponentIndicator c) eqn:E; [| intros H; contradiction].
    intros H. apply parseSignedInteger_spec in H. right.
    apply isExponentIndicator_true in E as [-> | ->]; [apply EP_lower | apply EP_upper]; exact H.
  - intros [-> | [si H | si H]]; [discriminate | |]; cbn;
      apply parseSignedInteger_spec; exact H.
Qed.

(** The first character of an optional exponent part is not a decimal
    digit and not the decimal point. *)
Lemma exponent_head (ep : list ascii) :
  optional ExponentPart ep ->
  match ep with [] => True | c :: _ => isDigitIn 10 c = false end
  /\ afterDot ep = None.
Proof. intros [-> | [si _ | si _]]; split; reflexivity || exact I. Qed.

Lemma optional_digits_Forall (fp : list ascii) :
  optional (digits 10) fp -> Forall (fun c => isDigitIn 10 c = true) fp.
Proof. intros [-> | [_ H]]; [constructor | exact H]. Qed.

Lemma afterDot_Some (l r : list ascii) : afterDot l = Some r -> l = "."%char :: r.
Proof.
  destruct l as [| c l']; [discriminate |]. simpl.
  destruct (isChar 46 c) eqn:E; [| discriminate].
  intros H. injection H as ->. apply isChar_true in E. rewrite E. reflexivity.
Qed.

Lemma parseUnsignedDecimal_sound (l : list ascii) :
  parseUnsignedDecimal l <> None -> StrUnsignedDecimalLiteral l.
Proof.
  unfold parseUnsignedDecimal.
  destruct (span (isDigitIn 10) l) as [ip r1] eqn:E1.
  destruct (span_spec _ _ E1) as [-> [Hip _]].
  destruct (afterDot r1) as [r |] eqn:Ed.
  - apply afterDot_Some in Ed. subst r1.
    destruct (span (isDigitIn 10) r) as [fp r2] eqn:E2.
    destruct (span_spec _ _ E2) as [-> [Hfp _]].
    destruct (nonEmpty ip || nonEmpty fp) eqn:Ene; [| intros H; contradiction].
    intros H. apply option_map_not_None, parseExponent_spec in H.
    destruct ip as [| c ip'].
    + simpl in Ene. apply nonEmpty_true in Ene.
      apply UDL_fraction; [split; assumption | exact H].
    + apply UDL_point; [split; [discriminate | exact Hip] | | exact H].
      destruct fp as [| d fp']; [left; reflexivity | right; split; [discriminate | exact Hfp]].
  - destruct (nonEmpty ip) eqn:Ene; [| intros H; contradiction].
    intros H. apply option_map_not_None, parseExponent_spec in H.
    apply nonEmpty_true in Ene. apply UDL_integer; [split; assumption | exact H].
Qed.

Lemma parseUnsignedDecimal_point (ip fp ep : list ascii) :
  digits 10 ip -> optional (digits 10) fp -> optional ExponentPart ep ->
  parseUnsignedDecimal (ip ++ "."%char :: fp ++ ep) <> None.
Proof.
  intros [Hne Hip] Hfp Hep. unfold parseUnsignedDecimal.
  rewrite (span_app (isDigitIn 10) ("."%char :: fp ++ ep) Hip) by reflexivity.
  cbn [afterDot]. change (isChar 46 ".") with true. cbv iota.
  rewrite (span_app (isDigitIn 10) ep (optional_digits_Forall Hfp))
    by (apply exponent_head; exact Hep).
  apply nonEmpty_true in Hne. rewrite Hne. cbn [orb].
  apply option_map_not_None, parseExponent_spec. exact Hep.
Qed.

Lemma parseUnsignedDecimal_fraction (fp ep : list ascii) :
  digits 10 fp -> optional ExponentPart ep ->
  parseUnsignedDecimal ("."%char :: fp ++ ep) <> None.
Proof.
  intros [Hne Hfp] Hep. unfold parseUnsignedDecimal.
  cbn [span]. change (isDigitIn 10 ".") with false. cbv iota.
  cbn [afterDot]. change (isChar 46 ".") with true. cbv iota.
  rewrite (span_app (isDigitIn 10) ep Hfp) by (apply exponent_head; exact Hep).
  apply nonEmpty_true in Hne. rewrite Hne. cbn [nonEmpty orb].
  apply option_map_not_None, parseExponent_spec. exact Hep.
Qed.

Lemma parseUnsignedDecimal_integer (ip ep : list ascii) :
  digits 10 ip -> optional ExponentPart ep ->
  parseUnsignedDecimal (ip ++ ep) <> None.
Proof.
  intros [Hne Hip] Hep. unfold parseUnsignedDecimal.
  rewrite (span_app (isDigitIn 10) ep Hip) by (apply exponent_head; exact Hep).
  rewrite (proj2 (exponent_head Hep)).
  apply nonEmpty_true in Hne. rewrite Hne.
  apply option_map_not_None, parseExponent_spec. exact Hep.
Qed.

Lemma parseUnsigned_spec (l : list ascii) :
  isNaN (parseUnsigned l) = false <-> StrUnsignedDecimalLiteral l.
Proof.
  unfold parseUnsigned. split.
  - destruct (list_eq_dec ascii_dec l (chars "Infinity")) as [-> | _];
      [intros _; apply UDL_Infinity |].
    destruct (parseUnsignedDecimal l) eqn:E; [| discriminate].
    intros _. apply parseUnsignedDecimal_sound. rewrite E. discriminate.
  - intros H.
    destruct (list_eq_dec ascii_dec l (chars "Infinity")) as [_ | Hne]; [reflexivity |].
    assert (Hp : parseUnsignedDecimal l <> None).
    { destruct H as [| ip fp ep Hip Hfp Hep | fp ep Hfp Hep | ip ep Hip Hep].
      - exfalso. apply Hne. reflexivity.
      - apply parseUnsignedDecimal_point; assumption.
      - apply parseUnsignedDecimal_fraction; assumption.
      - apply parseUnsignedDecimal_integer; assumption. }
    destruct (parseUnsignedDecimal l); [reflexivity | contradiction].
Qed.

(** An unsigned decimal literal does not start with a sign. *)
Lemma unsigned_head (l : list ascii) :
  StrUnsignedDecimalLiteral l ->
  exists c r, l = c :: r /\ isChar 43 c = false /\ isChar 45 c = false.
Proof.
  intros [| ip fp ep Hip _ _ | fp ep _ _ | ip ep Hip _].
  - eexists _, _. repeat split.
  - destruct (digits_head Hip) as [c [r [-> Hc]]]. exists c, (r ++ "."%char :: fp ++ ep).
    repeat split; apply (digit10_not_isChar _ Hc); lia.
  - eexists _, _. repeat split.
  - destruct (digits_head Hip) as [c [r [-> Hc]]]. exists c, (r ++ ep).
    repeat split; apply (digit10_not_isChar _ Hc); lia.
Qed.

Lemma isNaN_neg (x : number) : isNaN (neg x) = isNaN x.
Proof. destruct x; reflexivity. Qed.

Lemma parseDecimal_spec (l : list ascii) :
  isNaN (parseDecimal l) = false <-> StrDecimalLiteral l.
Proof.
  split.
  - destruct l as [| c r]; [discriminate |]. cbn [parseDecimal].
    destruct (isChar 43 c) eqn:E43; [| destruct (isChar 45 c) eqn:E45].
    + apply isChar_true in E43. subst c. intros H.
      apply DL_plus, parseUnsigned_spec. exact H.
    + apply isChar_true in E45. subst c. rewrite isNaN_neg. intros H.
      apply DL_minus, parseUnsigned_spec. exact H.
    + intros H. apply DL_unsigned, parseUnsigned_spec. exact H.
  - intros [l' H | l' H | l' H].
    + destruct (unsigned_head H) as [c [r [-> [E43 E45]]]].
      cbn [parseDecimal]. rewrite E43, E45. apply parseUnsigned_spec. exact H.
    + cbn. apply parseUnsigned_spec. exact H.
    + cbn. rewrite isNaN_neg. apply parseUnsigned_spec. exact H.
Qed.

Lemma radixOf_Some (c : ascii) (radix : Z) :
  radixOf c = Some radix ->
  (radix = 16 /\ (c = "x"%char \/ c = "X"%char))
  \/ (radix = 8 /\ (c = "o"%char \/ c = "O"%char))
  \/ (radix = 2 /\ (c = "b"%char \/ c = "B"%char)).
Proof.
  unfold radixOf.
  destruct (isChar 120 c) eqn:E1; [apply isChar_true in E1; intros H; injection H as <-; tauto |].
  destruct (isChar 88 c) eqn:E2; [apply isChar_true in E2; intros H; injection H as <-; tauto |].
  destruct (isChar 111 c) eqn:E3; [apply isChar_true in E3; intros H; injection H as <-; tauto |].
  destruct (isChar 79 c) eqn:E4; [apply isChar_true in E4; intros H; injection H as <-; tauto |].
  destruct (isChar 98 c) eqn:E5; [apply isChar_true in E5; intros H; injection H as <-; tauto |].
  destruct (isChar 66 c) eqn:E6; [apply isChar_true in E6; intros H; injection H as <-; tauto |].
  discriminate.
Qed.

(** A text that starts like a binary, octal or hexadecimal literal is not a
    decimal literal. *)
Lemma parseDecimal_radix_prefix (c : ascii) (ds : list ascii) (radix : Z) :
  radixOf c = Some radix -> parseDecimal ("0"%char :: c :: ds) = NaN.
Proof.
  intros H. apply radixOf_Some in H.
  destruct H as [[_ [-> | ->]] | [[_ [-> | ->]] | [_ [-> | ->]]]];
    cbn [parseDecimal]; change (isChar 43 "0") with false; change (isChar 45 "0") with false;
    cbv iota; unfold parseUnsigned;
    (destruct (list_eq_dec ascii_dec _ (chars "Infinity")) as [E | _]; [discriminate E |]);
    reflexivity.
Qed.

Lemma parseRadix_spec (radix : Z) (ds : list ascii) :
  isNaN (parseRadix radix ds) = false <-> digits radix ds.
Proof.
  unfold parseRadix. rewrite <- allDigits_digits.
  destruct (allDigits radix ds); split; intros H;
    try reflexivity; try discriminate; contradiction.
Qed.

Lemma parseNumeric_spec (l : list ascii) :
  isNaN (parseNumeric l) = false <-> StrNumericLiteral l.
Proof.
  split.
  - destruct l as [| z [| c ds]]; cbn [parseNumeric];
      try (intros H; apply NL_decimal, parseDecimal_spec; exact H).
    destruct (isChar 48 z) eqn:Ez;
      [| intros H; apply NL_decimal, parseDecimal_spec; exact H].
    destruct (radixOf c) as [radix |] eqn:Er;
      [| intros H; apply NL_decimal, parseDecimal_spec; exact H].
    apply isChar_true in Ez. subst z. intros H. apply parseRadix_spec in H.
    apply NL_nonDecimal. apply radixOf_Some in Er.
    destruct Er as [[-> Hc] | [[-> Hc] | [-> Hc]]];
      [apply NDL_hex | apply NDL_octal | apply NDL_binary]; assumption.
  - intros [l' H | l' H].
    + pose proof (proj2 (parseDecimal_spec l') H) as Hd.
      destruct l' as [| z [| c ds]]; cbn [parseNumeric]; try exact Hd.
      destruct (isChar 48 z) eqn:Ez; [| exact Hd].
      destruct (radixOf c) as [radix |] eqn:Er; [| exact Hd].
      apply isChar_true in Ez. subst z.
      change (ascii_of_N (Z.to_N 48)) with "0"%char in Hd.
      rewrite (@parseDecimal_radix_prefix c ds radix Er) in Hd. discriminate Hd.
    + destruct H as [c ds [-> | ->] Hd | c ds [-> | ->] Hd | c ds [-> | ->] Hd];
        cbn; apply parseRadix_spec; exact Hd.
Qed.

(** *** White space *)

Lemma dropWhile_all {A : Type} (p : A -> bool) (ws l : list A) :
  Forall (fun x => p x = true) ws -> dropWhile p (ws ++ l) = dropWhile p l.
Proof.
  induction 1 as [| x ws Hx _ IH]; simpl; [reflexivity |]. rewrite Hx. exact IH.
Qed.

Lemma dropWhile_none {A : Type} (p : A -> bool) (l l' : list A) :
  Forall (fun x => p x = false) l -> l <> [] -> dropWhile p (l ++ l') = l ++ l'.
Proof.
  intros H Hne. destruct H as [| x l Hx _]; [contradiction |]. simpl. rewrite Hx. reflexivity.
Qed.

Lemma dropWhile_spec {A : Type} (p : A -> bool) (l : list A) :
  exists ws, l = ws ++ dropWhile p l /\ Forall (fun x => p x = true) ws.
Proof.
  induction l as [| x r [ws [E H]]]; simpl.
  - exists []. split; [reflexivity | constructor].
  - destruct (p x) eqn:Ex.
    + exists (x :: ws). split; [simpl; rewrite <- E; reflexivity | constructor; assumption].
    + exists []. split; [reflexivity | constructor].
Qed.

(** [trimChars] removes white space at both ends, and nothing else. *)
Lemma trimChars_decompose (l : list ascii) :
  exists ws1 ws2, l = ws1 ++ trimChars l ++ ws2 /\ whiteSpace ws1 /\ whiteSpace ws2.
Proof.
  unfold trimChars.
  destruct (dropWhile_spec isWhiteSpace l) as [ws1 [E1 H1]].
  destruct (dropWhile_spec isWhiteSpace (rev (dropWhile isWhiteSpace l))) as [ws2 [E2 H2]].
  exists ws1, (rev ws2). split; [| split; [exact H1 | apply Forall_rev; exact H2]].
  rewrite <- rev_app_distr, <- E2, rev_involutive. exact E1.
Qed.

Lemma trimChars_body (ws1 body ws2 : list ascii) :
  whiteSpace ws1 -> whiteSpace ws2 ->
  Forall (fun c => isWhiteSpace c = false) body ->
  trimChars (ws1 ++ body ++ ws2) = body.
Proof.
  intros H1 H2 Hb. unfold trimChars. rewrite dropWhile_all by exact H1.
  destruct body as [| c b].
  - simpl. rewrite <- (app_nil_r ws2) at 1. rewrite dropWhile_all by exact H2. reflexivity.
  - rewrite dropWhile_none by (exact Hb || discriminate).
    rewrite rev_app_distr. rewrite dropWhile_all by (apply Forall_rev; exact H2).
    rewrite <- (app_nil_r (rev (c :: b))).
    rewrite dropWhile_none.
    + rewrite app_nil_r. apply rev_involutive.
    + apply Forall_rev. exact Hb.
    + simpl. intros E. apply app_eq_nil in E as [_ E]. discriminate E.
Qed.

Lemma digits_noWhiteSpace (radix : Z) (l : list ascii) : digits radix l -> noWhiteSpace l.
Proof.
  intros [_ H]. unfold noWhiteSpace. eapply Forall_impl; [| exact H].
  intros c Hc. exact (digit_not_whiteSpace _ _ Hc).
Qed.

Lemma SignedInteger_noWhiteSpace (l : list ascii) : SignedInteger l -> noWhiteSpace l.
Proof.
  intros [ds H | ds H | ds H]; apply digits_noWhiteSpace in H;
    [exact H | |]; constructor; [reflexivity | exact H | reflexivity | exact H].
Qed.

Lemma ExponentPart_noWhiteSpace (l : list ascii) :
  optional ExponentPart l -> noWhiteSpace l.
Proof.
  intros [-> | [si H | si H]]; [constructor | |];
    (constructor; [reflexivity | apply SignedInteger_noWhiteSpace; exact H]).
Qed.

Lemma unsigned_noWhiteSpace (l : list ascii) :
  StrUnsignedDecimalLiteral l -> noWhiteSpace l.
Proof.
  intros [| ip fp ep Hip Hfp Hep | fp ep Hfp Hep | ip ep Hip Hep]; unfold noWhiteSpace.
  - repeat constructor.
  - apply Forall_app. split; [apply (digits_noWhiteSpace Hip) |].
    constructor; [reflexivity |]. apply Forall_app. split.
    + destruct Hfp as [-> | Hfp]; [constructor | apply (digits_noWhiteSpace Hfp)].
    + apply ExponentPart_noWhiteSpace. exact Hep.
  - constructor; [reflexivity |]. apply Forall_app. split.
    + apply (digits_noWhiteSpace Hfp).
    + apply ExponentPart_noWhiteSpace. exact Hep.
  - apply Forall_app. split; [apply (digits_noWhiteSpace Hip) |].
    apply ExponentPart_noWhiteSpace. exact Hep.
Qed.

Lemma literal_noWhiteSpace (l : list ascii) : StrNumericLiteral l -> noWhiteSpace l.
Proof.
  intros [l' [l'' H | l'' H | l'' H] | l' H].
  - apply unsigned_noWhiteSpace. exact H.
  - constructor; [reflexivity | apply unsigned_noWhiteSpace; exact H].
  - constructor; [reflexivity | apply unsigned_noWhiteSpace; exact H].
  - destruct H as [c ds [-> | ->] Hd | c ds [-> | ->] Hd | c ds [-> | ->] Hd];
      (constructor; [reflexivity |]); (constructor; [reflexivity |]);
      apply (digits_noWhiteSpace Hd).
Qed.

(** [Number(s)] is a number exactly when all of [s] is a numeric text. *)
Lemma StringToNumber_spec (s : string) :
  isNaN (StringToNumber s) = false <-> parsesAsNumber s.
Proof.
  unfold StringToNumber, parsesAsNumber, StringNumericLiteral. split.
  - intros H.
    destruct (trimChars_decompose (chars s)) as [ws1 [ws2 [E [H1 H2]]]].
    exists ws1, (trimChars (chars s)), ws2.
    split; [exact E |]. split; [exact H1 |]. split; [exact H2 |].
    destruct (trimChars (chars s)) as [| c r]; [left; reflexivity |].
    right. apply parseNumeric_spec. exact H.
  - intros [ws1 [body [ws2 [E [H1 [H2 Hb]]]]]]. rewrite E.
    destruct Hb as [-> | Hb].
    + rewrite trimChars_body; [reflexivity | exact H1 | exact H2 | constructor].
    + rewrite trimChars_body;
        [| exact H1 | exact H2 | apply literal_noWhiteSpace; exact Hb].
      apply parseNumeric_spec in Hb. destruct body as [| c r]; [reflexivity | exact Hb].
Qed.

(** ** The CSV field coercion *)

(** C8: a field text is stored as a number, the one it converts to, if and
    only if all of it is a numeric text (white space around an optional
    numeric literal: the empty text counts, and converts to 0), and is kept
    as the same text otherwise. *)
Theorem coerceField_numeric_iff (s : string) :
  ((exists n, coerceField (Some s) = VNum n) <-> parsesAsNumber s)
  /\ (parsesAsNumber s -> coerceField (Some s) = VNum (StringToNumber s))
  /\ (~ parsesAsNumber s -> coerceField (Some s) = VStr s).
Proof.
  rewrite <- StringToNumber_spec. unfold coerceField. cbn [Number].
  destruct (isNaN (StringToNumber s)) eqn:E.
  - split; [split |]; [intros [n H]; discriminate H | intros H; discriminate H |].
    split; [intros H; discriminate H | reflexivity].
  - split; [split |]; [reflexivity | intros _; eexists; reflexivity |].
    split; [reflexivity | intros H; exfalso; apply H; reflexivity].
Qed.

Lemma coerceField_numeric_iff_witness :
  parsesAsNumber "12.5" /\ coerceField (Some "12.5"%string) = VNum (StringToNumber "12.5").
Proof.
  assert (H : parsesAsNumber "12.5") by (apply StringToNumber_spec; reflexivity).
  split; [exact H |].
  exact (proj1 (proj2 (coerceField_numeric_iff "12.5")) H).
Defined.

(** Texts that are read to the end as a number, and texts that are not: a
    numeric prefix is not enough, and the empty text converts to 0. *)
Example coerceField_examples :
  map (fun s => match coerceField (Some s) with
                | VNum n => Some (toFixed1_exact n)
                | _ => None
                end)
      ["42"; "12.5"; " 7 "; "-5"; "1e2"; "0x1F"; ""; "Infinity";
       "12abc"; "1,5"; "S1"; "2024-01-15"; "NaN"; "1 2"]%string
  = [Some "42.0"; Some "12.5"; Some "7.0"; Some "-5.0"; Some "100.0"; Some "31.0";
     Some "0.0"; Some "Infinity";
     None; None; None; None; None; None]%string.
Proof. vm_compute. reflexivity. Qed.

Example coerceField_keeps_text :
  coerceField (Some "12abc"%string) = VStr "12abc"
  /\ coerceField (Some "2024-01-15"%string) = VStr "2024-01-15"
  /\ coerceField None = VUndefined.
Proof. repeat split; reflexivity. Qed.

Lemma set_In {V : Type} (o : obj V) (k : string) (v : V) (k0 : string) (v0 : V) :
  In (k0, v0) (set o k v) -> In (k0, v0) o \/ v0 = v.
Proof.
  induction o as [| [k' v'] r IH]; simpl.
  - intros [E | []]. injection E as _ <-. right. reflexivity.
  - destruct (String.eqb k k').
    + intros [E | H]; [injection E as _ <-; right; reflexivity | left; right; exact H].
    + intros [E | H]; [left; left; exact E |].
      destruct (IH H) as [H' | H']; [left; right; exact H' | right; exact H'].
Qed.

Lemma assign_In {V : Type} (o : obj V) (k : string) (v : V) (k0 : string) (v0 : V) :
  In (k0, v0) (assign o k v) -> In (k0, v0) o \/ v0 = v.
Proof.
  unfold assign. destruct (String.eqb k "__proto__"); [intros H; left; exact H |].
  apply set_In.
Qed.

(** Every value [parseLine] stores is the coercion of a split-and-stripped
    field of the line, or of [undefined] past the end of a short line. *)
Lemma parseLine_values (headers : list string) (line : string) (k : string) (v : value) :
  In (k, v) (parseLine headers line) ->
  exists i, v = coerceField (nth_error (map strip (split 44 line)) i).
Proof.
  unfold parseLine.
  generalize (combine (seq 0 (List.length headers)) headers).
  assert (G : forall (l : list (nat * string)) (o : obj value),
             (forall k v, In (k, v) o ->
                exists i, v = coerceField (nth_error (map strip (split 44 line)) i)) ->
             In (k, v)
                (fold_left
                   (fun obj ih =>
                      assign obj (snd ih)
                             (coerceField (nth_error (map strip (split 44 line)) (fst ih))))
                   l o) ->
             exists i, v = coerceField (nth_error (map strip (split 44 line)) i)).
  { induction l as [| [i h] l IH]; intros o Ho; cbn [fold_left].
    - apply Ho.
    - apply IH. intros k0 v0 H0. apply assign_In in H0 as [H0 | ->].
      + exact (Ho _ _ H0).
      + exists i. reflexivity. }
  intros l. apply G. intros k0 v0 [].
Qed.

Example parseCSV_example :
  parseCSV exampleCSV
  = [ [ ("Tracking Date Formatted", VStr "2024-01-01");
        ("Invites", VNum (StringToNumber "100"));
        ("Clicks", VNum (StringToNumber "60"));
        ("Plays", VNum (StringToNumber "40"));
        ("Play Time (Min)", VNum (StringToNumber "200"));
        ("Automation Stage", VStr "S1");
        ("Community", VStr "A") ];
      [ ("Tracking Date Formatted", VStr "2024-01-02");
        ("Invites", VNum (StringToNumber ""));
        ("Clicks", VStr "x");
        ("Plays", VNum (StringToNumber "5"));
        ("Play Time (Min)", VUndefined);
        ("Automation Stage", VUndefined);
        ("Community", VUndefined) ] ]%string.
Proof. reflexivity. Qed.

(** * Further properties of the code *)

(** ** Objects: lookup after update *)

Lemma get_set_other {V : Type} (o : obj V) (k k' : string) (v : V) :
  k <> k' -> get (set o k v) k' = get o k'.
Proof.
  intros Hne. induction o as [| [k0 v0] r IH]; simpl.
  - destruct (String.eqb_spec k' k) as [E | _]; [exfalso; apply Hne; symmetry; exact E |].
    reflexivity.
  - destruct (String.eqb_spec k k0) as [-> | Hk]; simpl.
    + destruct (String.eqb_spec k' k0) as [E | _]; [exfalso; apply Hne; symmetry; exact E |].
      reflexivity.
    + destruct (String.eqb k' k0); [reflexivity | exact IH].
Qed.

Lemma get_mapValues {V : Type} (f : V -> V) (o : obj V) (k : string) :
  get (mapValues f o) k = option_map f (get o k).
Proof.
  induction o as [| [k0 v0] r IH]; simpl; [reflexivity |].
  destruct (String.eqb k k0); [reflexivity | exact IH].
Qed.

Lemma inKeys_get {V : Type} (o : obj V) (k : string) :
  inKeys (keysOf o) k = match get o k with Some _ => true | None => false end.
Proof.
  unfold inKeys, keysOf. induction o as [| [k0 v0] r IH]; simpl; [reflexivity |].
  destruct (String.eqb k k0); [reflexivity | exact IH].
Qed.

Lemma filter_filter {A : Type} (p q : A -> bool) (l : list A) :
  filter p (filter q l) = filter (fun x => q x && p x) l.
Proof.
  induction l as [| x r IH]; simpl; [reflexivity |].
  destruct (q x); simpl; [destruct (p x); rewrite IH; reflexivity | exact IH].
Qed.

(** ** The grouping loop, bucket by bucket *)

Lemma get_addRow_same (o : obj StageMetrics.t) (k : string) (row : ProcessedData) :
  isInherited k = false ->
  get (addRow k o row) k = Some (accumulate (bucketAt o k) row).
Proof.
  intros Hi. unfold bucketAt. destruct (get o k) as [b |] eqn:E.
  - rewrite addRow_present with (stage := b) by exact E. apply get_set_same.
  - rewrite addRow_new by assumption. apply get_set_same.
Qed.

Lemma get_addRow_other (o : obj StageMetrics.t) (k k' : string) (row : ProcessedData) :
  k <> k' -> get (addRow k o row) k' = get o k'.
Proof.
  intros Hne. destruct (get o k) as [b |] eqn:E.
  - rewrite addRow_present with (stage := b) by exact E. apply get_set_other. exact Hne.
  - destruct (isInherited k) eqn:Hi.
    + rewrite addRow_inherited by assumption. reflexivity.
    + rewrite addRow_new by assumption. rewrite !get_set_other by exact Hne. reflexivity.
Qed.

Lemma keysOf_addRow (o : obj StageMetrics.t) (k : string) (row : ProcessedData) :
  isInherited k = false ->
  keysOf (addRow k o row) = if inKeys (keysOf o) k then keysOf o else keysOf o ++ [k].
Proof.
  intros Hi. rewrite inKeys_get. unfold keysOf. destruct (get o k) as [b |] eqn:E.
  - rewrite addRow_present with (stage := b) by exact E.
    apply set_keys_present with (v0 := b). exact E.
  - rewrite addRow_new by assumption.
    rewrite set_keys_present with (v0 := newMetrics) by apply get_set_same.
    rewrite set_new by exact E. rewrite map_app. reflexivity.
Qed.

Lemma get_groupRows (key : ProcessedData -> string) (k : string) (data : list ProcessedData) :
  forall o,
    Forall (fun row => isInherited (key row) = false) data ->
    get (groupRows key data o) k
    = match get o k, filter (fun row => String.eqb (key row) k) data with
      | None, [] => None
      | _, rows => Some (fold_left accumulate rows (bucketAt o k))
      end.
Proof.
  unfold groupRows. induction data as [| row data IH]; intros o H; cbn [fold_left filter].
  - unfold bucketAt. destruct (get o k); reflexivity.
  - inversion H as [| ? ? Hrow Hdata]; subst.
    rewrite IH by exact Hdata. destruct (String.eqb_spec (key row) k) as [E | Hne].
    + subst k. rewrite get_addRow_same by exact Hrow. cbn [fold_left].
      unfold bucketAt at 1. rewrite get_addRow_same by exact Hrow.
      destruct (get o (key row)); reflexivity.
    + rewrite get_addRow_other by exact Hne.
      unfold bucketAt. rewrite get_addRow_other by exact Hne. reflexivity.
Qed.

Lemma keysOf_groupRows (key : ProcessedData -> string) (data : list ProcessedData) :
  forall o,
    Forall (fun row => isInherited (key row) = false) data ->
    keysOf (groupRows key data o)
    = keysOf o ++ filter (fun k => negb (inKeys (keysOf o) k)) (distinct (map key data)).
Proof.
  unfold groupRows.
  induction data as [| row data IH]; intros o H; cbn [fold_left map distinct].
  - cbn [filter]. symmetry. apply app_nil_r.
  - inversion H as [| ? ? Hrow Hdata]; subst.
    rewrite IH by exact Hdata. rewrite keysOf_addRow by exact Hrow. cbn [filter].
    destruct (inKeys (keysOf o) (key row)) eqn:E; cbn [negb].
    + f_equal. rewrite filter_filter. apply filter_ext_in. intros k _.
      destruct (String.eqb_spec k (key row)) as [-> | _]; cbn [negb andb];
        [rewrite E |]; reflexivity.
    + rewrite <- app_assoc. cbn [app]. f_equal. f_equal.
      rewrite filter_filter. apply filter_ext. intros k.
      unfold inKeys. rewrite existsb_app. cbn [existsb]. rewrite orb_false_r, negb_orb.
      apply andb_comm.
Qed.

Lemma keysOf_groupRows_nil (key : ProcessedData -> string) (data : list ProcessedData) :
  Forall (fun row => isInherited (key row) = false) data ->
  keysOf (groupRows key data []) = distinct (map key data).
Proof.
  intros H. rewrite keysOf_groupRows by exact H. cbn [keysOf map app].
  rewrite <- (filter_true (distinct (map key data))) at 2.
  apply filter_ext. intros k. reflexivity.
Qed.

Lemma count_accumulated (rows : list ProcessedData) : forall b,
  StageMetrics.count (fold_left accumulate rows b)
  = add (StageMetrics.count b) (ofNat (List.length rows)).
Proof.
  unfold ofNat. induction rows as [| row rows IH]; intros b; cbn [fold_left List.length].
  - symmetry. apply add_zero_r.
  - rewrite IH. cbn [accumulate StageMetrics.count].
    rewrite <- add_assoc. f_equal. unfold one. rewrite ofZ_add. f_equal. lia.
Qed.

Lemma get_In_NoDup {V : Type} (o : obj V) (k : string) (v : V) :
  NoDup (keysOf o) -> In (k, v) o -> get o k = Some v.
Proof.
  unfold keysOf. induction o as [| [k0 v0] r IH]; simpl; [intros _ [] |].
  intros H Hin. apply NoDup_cons_iff in H as [Hk0 Hr].
  destruct Hin as [E | Hin].
  - injection E as -> ->. rewrite String.eqb_refl. reflexivity.
  - destruct (String.eqb_spec k k0) as [-> | _]; [| exact (IH Hr Hin)].
    exfalso. apply Hk0. apply (in_map fst) in Hin. exact Hin.
Qed.

Lemma keysOf_mapValues {V : Type} (f : V -> V) (o : obj V) :
  keysOf (mapValues f o) = keysOf o.
Proof. unfold keysOf, mapValues. rewrite map_map. reflexivity. Qed.

Lemma calculateStageBreakdown_NoDup (data : list ProcessedData) :
  NoDup (keysOf (calculateStageBreakdown data)).
Proof.
  rewrite calculateStageBreakdown_eq, keysOf_mapValues.
  apply grouped_NoDup. constructor.
Qed.

(** The distinct elements of a filtered list are the filtered distinct
    elements. *)
Lemma distinct_filter (p : string -> bool) (l : list string) :
  distinct (filter p l) = filter p (distinct l).
Proof.
  induction l as [| x r IH]; [reflexivity |].
  cbn [filter distinct]. destruct (p x) eqn:E.
  - cbn [distinct]. rewrite IH. f_equal.
    rewrite !filter_filter. apply filter_ext. intros y. apply andb_comm.
  - rewrite IH, filter_filter. apply filter_ext_in. intros y _.
    destruct (String.eqb_spec y x) as [-> | _]; cbn [negb andb];
      [rewrite E; reflexivity | reflexivity].
Qed.

Lemma map_bucketed (key : ProcessedData -> string) (data : list ProcessedData) :
  map key (bucketed key data) = filter (fun k => negb (isInherited k)) (map key data).
Proof.
  unfold bucketed. induction data as [| row data IH]; [reflexivity |].
  cbn [filter map]. destruct (isInherited (key row)); cbn [negb map]; rewrite IH; reflexivity.
Qed.

Lemma rowsOf_bucketed (stage : string) (data : list ProcessedData) :
  rowsOf stage (bucketed AutomationStage data)
  = if isInherited stage then [] else rowsOf stage data.
Proof.
  unfold rowsOf, bucketed. rewrite filter_filter.
  destruct (isInherited stage) eqn:Hi.
  - induction data as [| row data IH]; [reflexivity |]. cbn [filter].
    destruct (String.eqb_spec (AutomationStage row) stage) as [E | _].
    + rewrite E, Hi. exact IH.
    + rewrite andb_false_r. exact IH.
  - apply filter_ext. intros row.
    destruct (String.eqb_spec (AutomationStage row) stage) as [E | _].
    + rewrite E, Hi. reflexivity.
    + apply andb_false_r.
Qed.

Lemma get_calculateStageBreakdown (data : list ProcessedData) (stage : string) :
  get (calculateStageBreakdown data) stage
  = if isInherited stage then None
    else match rowsOf stage data with
         | [] => None
         | rows => Some (setAverage (bucketOf rows))
         end.
Proof.
  rewrite calculateStageBreakdown_bucketed, get_mapValues.
  rewrite get_groupRows by apply bucketed_Forall.
  fold (rowsOf stage (bucketed AutomationStage data)). rewrite rowsOf_bucketed.
  unfold bucketOf, bucketAt. cbn [get].
  destruct (isInherited stage); [reflexivity |].
  destruct (rowsOf stage data); reflexivity.
Qed.

(** ** The stage breakdown *)

(** X1: the stage breakdown has one bucket per stage of the data that names
    no member inherited from [Object.prototype], created in the order in
    which these stages are first seen; a stage named like an inherited
    member has no bucket. *)
Theorem calculateStageBreakdown_keys (data : list ProcessedData) :
  keysOf (calculateStageBreakdown data)
  = filter (fun stage => negb (isInherited stage)) (distinct (map AutomationStage data))
  /\ (forall stage, isInherited stage = true ->
                    ~ In stage (keysOf (calculateStageBreakdown data))).
Proof.
  assert (E : keysOf (calculateStageBreakdown data)
              = filter (fun stage => negb (isInherited stage))
                       (distinct (map AutomationStage data))).
  { rewrite calculateStageBreakdown_bucketed, keysOf_mapValues.
    rewrite keysOf_groupRows_nil by apply bucketed_Forall.
    rewrite map_bucketed. apply distinct_filter. }
  split; [exact E |].
  intros stage Hi Hin. rewrite E in Hin. apply filter_In in Hin as [_ Hin].
  rewrite Hi in Hin. discriminate Hin.
Qed.

(** X2: the bucket of a stage accumulates exactly the rows of that stage, in
    their order, from a fresh bucket, and then gets its average; a stage
    with no row has no bucket, and neither has a stage named like an
    inherited member, whatever its rows. *)
Theorem calculateStageBreakdown_bucket (data : list ProcessedData) (stage : string) :
  get (calculateStageBreakdown data) stage
  = if isInherited stage then None
    else match rowsOf stage data with
         | [] => None
         | rows => Some (setAverage (bucketOf rows))
         end.
Proof.
  destruct (isInherited stage) eqn:Hi.
  - rewrite get_calculateStageBreakdown, Hi. reflexivity.
  - rewrite get_calculateStageBreakdown, Hi. reflexivity.
Qed.

(** X3: every row whose stage names no inherited member is counted once:
    the count of a bucket is the number of rows of its stage, which is at
    least one, and the counts of all buckets add up to the number of these
    rows; the other rows are counted in no bucket. *)
Theorem calculateStageBreakdown_counts (data : list ProcessedData) :
  Forall
    (fun e =>
       StageMetrics.count (snd e) = ofNat (List.length (rowsOf (fst e) data))
       /\ (1 <= List.length (rowsOf (fst e) data))%nat
       /\ isInherited (fst e) = false)
    (calculateStageBreakdown data)
  /\ sumOf StageMetrics.count (Object_values (calculateStageBreakdown data))
     = ofNat (List.length (bucketed AutomationStage data)).
Proof.
  split.
  - apply Forall_forall. intros [stage d] Hin. cbn [fst snd].
    apply get_In_NoDup in Hin; [| apply calculateStageBreakdown_NoDup].
    rewrite get_calculateStageBreakdown in Hin.
    destruct (isInherited stage); [discriminate Hin |].
    destruct (rowsOf stage data) as [| row rows]; [discriminate Hin |].
    injection Hin as <-.
    split; [| split; [cbn [List.length]; lia | reflexivity]].
    cbn [setAverage StageMetrics.count]. unfold bucketOf. rewrite count_accumulated.
    cbn [newMetrics StageMetrics.count]. apply add_zero_l.
  - unfold Object_values.
    rewrite calculateStageBreakdown_sum with (h := fun _ => one); try reflexivity.
    unfold ofNat. induction (bucketed AutomationStage data) as [| row rows IH];
      [reflexivity |].
    rewrite sumOf_cons, IH. cbn [List.length]. unfold one. rewrite ofZ_add. f_equal. lia.
Qed.

(** ** The order in which the stages are iterated *)

Lemma Sorted_map_fst {A B : Type} (f : A -> B) (l : list (Z * A)) :
  Sorted (fun x y => fst x <= fst y) l ->
  Sorted (fun x y => fst x <= fst y) (map (fun p => (fst p, f (snd p))) l).
Proof.
  induction 1 as [| x l _ IH Hhd]; simpl; constructor; [exact IH |].
  destruct Hhd; simpl; constructor. assumption.
Qed.

Lemma integerKeyed_index {V : Type} (o : obj V) :
  Forall (fun p => arrayIndex (fst (snd p)) = Some (fst p)) (integerKeyed o).
Proof.
  induction o as [| [k v] r IH]; simpl; [constructor |].
  destruct (arrayIndex k) as [i |] eqn:E; [| exact IH].
  apply (Permutation_Forall (Permutation_sym (insertSorted_perm i (k, v) (integerKeyed r)))).
  constructor; [exact E | exact IH].
Qed.

Lemma keysOf_filter_isStringKey {V : Type} (o : obj V) :
  map fst (filter isStringKey o) = filter isNameKey (keysOf o).
Proof.
  unfold keysOf. induction o as [| [k v] r IH]; simpl; [reflexivity |].
  unfold isStringKey, isNameKey in *. simpl.
  destruct (arrayIndex k); simpl; rewrite IH; reflexivity.
Qed.

Lemma keysOf_filter_not_isStringKey {V : Type} (o : obj V) :
  map fst (filter (fun e => negb (isStringKey e)) o)
  = filter (fun k => negb (isNameKey k)) (keysOf o).
Proof.
  unfold keysOf. induction o as [| [k v] r IH]; simpl; [reflexivity |].
  unfold isStringKey, isNameKey in *. simpl.
  destruct (arrayIndex k); simpl; rewrite IH; reflexivity.
Qed.

(** The order of [Object.keys]: the keys that are array indices, in
    ascending numeric order, then the other keys in creation order. *)
Lemma Object_keys_order {V : Type} (o : obj V) :
  exists indexed : list (Z * string),
    Object_keys o = map snd indexed ++ filter isNameKey (keysOf o)
    /\ Permutation (map snd indexed) (filter (fun k => negb (isNameKey k)) (keysOf o))
    /\ Sorted (fun x y => fst x <= fst y) indexed
    /\ Forall (fun p => arrayIndex (snd p) = Some (fst p)) indexed.
Proof.
  exists (map (fun p => (fst p, fst (snd p))) (integerKeyed o)).
  split; [| split; [| split]].
  - unfold Object_keys, Object_entries. rewrite map_app, !map_map.
    rewrite keysOf_filter_isStringKey. reflexivity.
  - rewrite map_map. cbn [snd]. rewrite <- keysOf_filter_not_isStringKey.
    rewrite <- (map_map snd fst). apply Permutation_map. apply integerKeyed_perm.
  - apply Sorted_map_fst. apply integerKeyed_sorted.
  - apply Forall_map. cbn [fst snd]. apply integerKeyed_index.
Qed.

(** X4: the stages are iterated (by [Object.entries], for the strongest
    stage) with the stage names that are array indices first, every one of
    them and in ascending numeric order, and then the other stage names in
    the order in which the data first shows them; stages named like an
    inherited member are not iterated. *)
Theorem stage_iteration_order (data : list ProcessedData) :
  let stages :=
    filter (fun stage => negb (isInherited stage)) (distinct (map AutomationStage data)) in
  exists indexed : list (Z * string),
    Object_keys (calculateStageBreakdown data)
    = map snd indexed ++ filter isNameKey stages
    /\ Permutation (map snd indexed) (filter (fun stage => negb (isNameKey stage)) stages)
    /\ Sorted (fun x y => fst x <= fst y) indexed
    /\ Forall (fun p => arrayIndex (snd p) = Some (fst p)) indexed.
Proof.
  intros stages.
  assert (E : keysOf (calculateStageBreakdown data) = stages).
  { rewrite calculateStageBreakdown_bucketed, keysOf_mapValues.
    rewrite keysOf_groupRows_nil by apply bucketed_Forall.
    rewrite map_bucketed. apply distinct_filter. }
  destruct (Object_keys_order (calculateStageBreakdown data)) as [indexed H].
  rewrite E in H. exists indexed. exact H.
Qed.

(** ** Insights against strategies *)

Lemma insights_kinds (toFixed1 : number -> string) (m : CommunityMetrics) (stage : string) :
  let l := clickInsight toFixed1 m ++ watchInsight toFixed1 m ++ [strongestMessage stage] in
  (emits strongPrefix l <-> gt (clickRate m) (ofZ 50) = true)
  /\ (emits opportunityPrefix l <-> lt (clickRate m) (ofZ 30) = true)
  /\ (emits watchTimePrefix l <-> gt (avgPlayTime m) (ofZ 5) = true).
Proof.
  cbv zeta. rewrite !emits_app, !emits_single.
  destruct (prefix_strongest stage) as [-> [-> [-> _]]].
  unfold clickInsight, watchInsight.
  destruct (gt (clickRate m) (ofZ 50)) eqn:E1.
  - pose proof (lt_30_not_gt_50 (clickRate m)) as H30.
    destruct (lt (clickRate m) (ofZ 30)); [specialize (H30 eq_refl); congruence |].
    destruct (gt (avgPlayTime m) (ofZ 5)); rewrite !emits_single;
      destruct (prefix_strong toFixed1 (clickRate m)) as [-> [-> [-> _]]];
      try destruct (prefix_watchTime toFixed1 (avgPlayTime m)) as [-> [-> [-> _]]];
      repeat split; intros; try reflexivity;
      repeat match goal with
        | H : _ \/ _ |- _ => destruct H
        | H : emits _ [] |- _ => destruct (emits_nil H)
        end; try discriminate; tauto.
  - destruct (lt (clickRate m) (ofZ 30));
      destruct (gt (avgPlayTime m) (ofZ 5)); rewrite ?emits_single;
      try destruct (prefix_opportunity toFixed1 (clickRate m)) as [-> [-> [-> _]]];
      try destruct (prefix_watchTime toFixed1 (avgPlayTime m)) as [-> [-> [-> _]]];
      repeat split; intros; try reflexivity;
      repeat match goal with
        | H : _ \/ _ |- _ => destruct H
        | H : emits _ [] |- _ => destruct (emits_nil H)
        end; try discriminate; tauto.
Qed.

Lemma lt_below (x : number) (a b : Z) :
  (a <= b)%Z -> lt x (ofZ a) = true -> lt x (ofZ b) = true.
Proof.
  intros Hab H. destruct (Z.eq_dec a b) as [<- | Hne]; [exact H |].
  apply lt_trans with (y := ofZ a); [exact H |].
  unfold lt, ofZ. apply Qc_ltb_lt. unfold Qclt. cbn [this Q2Qc].
  rewrite !Qred_correct. rewrite <- Zlt_Qlt. lia.
Qed.

Lemma gt_above (x : number) (a b : Z) :
  (a <= b)%Z -> gt x (ofZ b) = true -> lt x (ofZ a) = false.
Proof.
  intros Hab H. unfold gt in H. destruct (lt x (ofZ a)) eqn:E; [| reflexivity].
  apply lt_below with (b := b) in E; [| exact Hab].
  pose proof (lt_trans _ _ _ H E) as F. rewrite lt_irrefl in F. discriminate F.
Qed.

(** X5: the insights and the strategies of one community agree: when the
    opportunity-to-improve insight is given, the Improve Initial Engagement
    strategy is recommended; when the strong-engagement insight is given it
    is not; and when the excellent-watch-time insight is given, Extend Watch
    Time is not recommended. *)
Theorem insights_agree_with_strategies (toFixed1 : number -> string)
    (m : CommunityMetrics) (l : list string) :
  generateInsights toFixed1 m = Ok l ->
  (emits opportunityPrefix l -> In improveInitialEngagement (generateStrategies m))
  /\ (emits strongPrefix l -> ~ In improveInitialEngagement (generateStrategies m))
  /\ (emits watchTimePrefix l -> ~ In extendWatchTime (generateStrategies m)).
Proof.
  rewrite generateInsights_eq.
  destruct (reduce1 betterStage (Object_entries (stageBreakdown m))) as [best | e];
    [| discriminate].
  cbn [bind]. intros H. injection H as <-.
  destruct (insights_kinds toFixed1 m (fst best)) as [Hs [Ho Hw]].
  rewrite generateStrategies_eq. unfold ruleOutput. split; [| split].
  - intros H. apply Ho in H. apply lt_below with (b := 40) in H; [| lia].
    rewrite H. left. reflexivity.
  - intros H. apply Hs in H. apply gt_above with (a := 40) in H; [| lia].
    rewrite H. cbn [app]. intros Hin.
    destruct (lt (playRate m) (ofZ 70)), (lt (avgPlayTime m) (ofZ 3)); simpl in Hin;
      repeat (destruct Hin as [Hin | Hin]; [discriminate Hin |]); exact Hin.
  - intros H. apply Hw in H. apply gt_above with (a := 3) in H; [| lia].
    rewrite H. rewrite app_nil_r. intros Hin.
    destruct (lt (clickRate m) (ofZ 40)), (lt (playRate m) (ofZ 70)); simpl in Hin;
      repeat (destruct Hin as [Hin | Hin]; [discriminate Hin |]); exact Hin.
Qed.

Lemma insights_agree_with_strategies_witness :
  generateInsights toFixed1_exact (calculateCommunityMetrics nanPlays)
  = Ok [ "Opportunity to improve initial engagement (0.0% click rate)";
         "Strongest performance in intro stage" ]%string
  /\ emits opportunityPrefix
       [ "Opportunity to improve initial engagement (0.0% click rate)";
         "Strongest performance in intro stage" ]%string
  /\ In improveInitialEngagement (generateStrategies (calculateCommunityMetrics nanPlays)).
Proof.
  assert (H : generateInsights toFixed1_exact (calculateCommunityMetrics nanPlays)
              = Ok [ "Opportunity to improve initial engagement (0.0% click rate)";
                     "Strongest performance in intro stage" ]%string)
    by (vm_compute; reflexivity).
  assert (He : emits opportunityPrefix
                 [ "Opportunity to improve initial engagement (0.0% click rate)";
                   "Strongest performance in intro stage" ]%string).
  { eexists. split; [left; reflexivity | reflexivity]. }
  split; [exact H |]. split; [exact He |].
  exact (proj1 (@insights_agree_with_strategies toFixed1_exact _ _ H) He).
Defined.

(** ** Monthly trends *)

Lemma forEach_monthStep_Ok (l : list ProcessedData) : forall o r,
  forEach monthStep l o = Ok r ->
  r = groupRows monthKeyOf l o
  /\ Forall (fun row => TrackingDateFormatted row <> InvalidDate) l.
Proof.
  unfold groupRows. induction l as [| row l IH]; intros o r H; cbn [forEach fold_left] in *.
  - injection H as <-. split; [reflexivity | constructor].
  - unfold monthStep at 1 in H.
    assert (K : monthKeyOf row
                = match TrackingDateFormatted row with
                  | TimeValue t => slice0 7 (text (isoChars t))
                  | InvalidDate => EmptyString
                  end) by reflexivity.
    destruct (TrackingDateFormatted row) as [| t] eqn:E; [discriminate H |].
    cbn [toISOString bind] in H. destruct (IH _ _ H) as [-> Hl].
    split; [rewrite K; reflexivity |]. constructor; [rewrite E; discriminate | exact Hl].
Qed.

Lemma calculateMonthlyTrends_Ok (this : VideoEngagementAnalyzer) (trends : obj StageMetrics.t) :
  calculateMonthlyTrends this = Ok trends ->
  trends = mapValues setAverage (groupRows monthKeyOf (processedData this) [])
  /\ Forall (fun row => TrackingDateFormatted row <> InvalidDate) (processedData this).
Proof.
  rewrite calculateMonthlyTrends_eq.
  destruct (forEach monthStep (processedData this) []) as [monthlyData | e] eqn:E;
    [| discriminate].
  cbn [bind]. intros H. injection H as <-.
  destruct (forEach_monthStep_Ok _ _ E) as [-> Hv]. split; [| exact Hv].
  apply averageAll_mapValues. apply grouped_NoDup. constructor.
Qed.

(** An inherited name starts with a letter or an underscore. *)
Lemma isInherited_head (c : ascii) (s : string) :
  isInherited (String c s) = true -> In (code c) [99; 104; 105; 112; 116; 118; 95].
Proof.
  unfold isInherited, inheritedNames. cbn [existsb]. intros H.
  repeat (apply orb_true_iff in H as [H | H]);
    try discriminate H;
    apply String.eqb_eq in H; injection H as -> _; cbn; tauto.
Qed.

Lemma code_digitChar (d : Z) : 0 <= d <= 9 -> code (digitChar d) = 48 + d.
Proof.
  intros H. unfold code, digitChar. rewrite N_ascii_embedding by lia. lia.
Qed.

Lemma padDigits_head (n : nat) (k : Z) :
  padDigits (S n) k = [] \/ exists c rest, padDigits (S n) k = c :: rest /\ 48 <= code c <= 57.
Proof.
  right. revert k. induction n as [| n IH]; intros k.
  - cbn [padDigits app]. eexists. eexists. split; [reflexivity |].
    rewrite code_digitChar; pose proof (Z.mod_pos_bound k 10); lia.
  - destruct (IH (k / 10)) as [c [rest [E Hc]]].
    change (padDigits (S (S n)) k) with (padDigits (S n) (k / 10) ++ [digitChar (k mod 10)]).
    rewrite E. exists c, (rest ++ [digitChar (k mod 10)]). split; [reflexivity | exact Hc].
Qed.

(** The ISO text of a date starts with a digit or a sign. *)
Lemma isoChars_head (t : Z) :
  exists c rest, isoChars t = c :: rest /\ (48 <= code c <= 57 \/ code c = 43 \/ code c = 45).
Proof.
  unfold isoChars. destruct (civilFromDays (t / msPerDay)) as [[y m] d].
  unfold isoYear. destruct ((0 <=? y) && (y <=? 9999)).
  - destruct (padDigits_head 3 y) as [E | [c [rest [E Hc]]]]; [discriminate E |].
    rewrite E. eexists. eexists. split; [reflexivity | left; exact Hc].
  - destruct (y <? 0); eexists; eexists; (split; [reflexivity |]);
      [right; right; reflexivity | right; left; reflexivity].
Qed.

(** A month key never names a member inherited from [Object.prototype]. *)
Lemma monthKeyOf_not_inherited (row : ProcessedData) :
  isInherited (monthKeyOf row) = false.
Proof.
  unfold monthKeyOf. destruct (TrackingDateFormatted row) as [| t]; [reflexivity |].
  destruct (isoChars_head t) as [c [rest [E Hc]]]. rewrite E.
  change (slice0 7 (text (c :: rest))) with (String c (substring 0 6 (text rest))).
  destruct (isInherited (String c (substring 0 6 (text rest)))) eqn:Hi; [| reflexivity].
  apply isInherited_head in Hi. cbn [In] in Hi. lia.
Qed.

Lemma monthKeys_not_inherited (data : list ProcessedData) :
  Forall (fun row => isInherited (monthKeyOf row) = false) data.
Proof. apply Forall_forall. intros row _. apply monthKeyOf_not_inherited. Qed.

Lemma length_monthKeyOf (row : ProcessedData) :
  TrackingDateFormatted row <> InvalidDate -> String.length (monthKeyOf row) = 7%nat.
Proof.
  unfold monthKeyOf. destruct (TrackingDateFormatted row) as [| t]; [contradiction |].
  intros _. unfold slice0. rewrite length_substring0, length_text.
  pose proof (length_isoChars t). lia.
Qed.

(** X7: when [calculateMonthlyTrends] returns, it holds one bucket per month
    key of the records, in the order in which the months are first seen;
    the bucket of a month accumulates exactly the records of that month, in
    their order, and carries its average; every key has seven characters. *)
Theorem calculateMonthlyTrends_buckets (this : VideoEngagementAnalyzer)
    (trends : obj StageMetrics.t) :
  calculateMonthlyTrends this = Ok trends ->
  keysOf trends = distinct (map monthKeyOf (processedData this))
  /\ (forall key,
        get trends key
        = match rowsOfMonth key (processedData this) with
          | [] => None
          | rows => Some (setAverage (bucketOf rows))
          end)
  /\ Forall (fun key => String.length key = 7%nat) (keysOf trends).
Proof.
  intros H. apply calculateMonthlyTrends_Ok in H as [-> Hv].
  assert (Hk : keysOf (mapValues setAverage (groupRows monthKeyOf (processedData this) []))
               = distinct (map monthKeyOf (processedData this))).
  { rewrite keysOf_mapValues. apply keysOf_groupRows_nil. apply monthKeys_not_inherited. }
  split; [exact Hk |]. split.
  - intros key. rewrite get_mapValues, get_groupRows by apply monthKeys_not_inherited.
    unfold rowsOfMonth, bucketOf, bucketAt.
    cbn [get].
    destruct (filter (fun row => String.eqb (monthKeyOf row) key) (processedData this));
      reflexivity.
  - rewrite Hk. apply Forall_forall. intros key Hin.
    apply distinct_In, in_map_iff in Hin as [row [<- Hrow]].
    apply length_monthKeyOf. rewrite Forall_forall in Hv. exact (Hv row Hrow).
Qed.

Lemma calculateMonthlyTrends_buckets_witness :
  calculateMonthlyTrends (newAnalyzer Date_parse_iso scenarioRows)
  = Ok [("2024-01"%string, setAverage (bucketOf (preprocessData Date_parse_iso scenarioRows)))]
  /\ keysOf [("2024-01"%string,
              setAverage (bucketOf (preprocessData Date_parse_iso scenarioRows)))]
     = distinct (map monthKeyOf (processedData (newAnalyzer Date_parse_iso scenarioRows))).
Proof.
  assert (H : calculateMonthlyTrends (newAnalyzer Date_parse_iso scenarioRows)
              = Ok [("2024-01"%string,
                     setAverage (bucketOf (preprocessData Date_parse_iso scenarioRows)))])
    by reflexivity.
  split; [exact H |].
  exact (proj1 (calculateMonthlyTrends_buckets _ H)).
Defined.

(** X8: when [calculateMonthlyTrends] returns, every record is counted in
    exactly one month: the counts of the buckets add up to the number of
    records, and the average play time of every bucket is its play time
    over its plays, and 0 when its plays are 0 (or [NaN]). *)
Theorem calculateMonthlyTrends_counts (this : VideoEngagementAnalyzer)
    (trends : obj StageMetrics.t) :
  calculateMonthlyTrends this = Ok trends ->
  sumOf StageMetrics.count (Object_values trends)
  = ofNat (List.length (processedData this))
  /\ Forall
       (fun d => StageMetrics.avgPlayTime d
                 = Some (guarded (StageMetrics.plays d)
                           (div (StageMetrics.playTime d) (StageMetrics.plays d))))
       (Object_values trends).
Proof.
  intros H. apply calculateMonthlyTrends_Ok in H as [-> _]. split.
  - unfold Object_values. rewrite sumValues_entries.
    rewrite sumValues_mapValues_setAverage by reflexivity.
    rewrite sumValues_grouped with (h := fun _ => one);
      try reflexivity; [| apply monthKeys_not_inherited].
    rewrite add_zero_l. unfold ofNat.
    induction (processedData this) as [| row data IH]; [reflexivity |].
    rewrite sumOf_cons, IH. cbn [List.length]. unfold one. rewrite ofZ_add. f_equal. lia.
  - apply Forall_forall. intros d Hd. unfold Object_values in Hd.
    apply in_map_iff in Hd as [[k d'] [E Hin]]. simpl in E. subst d'.
    apply (Permutation_in _ (Object_entries_perm _)) in Hin.
    apply mapValues_In in Hin as [d0 [_ ->]].
    unfold setAverage. cbn [StageMetrics.avgPlayTime StageMetrics.plays StageMetrics.playTime].
    rewrite truthy_guard. reflexivity.
Qed.

Lemma calculateMonthlyTrends_counts_witness :
  calculateMonthlyTrends (newAnalyzer Date_parse_iso scenarioRows)
  = Ok [("2024-01"%string, setAverage (bucketOf (preprocessData Date_parse_iso scenarioRows)))]
  /\ sumOf StageMetrics.count
       (Object_values
          [("2024-01"%string,
            setAverage (bucketOf (preprocessData Date_parse_iso scenarioRows)))])
     = ofNat (List.length (processedData (newAnalyzer Date_parse_iso scenarioRows))).
Proof.
  assert (H : calculateMonthlyTrends (newAnalyzer Date_parse_iso scenarioRows)
              = Ok [("2024-01"%string,
                     setAverage (bucketOf (preprocessData Date_parse_iso scenarioRows)))])
    by reflexivity.
  split; [exact H |].
  exact (proj1 (calculateMonthlyTrends_counts _ H)).
Defined.

(** ** The report of [analyze] *)

Lemma analyze_eq (toFixed1 : number -> string) (now : Z) (this : VideoEngagementAnalyzer) :
  analyze toFixed1 now this
  = (trends <- calculateMonthlyTrends this ;;
     today <- toISOString (TimeValue now) ;;
     forEach (communityStep toFixed1 (processedData this))
             (distinct (map Community (processedData this)))
             {| communityInsights := [];
                followUpStrategies := [];
                monthlyTrends := trends;
                analysisDate := slice0 10 today |}).
Proof. reflexivity. Qed.

Lemma keysOf_set_new {V : Type} (o : obj V) (k : string) (v : V) :
  ~ In k (keysOf o) -> keysOf (set o k v) = (keysOf o ++ [k])%list.
Proof.
  intros H. apply get_None_keys in H. rewrite set_new by exact H.
  unfold keysOf. rewrite map_app. reflexivity.
Qed.

Lemma assign_own {V : Type} (o : obj V) (k : string) (v : V) :
  ownName k = true -> assign o k v = set o k v.
Proof.
  unfold ownName, assign. intros H. apply negb_true_iff in H. rewrite H. reflexivity.
Qed.

Lemma assign_proto {V : Type} (o : obj V) (k : string) (v : V) :
  ownName k = false -> assign o k v = o.
Proof.
  unfold ownName, assign. intros H. apply negb_false_iff in H. rewrite H. reflexivity.
Qed.

Lemma keysOf_assign_new {V : Type} (o : obj V) (k : string) (v : V) :
  ~ In k (keysOf o) -> keysOf (assign o k v) = (keysOf o ++ filter ownName [k])%list.
Proof.
  intros H. cbn [filter]. destruct (ownName k) eqn:E.
  - rewrite assign_own by exact E. apply keysOf_set_new. exact H.
  - rewrite assign_proto by exact E. symmetry. apply app_nil_r.
Qed.

Lemma get_assign_same {V : Type} (o : obj V) (k : string) (v : V) :
  ownName k = true -> get (assign o k v) k = Some v.
Proof. intros H. rewrite assign_own by exact H. apply get_set_same. Qed.

Lemma get_assign_other {V : Type} (o : obj V) (k k' : string) (v : V) :
  k <> k' -> get (assign o k v) k' = get o k'.
Proof.
  intros H. destruct (ownName k) eqn:E.
  - rewrite assign_own by exact E. apply get_set_other. exact H.
  - rewrite assign_proto by exact E. reflexivity.
Qed.

Lemma communityStep_loop (toFixed1 : number -> string) (data : list ProcessedData)
    (cs : list string) : forall a r,
  NoDup cs ->
  (forall c, In c cs -> ~ In c (keysOf (communityInsights a))
                        /\ ~ In c (keysOf (followUpStrategies a))) ->
  forEach (communityStep toFixed1 data) cs a = Ok r ->
  monthlyTrends r = monthlyTrends a
  /\ analysisDate r = analysisDate a
  /\ keysOf (communityInsights r)
     = (keysOf (communityInsights a) ++ filter ownName cs)%list
  /\ keysOf (followUpStrategies r)
     = (keysOf (followUpStrategies a) ++ filter ownName cs)%list
  /\ (forall c, In c cs -> ownName c = true ->
        exists l,
          generateInsights toFixed1 (calculateCommunityMetrics (rowsOfCommunity c data)) = Ok l
          /\ get (communityInsights r) c
             = Some {| metrics := calculateCommunityMetrics (rowsOfCommunity c data);
                       insights := l |}
          /\ get (followUpStrategies r) c
             = Some (generateStrategies
                       (calculateCommunityMetrics (rowsOfCommunity c data))))
  /\ (forall c, ~ In c cs ->
        get (communityInsights r) c = get (communityInsights a) c
        /\ get (followUpStrategies r) c = get (followUpStrategies a) c).
Proof.
  induction cs as [| c0 cs IH]; intros a r Hnd Hfresh H; cbn [forEach] in H.
  - injection H as <-. cbn [filter]. rewrite !app_nil_r.
    repeat (split; [reflexivity |]). split; [intros c [] | intros c _; split; reflexivity].
  - unfold communityStep at 1 in H.
    destruct (generateInsights toFixed1
                (calculateCommunityMetrics (rowsOfCommunity c0 data))) as [l0 | e] eqn:E;
      [| discriminate H].
    cbn [bind] in H. inversion Hnd as [| ? ? Hc0 Hnd']; subst.
    destruct (Hfresh c0 (or_introl eq_refl)) as [Hi0 Hs0].
    apply IH in H; [| exact Hnd' |].
    + cbn [monthlyTrends analysisDate communityInsights followUpStrategies] in H.
      destruct H as [Ht [Hd [Hki [Hks [Hin Hout]]]]].
      split; [exact Ht |]. split; [exact Hd |].
      assert (Ef : filter ownName (c0 :: cs)
                   = (filter ownName [c0] ++ filter ownName cs)%list)
        by (cbn [filter]; destruct (ownName c0); reflexivity).
      rewrite Ef.
      split; [rewrite Hki, keysOf_assign_new, <- app_assoc by exact Hi0; reflexivity |].
      split; [rewrite Hks, keysOf_assign_new, <- app_assoc by exact Hs0; reflexivity |].
      split.
      * intros c [<- | Hc] Hown; [| exact (Hin c Hc Hown)].
        exists l0. split; [exact E |].
        destruct (Hout c0 Hc0) as [-> ->].
        rewrite !get_assign_same by exact Hown. split; reflexivity.
      * intros c Hc. destruct (Hout c (fun K => Hc (or_intror K))) as [-> ->].
        assert (Hne : c0 <> c) by (intros ->; apply Hc; left; reflexivity).
        rewrite !get_assign_other by exact Hne. split; reflexivity.
    + intros c Hc. cbn [communityInsights followUpStrategies].
      destruct (Hfresh c (or_intror Hc)) as [Hi Hs].
      assert (Hne : c <> c0) by (intros ->; exact (Hc0 Hc)).
      rewrite !keysOf_assign_new by assumption.
      split; intros K; apply in_app_iff in K as [K | K];
        try solve [ exact (Hi K) | exact (Hs K) ];
        apply filter_In in K as [[K | []] _]; apply Hne; symmetry; exact K.
Qed.

(** X9: when [analyze] returns, its report has one entry per community of
    the records other than [__proto__], created in first-seen order, in the
    insights and in the strategies alike; the entry of a community holds
    the metrics of exactly the rows of that community, the insights
    [generateInsights] returns on those metrics and the strategies
    [generateStrategies] returns on them; no other name has an entry, and
    the community [__proto__] has none, the assignment creating no own
    property; [Object.keys] lists the communities that are array indices
    first, in ascending order, then the others in first-seen order; the
    monthly trends are those [calculateMonthlyTrends] returns. *)
Theorem analyze_report (toFixed1 : number -> string) (now : Z)
    (this : VideoEngagementAnalyzer) (r : AnalysisResult) :
  analyze toFixed1 now this = Ok r ->
  let communities := filter ownName (distinct (map Community (processedData this))) in
  calculateMonthlyTrends this = Ok (monthlyTrends r)
  /\ keysOf (communityInsights r) = communities
  /\ keysOf (followUpStrategies r) = communities
  /\ (forall community,
        In community communities ->
        exists l,
          generateInsights toFixed1
            (calculateCommunityMetrics (rowsOfCommunity community (processedData this)))
          = Ok l
          /\ get (communityInsights r) community
             = Some {| metrics := calculateCommunityMetrics
                                    (rowsOfCommunity community (processedData this));
                       insights := l |}
          /\ get (followUpStrategies r) community
             = Some (generateStrategies
                       (calculateCommunityMetrics
                          (rowsOfCommunity community (processedData this)))))
  /\ (forall name,
        ~ In name communities ->
        get (communityInsights r) name = None /\ get (followUpStrategies r) name = None)
  /\ (exists indexed : list (Z * string),
        Object_keys (communityInsights r)
        = map snd indexed ++ filter isNameKey communities
        /\ Permutation (map snd indexed) (filter (fun k => negb (isNameKey k)) communities)
        /\ Sorted (fun x y => fst x <= fst y) indexed
        /\ Forall (fun p => arrayIndex (snd p) = Some (fst p)) indexed)
  /\ (exists indexed : list (Z * string),
        Object_keys (followUpStrategies r)
        = map snd indexed ++ filter isNameKey communities
        /\ Permutation (map snd indexed) (filter (fun k => negb (isNameKey k)) communities)
        /\ Sorted (fun x y => fst x <= fst y) indexed
        /\ Forall (fun p => arrayIndex (snd p) = Some (fst p)) indexed).
Proof.
  rewrite analyze_eq.
  destruct (calculateMonthlyTrends this) as [trends | e] eqn:E; [| discriminate].
  cbn [bind toISOString]. intros H.
  set (communities := filter ownName (distinct (map Community (processedData this)))).
  apply communityStep_loop in H; [| apply distinct_NoDup | intros c _; split; intros []].
  cbn [monthlyTrends analysisDate communityInsights followUpStrategies keysOf map app] in H.
  destruct H as [Ht [_ [Hki [Hks [Hin _]]]]]. fold communities in Hki, Hks.
  split; [rewrite Ht; reflexivity |].
  split; [exact Hki |]. split; [exact Hks |]. split; [| split; [| split]].
  - intros community Hc. apply filter_In in Hc as [Hc Hown]. exact (Hin community Hc Hown).
  - intros name Hn. split; apply get_None_keys.
    + fold (keysOf (communityInsights r)). rewrite Hki. exact Hn.
    + fold (keysOf (followUpStrategies r)). rewrite Hks. exact Hn.
  - destruct (Object_keys_order (communityInsights r)) as [indexed Hx].
    rewrite Hki in Hx. exists indexed. exact Hx.
  - destruct (Object_keys_order (followUpStrategies r)) as [indexed Hx].
    rewrite Hks in Hx. exists indexed. exact Hx.
Qed.

Lemma analyze_report_witness :
  exists r,
    analyze toFixed1_exact 1793620800123 (newAnalyzer Date_parse_iso scenarioRows) = Ok r
    /\ keysOf (communityInsights r)
       = filter ownName
           (distinct (map Community (processedData (newAnalyzer Date_parse_iso scenarioRows)))).
Proof.
  destruct (analyze toFixed1_exact 1793620800123 (newAnalyzer Date_parse_iso scenarioRows))
    as [r | e] eqn:E; [| vm_compute in E; discriminate E].
  exists r. split; [reflexivity |].
  exact (proj1 (proj2 (analyze_report _ _ _ E))).
Defined.

Lemma length_filter_absent {A : Type} (f : A -> string) (c : string) (l : list A) :
  ~ In c (map f l) -> filter (fun x => String.eqb (f x) c) l = [].
Proof.
  induction l as [| x l IH]; intros H; cbn [filter]; [reflexivity |].
  destruct (String.eqb_spec (f x) c) as [E | _].
  - exfalso. apply H. left. exact E.
  - apply IH. intros K. apply H. right. exact K.
Qed.

Lemma list_sum_cons' (n : nat) (l : list nat) : list_sum (n :: l) = (n + list_sum l)%nat.
Proof. reflexivity. Qed.

Lemma list_sum_filter_ne (g : string -> nat) (c0 : string) (l : list string) :
  NoDup l ->
  list_sum (map g l)
  = ((if in_dec string_dec c0 l then g c0 else 0)
     + list_sum (map g (filter (fun y => negb (String.eqb y c0)) l)))%nat.
Proof.
  induction l as [| y l IH]; intros Hnd; [reflexivity |].
  inversion Hnd as [| ? ? Hy Hnd']; subst. specialize (IH Hnd').
  cbn [map filter]. rewrite list_sum_cons', IH.
  destruct (String.eqb_spec y c0) as [-> | Hne]; cbn [negb].
  - destruct (in_dec string_dec c0 (c0 :: l)) as [_ | K];
      [| exfalso; apply K; left; reflexivity].
    destruct (in_dec string_dec c0 l) as [K | _]; [contradiction |].
    lia.
  - cbn [map]. rewrite list_sum_cons'.
    destruct (in_dec string_dec c0 (y :: l)) as [[K | K] | K];
      destruct (in_dec string_dec c0 l) as [K' | K']; try lia.
    + contradiction.
    + contradiction.
    + exfalso. apply K. right. exact K'.
Qed.

Lemma partition_by_key {A : Type} (f : A -> string) (l : list A) :
  list_sum (map (fun c => List.length (filter (fun x => String.eqb (f x) c) l))
                (distinct (map f l)))
  = List.length l.
Proof.
  induction l as [| x l IH]; [reflexivity |].
  cbn [map distinct filter]. rewrite list_sum_cons', String.eqb_refl. cbn [List.length].
  rewrite (list_sum_filter_ne
             (fun c => List.length (filter (fun x => String.eqb (f x) c) l)) (f x)
             (distinct_NoDup (map f l))) in IH.
  rewrite <- IH.
  assert (Hrest :
    list_sum (map (fun c => List.length
                              (if String.eqb (f x) c
                               then x :: filter (fun x0 => String.eqb (f x0) c) l
                               else filter (fun x0 => String.eqb (f x0) c) l))
                  (filter (fun y => negb (String.eqb y (f x))) (distinct (map f l))))
    = list_sum (map (fun c => List.length (filter (fun x0 => String.eqb (f x0) c) l))
                    (filter (fun y => negb (String.eqb y (f x))) (distinct (map f l))))).
  { f_equal. apply map_ext_in. intros c Hc. apply filter_In in Hc as [_ Hc].
    apply negb_true_iff in Hc. rewrite String.eqb_sym in Hc. rewrite Hc. reflexivity. }
  rewrite Hrest.
  destruct (in_dec string_dec (f x) (distinct (map f l))) as [K | K]; [lia |].
  rewrite (@length_filter_absent _ f (f x) l) by (intros K'; apply K, In_distinct, K').
  cbn [List.length]. lia.
Qed.

(** X10: the communities of [analyze] partition the records: a record is
    in the data of a community exactly when that community is its own, and
    the sizes of the data of the communities add up to the number of
    records. *)
Theorem communities_partition_records (data : list ProcessedData) :
  (forall row community,
     In row (rowsOfCommunity community data) <-> In row data /\ Community row = community)
  /\ list_sum (map (fun community => List.length (rowsOfCommunity community data))
                   (distinct (map Community data)))
     = List.length data.
Proof.
  split.
  - intros row community. unfold rowsOfCommunity. rewrite filter_In, String.eqb_eq.
    reflexivity.
  - unfold rowsOfCommunity. apply partition_by_key.
Qed.

(** ** The rows of [parseCSV] *)

Lemma chars_app (a b : string) : chars (a ++ b) = (chars a ++ chars b)%list.
Proof.
  unfold chars. induction a as [| c a IH]; cbn; [reflexivity |]. rewrite IH. reflexivity.
Qed.

Lemma chars_text (l : list ascii) : chars (text l) = l.
Proof. apply list_ascii_of_string_of_list_ascii. Qed.

Lemma splitChars_not_nil (sep : Z) (l : list ascii) : splitChars sep l <> [].
Proof.
  destruct l as [| c r]; cbn [splitChars]; [discriminate |].
  destruct (isChar sep c); [discriminate |].
  destruct (splitChars sep r); discriminate.
Qed.

Lemma splitChars_app (sep : Z) (c : ascii) (a b : list ascii) :
  isChar sep c = true ->
  splitChars sep (a ++ c :: b) = (splitChars sep a ++ splitChars sep b)%list.
Proof.
  intros Hc. induction a as [| x a IH]; cbn [app splitChars].
  - rewrite Hc. reflexivity.
  - rewrite IH. destruct (isChar sep x); [reflexivity |].
    destruct (splitChars sep a) as [| w ws] eqn:E; [| reflexivity].
    exfalso. exact (splitChars_not_nil _ _ E).
Qed.

Lemma splitChars_length (sep : Z) (l : list ascii) :
  List.length (splitChars sep l) = S (List.length (filter (isChar sep) l)).
Proof.
  induction l as [| c r IH]; cbn [splitChars filter]; [reflexivity |].
  destruct (isChar sep c); cbn [List.length]; [rewrite IH; reflexivity |].
  destruct (splitChars sep r) as [| w ws] eqn:E; [exfalso; exact (splitChars_not_nil _ _ E) |].
  exact IH.
Qed.

Lemma splitChars_pieces (sep : Z) (p : ascii -> bool) (l : list ascii) :
  Forall (fun c => isChar sep c = false -> p c = true) l ->
  Forall (Forall (fun c => p c = true)) (splitChars sep l).
Proof.
  induction 1 as [| c r Hc _ IH]; cbn [splitChars].
  - repeat constructor.
  - destruct (isChar sep c) eqn:E; [constructor; [constructor | exact IH] |].
    destruct (splitChars sep r) as [| w ws]; [repeat constructor; exact (Hc eq_refl) |].
    inversion IH; subst. constructor; [constructor; [exact (Hc eq_refl) | assumption] |].
    assumption.
Qed.

Lemma dropWhile_incl {A : Type} (p : A -> bool) (l : list A) (x : A) :
  In x (dropWhile p l) -> In x l.
Proof.
  induction l as [| y r IH]; cbn [dropWhile]; [intros [] |].
  destruct (p y); [intros H; right; exact (IH H) | intros H; exact H].
Qed.

Lemma trimChars_incl (l : list ascii) (x : ascii) : In x (trimChars l) -> In x l.
Proof.
  unfold trimChars. intros H. apply in_rev, dropWhile_incl in H.
  apply in_rev, dropWhile_incl in H. exact H.
Qed.

Lemma trimChars_blank (l : list ascii) :
  Forall (fun c => isWhiteSpace c = true) l -> trimChars l = [].
Proof.
  intros H. unfold trimChars.
  rewrite <- (app_nil_r l), dropWhile_all by exact H. reflexivity.
Qed.

Lemma keysOf_set {V : Type} (o : obj V) (k : string) (v : V) :
  keysOf (set o k v) = if inKeys (keysOf o) k then keysOf o else (keysOf o ++ [k])%list.
Proof.
  rewrite inKeys_get. destruct (get o k) as [v0 |] eqn:E.
  - unfold keysOf. apply set_keys_present with (v0 := v0). exact E.
  - rewrite set_new by exact E. unfold keysOf. rewrite map_app. reflexivity.
Qed.

Lemma get_set {V : Type} (o : obj V) (k h : string) (v : V) :
  get (set o k v) h = if String.eqb k h then Some v else get o h.
Proof.
  destruct (String.eqb_spec k h) as [-> | Hne]; [apply get_set_same |].
  apply get_set_other. exact Hne.
Qed.

Lemma keysOf_assign {V : Type} (o : obj V) (k : string) (v : V) :
  keysOf (assign o k v)
  = if ownName k && negb (inKeys (keysOf o) k) then (keysOf o ++ [k])%list else keysOf o.
Proof.
  destruct (ownName k) eqn:E.
  - rewrite assign_own by exact E. rewrite keysOf_set.
    destruct (inKeys (keysOf o) k); reflexivity.
  - rewrite assign_proto by exact E. reflexivity.
Qed.

Lemma get_assign {V : Type} (o : obj V) (k h : string) (v : V) :
  get (assign o k v) h = if ownName k && String.eqb k h then Some v else get o h.
Proof.
  destruct (ownName k) eqn:E.
  - rewrite assign_own by exact E. apply get_set.
  - rewrite assign_proto by exact E. reflexivity.
Qed.

Lemma keysOf_stored (g : nat -> value) (headers : list string) : forall i o,
  keysOf (fold_left (fun obj ih => assign obj (snd ih) (g (fst ih)))
                    (combine (seq i (List.length headers)) headers) o)
  = (keysOf o
     ++ filter (fun k => negb (inKeys (keysOf o) k)) (distinct (filter ownName headers)))%list.
Proof.
  induction headers as [| x r IH]; intros i o;
    cbn [List.length seq combine fold_left filter].
  - symmetry. apply app_nil_r.
  - rewrite IH, keysOf_assign. cbn [snd fst].
    destruct (ownName x) eqn:Ex; cbn [andb]; [| reflexivity].
    cbn [distinct filter].
    destruct (inKeys (keysOf o) x) eqn:E; cbn [negb].
    + f_equal. rewrite filter_filter. apply filter_ext_in. intros k _.
      destruct (String.eqb_spec k x) as [-> | _]; cbn [negb andb];
        [rewrite E |]; reflexivity.
    + rewrite <- app_assoc. cbn [app]. f_equal. f_equal.
      rewrite filter_filter. apply filter_ext. intros k.
      unfold inKeys. rewrite existsb_app. cbn [existsb]. rewrite orb_false_r, negb_orb.
      apply andb_comm.
Qed.

Lemma get_stored (g : nat -> value) (h : string) (headers : list string) : forall i o,
  ownName h = true ->
  get (fold_left (fun obj ih => assign obj (snd ih) (g (fst ih)))
                 (combine (seq i (List.length headers)) headers) o) h
  = match lastIndexFrom i h headers with
    | Some j => Some (g j)
    | None => get o h
    end.
Proof.
  induction headers as [| x r IH]; intros i o Hh;
    cbn [List.length seq combine fold_left lastIndexFrom]; [reflexivity |].
  rewrite IH by exact Hh. cbn [snd fst].
  destruct (lastIndexFrom (S i) h r); [reflexivity |].
  rewrite get_assign. destruct (String.eqb_spec x h) as [-> | _].
  - rewrite Hh. reflexivity.
  - rewrite andb_false_r. reflexivity.
Qed.



Lemma parseLine_keys (headers : list string) (line : string) :
  keysOf (parseLine headers line) = filter ownName (distinct headers).
Proof.
  unfold parseLine.
  rewrite (keysOf_stored
             (fun j => coerceField (nth_error (map strip (split 44 line)) j))).
  cbn [keysOf map app]. rewrite distinct_filter.
  rewrite <- (filter_true (filter ownName (distinct headers))) at 2.
  apply filter_ext. intros k. reflexivity.
Qed.

Lemma parseLine_get (headers : list string) (line : string) (h : string) :
  get (parseLine headers line) h
  = if ownName h then stored headers line h else None.
Proof.
  destruct (ownName h) eqn:Hh.
  - unfold parseLine, stored.
    exact (get_stored (fun j => coerceField (nth_error (map strip (split 44 line)) j))
                      h headers 0%nat [] Hh).
  - apply get_None_keys. fold (keysOf (parseLine headers line)).
    rewrite parseLine_keys. intros Hin. apply filter_In in Hin as [_ Hin].
    rewrite Hh in Hin. discriminate Hin.
Qed.



(** The seven names [parseCSV] of VideoEngagementUI.tsx reads are own names,
    and none is inherited. *)
Lemma field_stored (headers : list string) (line : string) (name : string) :
  ownName name = true -> isInherited name = false ->
  VideoEngagementUI.field (parseLine headers line) name
  = match stored headers line name with
    | Some v => v
    | None => VUndefined
    end.
Proof.
  intros Ho Hi. unfold VideoEngagementUI.field, lookup.
  rewrite parseLine_get, Ho, Hi. destruct (stored headers line name); reflexivity.
Qed.

(** X15: [parseCSV] of VideoEngagementUI.tsx returns one typed row per row
    of the header-driven reading, in the same order; each of its seven
    fields is what that row holds under the field's header: the coerced
    field of the line at the last position of the header, and [undefined]
    when the header is missing or the line is too short; columns under
    other headers are dropped. *)
Theorem typed_rows (contents : string) :
  VideoEngagementUI.parseCSV contents = map VideoEngagementUI.typed (parseCSV contents)
  /\ List.length (VideoEngagementUI.parseCSV contents) = List.length (parseCSV contents)
  /\ forall headers line,
       let column name :=
         match stored headers line name with
         | Some v => v
         | None => VUndefined
         end in
       VideoEngagementUI.typed (parseLine headers line)
       = {| VideoEngagementUI.trackingDateFormatted := column "Tracking Date Formatted"%string;
            VideoEngagementUI.invites := column "Invites"%string;
            VideoEngagementUI.clicks := column "Clicks"%string;
            VideoEngagementUI.plays := column "Plays"%string;
            VideoEngagementUI.playTimeMin := column "Play Time (Min)"%string;
            VideoEngagementUI.automationStage := column "Automation Stage"%string;
            VideoEngagementUI.community := column "Community"%string |}.
Proof.
  assert (E : VideoEngagementUI.parseCSV contents
              = map VideoEngagementUI.typed (parseCSV contents)).
  { unfold VideoEngagementUI.parseCSV, parseCSV. cbv zeta. rewrite map_map. reflexivity. }
  split; [exact E |]. split; [rewrite E; apply length_map |].
  intros headers line column. unfold VideoEngagementUI.typed, column.
  rewrite !field_stored by reflexivity. reflexivity.
Qed.

Lemma parseCSV_eq (contents : string) :
  parseCSV contents
  = map (parseLine (headersOf contents))
        (filter (fun line => nonEmpty (chars (trim line))) (tl (split 10 contents))).
Proof. reflexivity. Qed.

Lemma split_length (sep : Z) (s : string) :
  List.length (split sep s) = S (countChar sep s).
Proof. unfold split, countChar. rewrite length_map. apply splitChars_length. Qed.

Lemma countChar_absent (k : Z) (s : string) : hasChar k s = false -> countChar k s = 0%nat.
Proof.
  unfold countChar, hasChar. induction (chars s) as [| c r IH]; [reflexivity |].
  cbn [existsb filter]. intros H. apply orb_false_iff in H as [Hc Hr].
  rewrite Hc. exact (IH Hr).
Qed.

(** X12: every row of [parseCSV] inside [handleFileUpload] has the same
    fields, one per distinct header of the first line other than
    [__proto__] and in the order of the headers, and there are at most as
    many rows as the text has line feeds: a text with no line feed gives no
    row. *)
Theorem parseCSV_rows (contents : string) :
  Forall (fun row => keysOf row = filter ownName (distinct (headersOf contents)))
         (parseCSV contents)
  /\ (List.length (parseCSV contents) <= countChar 10 contents)%nat
  /\ (hasChar 10 contents = false -> parseCSV contents = []).
Proof.
  rewrite parseCSV_eq.
  assert (Hlen : (List.length
                    (map (parseLine (headersOf contents))
                         (filter (fun line => nonEmpty (chars (trim line)))
                                 (tl (split 10 contents))))
                  <= countChar 10 contents)%nat).
  { rewrite length_map.
    eapply Nat.le_trans; [apply filter_length_le |].
    pose proof (split_length 10 contents) as L.
    destruct (split 10 contents) as [| l0 ls]; cbn [tl List.length] in *; lia. }
  split; [| split; [exact Hlen |]].
  - apply Forall_forall. intros row Hrow.
    apply in_map_iff in Hrow as [line [<- _]]. apply parseLine_keys.
  - intros Hno.
    rewrite (countChar_absent _ _ Hno) in Hlen.
    destruct (map (parseLine (headersOf contents))
                  (filter (fun line => nonEmpty (chars (trim line)))
                          (tl (split 10 contents)))) as [| row rows];
      [reflexivity | cbn [List.length] in Hlen; lia].
Qed.

Lemma split_app (sep : Z) (c : ascii) (a b : string) :
  isChar sep c = true ->
  split sep (a ++ String c b) = (split sep a ++ split sep b)%list.
Proof.
  intros Hc. unfold split. rewrite chars_app.
  change (chars (String c b)) with (c :: chars b).
  rewrite splitChars_app by exact Hc. apply map_app.
Qed.

Lemma split_not_nil (sep : Z) (s : string) : split sep s <> [].
Proof.
  unfold split. intros H. apply map_eq_nil in H. exact (splitChars_not_nil _ _ H).
Qed.

Lemma blank_lines (blank : string) :
  Forall (fun c => isWhiteSpace c = true) (chars blank) ->
  filter (fun line => nonEmpty (chars (trim line))) (split 10 blank) = [].
Proof.
  intros H. unfold split.
  assert (G : Forall (Forall (fun c => isWhiteSpace c = true))
                     (splitChars 10 (chars blank))).
  { apply splitChars_pieces. eapply Forall_impl; [| exact H]. intros c Hc _. exact Hc. }
  induction G as [| w ws Hw _ IH]; cbn [map filter]; [reflexivity |].
  unfold trim at 1. rewrite !chars_text, (trimChars_blank Hw). cbn [nonEmpty]. exact IH.
Qed.

Lemma newline_app (a b : string) : (a ++ newline ++ b)%string = (a ++ String (ascii_of_N 10) b)%string.
Proof. reflexivity. Qed.

(** X13: [parseCSV] ignores blank lines after the first line: a line of
    white space only, at the end of the text or between two lines, changes
    neither the headers nor the rows; in particular a final line feed adds
    no row. *)
Theorem parseCSV_blank_lines (a blank : string) :
  Forall (fun c => isWhiteSpace c = true) (chars blank) ->
  parseCSV (a ++ newline ++ blank) = parseCSV a
  /\ forall b, parseCSV (a ++ newline ++ blank ++ newline ++ b)
               = parseCSV (a ++ newline ++ b).
Proof.
  intros H.
  assert (Hsep : isChar 10 (ascii_of_N 10) = true) by reflexivity.
  pose proof (split_not_nil 10 a) as Ha.
  split; [| intros b]; rewrite !parseCSV_eq; unfold headersOf; rewrite !newline_app.
  - rewrite !split_app by exact Hsep.
    destruct (split 10 a) as [| l0 ls]; [contradiction |]. cbn [app hd tl].
    rewrite filter_app, blank_lines, app_nil_r by exact H. reflexivity.
  - rewrite !split_app by exact Hsep.
    destruct (split 10 a) as [| l0 ls]; [contradiction |]. cbn [app hd tl].
    rewrite !filter_app, blank_lines by exact H. reflexivity.
Qed.

Lemma parseCSV_blank_lines_witness :
  Forall (fun c => isWhiteSpace c = true) (chars "  "%string)
  /\ parseCSV (exampleCSV ++ newline ++ "  ") = parseCSV exampleCSV.
Proof.
  assert (H : Forall (fun c => isWhiteSpace c = true) (chars "  "%string))
    by (repeat constructor).
  split; [exact H |].
  exact (proj1 (@parseCSV_blank_lines exampleCSV _ H)).
Defined.

Lemma hasChar_text (k : Z) (l : list ascii) :
  Forall (fun c => negb (isChar k c) = true) l -> hasChar k (text l) = false.
Proof.
  intros H. unfold hasChar. rewrite chars_text.
  induction H as [| c r Hc _ IH]; [reflexivity |].
  cbn [existsb]. apply negb_true_iff in Hc. rewrite Hc. exact IH.
Qed.

Lemma strip_chars (p : ascii -> bool) (l : list ascii) :
  Forall (fun c => p c = true) l ->
  Forall (fun c => p c = true) (filter (fun c => negb (code c =? 34)) (trimChars l)).
Proof.
  intros H. apply Forall_forall. intros c Hc.
  apply filter_In in Hc as [Hc _]. apply trimChars_incl in Hc.
  rewrite Forall_forall in H. exact (H c Hc).
Qed.

(** The fields of a line hold no code unit that the line holds only as a
    comma, and no double quote. *)
Lemma fields_chars (p : ascii -> bool) (line : string) :
  Forall (fun c => isChar 44 c = false -> p c = true) (chars line) ->
  Forall (fun s => exists l, s = text l
                             /\ Forall (fun c => p c = true) l
                             /\ Forall (fun c => negb (isChar 34 c) = true) l)
         (map strip (split 44 line)).
Proof.
  intros H. unfold split. rewrite map_map.
  apply (splitChars_pieces 44 p) in H.
  induction H as [| w ws Hw _ IH]; cbn [map]; constructor; [| exact IH].
  unfold strip. rewrite chars_text.
  exists (filter (fun c => negb (code c =? 34)) (trimChars w)).
  split; [reflexivity |]. split; [apply strip_chars; exact Hw |].
  apply Forall_forall. intros c Hc. apply filter_In in Hc as [_ Hc]. exact Hc.
Qed.

Lemma coerceField_fieldValue (k : Z) (v : option string) :
  match v with
  | Some s => hasChar 44 s = false /\ hasChar 34 s = false /\ hasChar k s = false
  | None => True
  end ->
  fieldValue (coerceField v)
  /\ match coerceField v with VStr s => hasChar k s = false | _ => True end.
Proof.
  destruct v as [s |]; cbn [coerceField]; [| intros _; split; exact I].
  intros [Hc [Hq Hk]].
  destruct (isNaN (Number (VStr s))) eqn:E; cbn [fieldValue].
  - split; [split; [exact E | split; [exact Hc | exact Hq]] | exact Hk].
  - split; [exact E | exact I].
Qed.

Lemma parseLine_fieldValues (k : Z) (headers : list string) (line : string) :
  Forall (fun c => isChar 44 c = false -> negb (isChar k c) = true) (chars line) ->
  Forall (fun kv => fieldValue (snd kv)
                    /\ match snd kv with VStr s => hasChar k s = false | _ => True end)
         (parseLine headers line).
Proof.
  intros Hk. apply Forall_forall. intros [h v] Hin. cbn [snd].
  apply parseLine_values in Hin as [i ->].
  apply coerceField_fieldValue.
  destruct (nth_error (map strip (split 44 line)) i) as [s |] eqn:E; [| exact I].
  apply nth_error_In in E.
  assert (Hcomma : Forall (fun c => isChar 44 c = false -> negb (isChar 44 c) = true)
                          (chars line)).
  { apply Forall_forall. intros c _ Hc. rewrite Hc. reflexivity. }
  pose proof (fields_chars _ line Hcomma) as F1. rewrite Forall_forall in F1.
  pose proof (fields_chars _ line Hk) as F2. rewrite Forall_forall in F2.
  destruct (F1 s E) as [l1 [E1 [C1 Q1]]]. destruct (F2 s E) as [l2 [E2 [C2 _]]].
  split; [rewrite E1; apply hasChar_text; exact C1 |].
  split; [rewrite E1; apply hasChar_text; exact Q1 |].
  rewrite E2. apply hasChar_text. exact C2.
Qed.

Lemma split_pieces (sep : Z) (s : string) :
  Forall (fun piece => Forall (fun c => negb (isChar sep c) = true) (chars piece))
         (split sep s).
Proof.
  unfold split.
  assert (H : Forall (Forall (fun c => negb (isChar sep c) = true))
                     (splitChars sep (chars s))).
  { apply splitChars_pieces. apply Forall_forall. intros c _ Hc. rewrite Hc. reflexivity. }
  induction H as [| w ws Hw _ IH]; cbn [map]; constructor; [| exact IH].
  rewrite chars_text. exact Hw.
Qed.

(** X14: what [parseCSV] stores in a field is [undefined], a number that is
    not [NaN], or a text that is not the text of a number; a stored text
    holds no comma, no double quote and no line feed (a quoted field with
    a comma inside is cut at the comma, and its quotes are dropped); and
    converting a stored value to a number again gives what the text of the
    field converts to, so the analyzer's own conversion sees the text. *)
Theorem parseCSV_field_values (contents : string) :
  Forall (Forall (fun kv =>
            fieldValue (snd kv)
            /\ match snd kv with VStr s => hasChar 10 s = false | _ => True end))
         (parseCSV contents)
  /\ forall field, Number (coerceField field) = Number (fieldText field).
Proof.
  split.
  - rewrite parseCSV_eq. apply Forall_forall. intros row Hrow.
    apply in_map_iff in Hrow as [line [<- Hline]].
    apply filter_In in Hline as [Hline _].
    apply parseLine_fieldValues.
    pose proof (split_pieces 10 contents) as P. rewrite Forall_forall in P.
    assert (Hin : In line (split 10 contents)).
    { destruct (split 10 contents) as [| l0 ls]; [destruct Hline | right; exact Hline]. }
    eapply Forall_impl; [| exact (P line Hin)]. intros c Hc _. exact Hc.
  - intros [s |]; cbn [coerceField fieldText]; [| reflexivity].
    destruct (isNaN (Number (VStr s))); reflexivity.
Qed.
